(** * LLMToolBridge: tool-call extraction, streaming detection, round loop

    A shallow embedding of the translation core of the proxy:
    - [ToolConverter], the class of tool-converter.ts: the prompt compiler
      and the extractor;
    - [ProxyHandler], the class of proxy-handler.ts: the non-streaming round
      loop and the streaming detector.

    The TypeScript runs on a JavaScript engine, so the embedding starts with
    the part of the runtime the code relies on ([JS]): strings as sequences of
    16-bit code units, [trim], [substring], [includes], the backtracking
    regular expressions the converter uses, [JSON.parse] / [JSON.stringify]
    with numbers as binary64 doubles, and the UTF-8 decoding of a buffer.
    Exceptions are explicit ([completion]). *)

From Stdlib Require Import String Ascii NArith ZArith Bool Lia DecimalString List.
From Stdlib Require Import SpecFloat.
From Stdlib Require Strings.Byte.
Import ListNotations.

Set Implicit Arguments.

(* ================================================================== *)
(** * The JavaScript runtime the code relies on *)
(* ================================================================== *)

Module JS.

(** ** Completions: a call returns normally or throws *)

Inductive JSError :=
| SyntaxError                       (* JSON.parse on malformed text *)
| TypeError                         (* property read on null / undefined *)
| Error (message : list N).         (* new Error(message) *)

Inductive completion (A : Type) :=
| Normal (a : A)
| Throw (e : JSError).

Arguments Normal {A} a.
Arguments Throw {A} e.

Definition bind {A B} (c : completion A) (k : A -> completion B) : completion B :=
  match c with
  | Normal a => k a
  | Throw e => Throw e
  end.

(** [try { c } catch (error) { h error }] *)
Definition try_catch {A} (c : completion A) (h : JSError -> completion A) : completion A :=
  match c with
  | Normal a => Normal a
  | Throw e => h e
  end.

Declare Scope js_scope.
Delimit Scope js_scope with js.
Notation "x <- c ;; k" := (bind c (fun x => k))
  (at level 61, c at next level, right associativity) : js_scope.

(** ** Strings *)

(** A JavaScript string is a finite sequence of UTF-16 code units. *)
Definition char16 := N.
Definition jsstring := list char16.

(** Source literals.  [lit] reads a literal as it stands; [jq] reads a literal
    in which every apostrophe stands for the double quote (code unit 34), so
    that JSON text can be written in one piece. *)
Definition lit (s : string) : jsstring :=
  map N_of_ascii (list_ascii_of_string s).

Definition jq (s : string) : jsstring :=
  map (fun c => if N.eqb c 39 then 34%N else c) (lit s).

Definition LF : jsstring := [10%N].

(** [a === b] on strings. *)
Fixpoint string_eqb (a b : jsstring) : bool :=
  match a, b with
  | [], [] => true
  | x :: a', y :: b' => N.eqb x y && string_eqb a' b'
  | _, _ => false
  end.

(** WhiteSpace and LineTerminator code units (ECMA-262 12.2, 12.3): what
    [String.prototype.trim] strips and what [\s] matches. *)
Definition isWhiteSpace (c : char16) : bool :=
  existsb (N.eqb c)
    [9; 10; 11; 12; 13; 32; 160; 5760; 8232; 8233; 8239; 8287; 12288; 65279]%N
  || (N.leb 8192 c && N.leb c 8202).

Fixpoint trimStart (s : jsstring) : jsstring :=
  match s with
  | c :: r => if isWhiteSpace c then trimStart r else s
  | [] => []
  end.

Definition trimEnd (s : jsstring) : jsstring := rev (trimStart (rev s)).

Definition trim (s : jsstring) : jsstring := trimEnd (trimStart s).

(** [s.startsWith(p)], [s.endsWith(p)], [s.includes(p)] *)
Fixpoint startsWith (s p : jsstring) : bool :=
  match p, s with
  | [], _ => true
  | x :: p', y :: s' => N.eqb x y && startsWith s' p'
  | _ :: _, [] => false
  end.

Definition endsWith (s p : jsstring) : bool := startsWith (rev s) (rev p).

Fixpoint includes (s p : jsstring) : bool :=
  startsWith s p ||
  match s with
  | [] => false
  | _ :: s' => includes s' p
  end.

(** [s.substring(start, end)]: both indices are clamped to [0, length] and
    swapped when out of order. *)
Definition clamp (len i : Z) : nat := Z.to_nat (Z.min (Z.max i 0) len).

Definition substring (s : jsstring) (start stop : Z) : jsstring :=
  let len := Z.of_nat (length s) in
  let a := clamp len start in
  let b := clamp len stop in
  let from := Nat.min a b in
  let to := Nat.max a b in
  firstn (to - from) (skipn from s).

(** [s.substring(start)] *)
Definition substring_from (s : jsstring) (start : Z) : jsstring :=
  substring s start (Z.of_nat (length s)).

(** [s[i]]: the code unit at index [i], or [undefined] ([None]). *)
Definition charAt (s : jsstring) (i : nat) : option char16 := nth_error s i.

(** Decimal rendering of a non-negative integer. *)
Definition decimal (n : N) : jsstring := lit (NilZero.string_of_uint (N.to_uint n)).

(** Truthiness of a string and of a possibly-null string. *)
Definition nonEmpty (s : jsstring) : bool :=
  match s with [] => false | _ :: _ => true end.

Definition truthyStr (s : option jsstring) : bool :=
  match s with Some t => nonEmpty t | None => false end.

(** ** Regular expressions

    The backtracking matcher of ECMA-262 22.2.2, for the constructs the
    converter's patterns use: literal characters, character classes, sequence,
    greedy and lazy [*], capturing groups, and the [i] flag.  As in the
    standard, an iteration of [*] that consumes nothing is rejected, so the
    number of iterations is bounded by the length of the input that is left:
    the local [fuel] of [Star] starts one above it and never runs out. *)

Module RegExp.

Inductive node :=
| Empty
| Char (c : char16)
| Class (p : char16 -> bool)
| Seq (a b : node)
| Star (greedy : bool) (a : node)
| Group (i : nat) (a : node).

(** A literal string as a pattern. *)
Fixpoint Lit (s : jsstring) : node :=
  match s with
  | [] => Empty
  | c :: t => Seq (Char c) (Lit t)
  end.

(** [\s] and [[\s\S]] *)
Definition ws : node := Class isWhiteSpace.
Definition any : node := Class (fun c => isWhiteSpace c || negb (isWhiteSpace c)).

(** Canonicalize (22.2.2.7.3) without the [u] flag.  Only ASCII letters
    occur in the patterns below, and no code unit above 127 canonicalizes to
    one, so folding a-z to A-Z decides every comparison they make. *)
Definition canonicalize (ignoreCase : bool) (c : char16) : char16 :=
  if ignoreCase && N.leb 97 c && N.leb c 122 then (c - 32)%N else c.

Record mstate := {
  rest : jsstring;                       (* input not yet consumed *)
  endIndex : nat;                        (* index of the next code unit *)
  captures : list (nat * jsstring)       (* most recent first *)
}.

Definition continuation := mstate -> option mstate.

Fixpoint m (ignoreCase : bool) (r : node) (k : continuation) (x : mstate)
  {struct r} : option mstate :=
  match r with
  | Empty => k x
  | Char c =>
      match rest x with
      | d :: t =>
          if N.eqb (canonicalize ignoreCase c) (canonicalize ignoreCase d)
          then k {| rest := t; endIndex := S (endIndex x); captures := captures x |}
          else None
      | [] => None
      end
  | Class p =>
      match rest x with
      | d :: t =>
          if p d
          then k {| rest := t; endIndex := S (endIndex x); captures := captures x |}
          else None
      | [] => None
      end
  | Seq a b => m ignoreCase a (fun y => m ignoreCase b k y) x
  | Star greedy a =>
      (fix loop (fuel : nat) (x : mstate) {struct fuel} : option mstate :=
         let iterate (_ : unit) :=
           match fuel with
           | O => None
           | S fuel' =>
               m ignoreCase a
                 (fun y => if Nat.eqb (endIndex y) (endIndex x) then None
                           else loop fuel' y) x
           end in
         if greedy
         then match iterate tt with Some y => Some y | None => k x end
         else match k x with Some y => Some y | None => iterate tt end)
        (S (length (rest x))) x
  | Group i a =>
      m ignoreCase a
        (fun y => k {| rest := rest y; endIndex := endIndex y;
                       captures := (i, firstn (endIndex y - endIndex x) (rest x))
                                   :: captures y |}) x
  end.

Record regex := { pattern : node; ignoreCase : bool }.

Record MatchResult := {
  index : nat;                           (* match.index *)
  matched : jsstring;                    (* match[0] *)
  groups : list (nat * jsstring)
}.

(** [match[i]] for a capturing group that took part in the match. *)
Definition group (r : MatchResult) (i : nat) : jsstring :=
  match find (fun g => Nat.eqb (fst g) i) (groups r) with
  | Some g => snd g
  | None => []
  end.

(** RegExpBuiltinExec for a pattern without [g] or [y]: the first start
    index, from 0 up to the length, at which the matcher succeeds. *)
Fixpoint exec_from (re : regex) (s : jsstring) (i : nat) : option MatchResult :=
  match m (ignoreCase re) (pattern re) Some
          {| rest := s; endIndex := i; captures := [] |} with
  | Some y =>
      Some {| index := i; matched := firstn (endIndex y - i) s;
              groups := captures y |}
  | None =>
      match s with
      | [] => None
      | _ :: t => exec_from re t (S i)
      end
  end.

End RegExp.

(** ** JSON values *)

(** A number literal as it is read: the decimal
    (-1)^negative * significand * 10^exponent. *)
Record number := {
  negative : bool;
  significand : N;
  exponent : Z
}.

(** A Number value is a binary64 double, in the Standard Library's
    specification of IEEE 754 ([spec_float]): a signed zero, an infinity, NaN,
    or (-1)^s * m * 2^e with [m] and [e] in canonical form. *)
Definition prec : Z := 53.
Definition emax : Z := 1024.

(** The quotient [num / den] of two positive integers, rounded to the
    nearest double, ties to even. *)
Definition nearest (negative : bool) (num den : Z) : spec_float :=
  let '(q, e, l) := SFdiv_core_binary prec emax num 0 den 0 in
  binary_round_aux prec emax negative q e l.

(** The Number value of a literal: the double nearest to the decimal, ties
    to even, as V8 computes it for a literal of any length.  A literal too
    small for the least double gives a zero, one beyond the largest double an
    infinity. *)
Definition toDouble (x : number) : spec_float :=
  match significand x with
  | N0 => S754_zero (negative x)
  | Npos s =>
      nearest (negative x)
        (Zpos s * 10 ^ Z.max (exponent x) 0)
        (10 ^ Z.max (- exponent x) 0)
  end.

Definition isFinite (x : spec_float) : bool :=
  match x with
  | S754_zero _ | S754_finite _ _ _ => true
  | S754_infinity _ | S754_nan => false
  end.

Unset Elimination Schemes.
Inductive json :=
| JNull
| JBool (b : bool)
| JNumber (x : spec_float)
| JString (s : jsstring)
| JArray (items : list json)
| JObject (props : list (jsstring * json)).   (* own properties, in key order *)
Set Elimination Schemes.

(** What an expression over parsed data can evaluate to. *)
Inductive jsval :=
| Undefined
| Val (v : json).

(** ToBoolean *)
Definition truthy (v : jsval) : bool :=
  match v with
  | Undefined => false
  | Val JNull => false
  | Val (JBool b) => b
  | Val (JNumber (S754_zero _)) | Val (JNumber S754_nan) => false
  | Val (JNumber _) => true
  | Val (JString s) => nonEmpty s
  | Val (JArray _) => true
  | Val (JObject _) => true
  end.

(** [a || b] and [a && b] on values *)
Definition or_ (a b : jsval) : jsval := if truthy a then a else b.
Definition and_ (a b : jsval) : jsval := if truthy a then b else a.

Fixpoint lookup (props : list (jsstring * json)) (k : jsstring) : jsval :=
  match props with
  | [] => Undefined
  | (k', v) :: t => if string_eqb k' k then Val v else lookup t k
  end.

(** The own property [k] of a parsed value, [undefined] when it has none. *)
Definition field (v : json) (k : jsstring) : jsval :=
  match v with
  | JObject props => lookup props k
  | _ => Undefined
  end.

(** [v.k] for a property name [k] that no built-in prototype defines (the
    code reads [function_call], [name] and [arguments] only): an own property
    of an object, [undefined] on any other value that can be converted to an
    object, and a TypeError on [null] and [undefined]. *)
Definition Get (v : jsval) (k : jsstring) : completion jsval :=
  match v with
  | Undefined => Throw TypeError
  | Val JNull => Throw TypeError
  | Val v' => Normal (field v' k)
  end.

(** ** JSON.parse

    The JSON grammar of ECMA-404, read in two passes that each take one step
    per input symbol: a scanner from code units to tokens and a pushdown
    parser from tokens to a value. *)

Module JSON.

Inductive token :=
| TLBrace | TRBrace | TLBracket | TRBracket | TColon | TComma
| TString (s : jsstring)
| TNumber (n : number)
| TTrue | TFalse | TNull.

(** Where the scanner stands inside a number literal. *)
Inductive numstate :=
| NMinus          (* after "-": a digit must follow *)
| NZero           (* after a leading "0" *)
| NInt            (* inside the integer digits *)
| NDot            (* after ".": a digit must follow *)
| NFrac           (* inside the fraction digits *)
| NExp            (* after "e" / "E" *)
| NExpSign        (* after the exponent sign: a digit must follow *)
| NExpDigits.     (* inside the exponent digits *)

Record numacc := {
  neg : bool;
  sig : N;            (* all digits read so far, as one integer *)
  fracDigits : N;     (* how many of them stand after the point *)
  expNeg : bool;
  expVal : N
}.

Definition numberOf (a : numacc) : number :=
  {| negative := neg a;
     significand := sig a;
     exponent := (if expNeg a then - Z.of_N (expVal a) else Z.of_N (expVal a))
                 - Z.of_N (fracDigits a) |}.

Inductive mode :=
| Default
| InString (acc : jsstring)                     (* reversed *)
| InEscape (acc : jsstring)
| InUnicode (acc : jsstring) (seen : nat) (value : N)
| InNumber (st : numstate) (a : numacc)
| InKeyword (expected : jsstring) (t : token).

Definition isDigit (c : char16) : bool := N.leb 48 c && N.leb c 57.
Definition digitValue (c : char16) : N := (c - 48)%N.

Definition hexValue (c : char16) : option N :=
  if isDigit c then Some (c - 48)%N
  else if N.leb 97 c && N.leb c 102 then Some (c - 87)%N
  else if N.leb 65 c && N.leb c 70 then Some (c - 55)%N
  else None.

Definition isJSONWhiteSpace (c : char16) : bool :=
  existsb (N.eqb c) [9; 10; 13; 32]%N.

Definition pushDigit (a : numacc) (c : char16) : numacc :=
  {| neg := neg a; sig := (sig a * 10 + digitValue c)%N;
     fracDigits := fracDigits a; expNeg := expNeg a; expVal := expVal a |}.

Definition pushFrac (a : numacc) (c : char16) : numacc :=
  {| neg := neg a; sig := (sig a * 10 + digitValue c)%N;
     fracDigits := (fracDigits a + 1)%N; expNeg := expNeg a; expVal := expVal a |}.

Definition pushExp (a : numacc) (c : char16) : numacc :=
  {| neg := neg a; sig := sig a; fracDigits := fracDigits a;
     expNeg := expNeg a; expVal := (expVal a * 10 + digitValue c)%N |}.

Definition negExp (a : numacc) : numacc :=
  {| neg := neg a; sig := sig a; fracDigits := fracDigits a;
     expNeg := true; expVal := expVal a |}.

Definition startNumber (isNeg : bool) : numacc :=
  {| neg := isNeg; sig := 0; fracDigits := 0; expNeg := false; expVal := 0 |}.

(** One code unit read between tokens. *)
Definition scanDefault (c : char16) : option (mode * list token) :=
  if isJSONWhiteSpace c then Some (Default, [])
  else if N.eqb c 123 then Some (Default, [TLBrace])
  else if N.eqb c 125 then Some (Default, [TRBrace])
  else if N.eqb c 91 then Some (Default, [TLBracket])
  else if N.eqb c 93 then Some (Default, [TRBracket])
  else if N.eqb c 58 then Some (Default, [TColon])
  else if N.eqb c 44 then Some (Default, [TComma])
  else if N.eqb c 34 then Some (InString [], [])
  else if N.eqb c 45 then Some (InNumber NMinus (startNumber true), [])
  else if N.eqb c 48 then Some (InNumber NZero (startNumber false), [])
  else if isDigit c then Some (InNumber NInt (pushDigit (startNumber false) c), [])
  else if N.eqb c 116 then Some (InKeyword (lit "rue") TTrue, [])
  else if N.eqb c 102 then Some (InKeyword (lit "alse") TFalse, [])
  else if N.eqb c 110 then Some (InKeyword (lit "ull") TNull, [])
  else None.

Definition isExpMark (c : char16) : bool := N.eqb c 101 || N.eqb c 69.

(** A number literal ends at the first code unit that cannot extend it; that
    code unit is then read as the start of what follows. *)
Definition finishNumber (a : numacc) (c : char16) : option (mode * list token) :=
  match scanDefault c with
  | Some (md, ts) => Some (md, TNumber (numberOf a) :: ts)
  | None => None
  end.

Definition scanNumber (st : numstate) (a : numacc) (c : char16)
  : option (mode * list token) :=
  match st with
  | NMinus =>
      if N.eqb c 48 then Some (InNumber NZero a, [])
      else if isDigit c then Some (InNumber NInt (pushDigit a c), [])
      else None
  | NZero =>
      if N.eqb c 46 then Some (InNumber NDot a, [])
      else if isExpMark c then Some (InNumber NExp a, [])
      else finishNumber a c
  | NInt =>
      if isDigit c then Some (InNumber NInt (pushDigit a c), [])
      else if N.eqb c 46 then Some (InNumber NDot a, [])
      else if isExpMark c then Some (InNumber NExp a, [])
      else finishNumber a c
  | NDot =>
      if isDigit c then Some (InNumber NFrac (pushFrac a c), []) else None
  | NFrac =>
      if isDigit c then Some (InNumber NFrac (pushFrac a c), [])
      else if isExpMark c then Some (InNumber NExp a, [])
      else finishNumber a c
  | NExp =>
      if N.eqb c 43 then Some (InNumber NExpSign a, [])
      else if N.eqb c 45 then Some (InNumber NExpSign (negExp a), [])
      else if isDigit c then Some (InNumber NExpDigits (pushExp a c), [])
      else None
  | NExpSign =>
      if isDigit c then Some (InNumber NExpDigits (pushExp a c), []) else None
  | NExpDigits =>
      if isDigit c then Some (InNumber NExpDigits (pushExp a c), [])
      else finishNumber a c
  end.

Definition scanEscape (acc : jsstring) (c : char16) : option (mode * list token) :=
  if N.eqb c 34 then Some (InString (34 :: acc)%N, [])
  else if N.eqb c 92 then Some (InString (92 :: acc)%N, [])
  else if N.eqb c 47 then Some (InString (47 :: acc)%N, [])
  else if N.eqb c 98 then Some (InString (8 :: acc)%N, [])
  else if N.eqb c 102 then Some (InString (12 :: acc)%N, [])
  else if N.eqb c 110 then Some (InString (10 :: acc)%N, [])
  else if N.eqb c 114 then Some (InString (13 :: acc)%N, [])
  else if N.eqb c 116 then Some (InString (9 :: acc)%N, [])
  else if N.eqb c 117 then Some (InUnicode acc 0 0, [])
  else None.

Definition scan (md : mode) (c : char16) : option (mode * list token) :=
  match md with
  | Default => scanDefault c
  | InString acc =>
      if N.eqb c 34 then Some (Default, [TString (rev acc)])
      else if N.eqb c 92 then Some (InEscape acc, [])
      else if N.ltb c 32 then None
      else Some (InString (c :: acc), [])
  | InEscape acc => scanEscape acc c
  | InUnicode acc seen value =>
      match hexValue c with
      | Some h =>
          let value' := (value * 16 + h)%N in
          if Nat.eqb seen 3 then Some (InString (value' :: acc), [])
          else Some (InUnicode acc (S seen) value', [])
      | None => None
      end
  | InNumber st a => scanNumber st a c
  | InKeyword expected t =>
      match expected with
      | e :: more =>
          if N.eqb c e
          then match more with
               | [] => Some (Default, [t])
               | _ :: _ => Some (InKeyword more t, [])
               end
          else None
      | [] => None
      end
  end.

(** What is left to emit when the input ends. *)
Definition scanEnd (md : mode) : option (list token) :=
  match md with
  | Default => Some []
  | InNumber NZero a | InNumber NInt a | InNumber NFrac a | InNumber NExpDigits a =>
      Some [TNumber (numberOf a)]
  | _ => None
  end.

Fixpoint tokenize (md : mode) (input : jsstring) : option (list token) :=
  match input with
  | [] => scanEnd md
  | c :: more =>
      match scan md c with
      | Some (md', ts) =>
          match tokenize md' more with
          | Some rest => Some (ts ++ rest)
          | None => None
          end
      | None => None
      end
  end.

(** *** Own properties of a parsed object

    [CreateDataProperty]: a key that is already there keeps its place and
    takes the new value (the last duplicate wins); a new key that is an array
    index goes among the array indices in ascending order, before every other
    key; any other new key goes last (OrdinaryOwnPropertyKeys). *)

Fixpoint digitsValue (acc : N) (s : jsstring) : option N :=
  match s with
  | [] => Some acc
  | c :: t => if isDigit c then digitsValue (acc * 10 + digitValue c)%N t else None
  end.

(** The integer a key denotes when it is a canonical array index. *)
Definition arrayIndex (k : jsstring) : option N :=
  match k with
  | [] => None
  | c :: t =>
      if N.eqb c 48 && nonEmpty t then None
      else match digitsValue 0 k with
           | Some n => if N.leb n 4294967294 then Some n else None
           | None => None
           end
  end.

Fixpoint replaceProperty (props : list (jsstring * json)) (k : jsstring) (v : json)
  : option (list (jsstring * json)) :=
  match props with
  | [] => None
  | (k', v') :: t =>
      if string_eqb k' k then Some ((k', v) :: t)
      else match replaceProperty t k v with
           | Some t' => Some ((k', v') :: t')
           | None => None
           end
  end.

Fixpoint insertIndexed (props : list (jsstring * json)) (i : N) (k : jsstring) (v : json)
  : list (jsstring * json) :=
  match props with
  | [] => [(k, v)]
  | (k', v') :: t =>
      match arrayIndex k' with
      | Some j => if N.ltb i j then (k, v) :: props
                  else (k', v') :: insertIndexed t i k v
      | None => (k, v) :: props
      end
  end.

Definition defineProperty (props : list (jsstring * json)) (k : jsstring) (v : json)
  : list (jsstring * json) :=
  match replaceProperty props k v with
  | Some props' => props'
  | None =>
      match arrayIndex k with
      | Some i => insertIndexed props i k v
      | None => props ++ [(k, v)]
      end
  end.

(** *** The parser *)

Inductive frame :=
| FArray (items : list json)                                   (* reversed *)
| FObject (props : list (jsstring * json)) (key : option jsstring).

Inductive pstate :=
| PValue            (* a value must follow *)
| PArrayStart       (* after "[": a value or "]" *)
| PObjectStart      (* after "{": a key or "}" *)
| PKey              (* after "," in an object: a key *)
| PColon            (* after a key *)
| PAfterValue       (* after a value inside an array or object *)
| PDone (v : json). (* the top-level value is complete *)

(** A complete value goes to the enclosing array or object. *)
Definition deliver (v : json) (stack : list frame) : option (pstate * list frame) :=
  match stack with
  | [] => Some (PDone v, [])
  | FArray items :: up => Some (PAfterValue, FArray (v :: items) :: up)
  | FObject props (Some k) :: up =>
      Some (PAfterValue, FObject (defineProperty props k v) None :: up)
  | FObject _ None :: _ => None
  end.

Definition scalar (t : token) : option json :=
  match t with
  | TString s => Some (JString s)
  | TNumber n => Some (JNumber (toDouble n))
  | TTrue => Some (JBool true)
  | TFalse => Some (JBool false)
  | TNull => Some JNull
  | _ => None
  end.

Definition setKey (k : jsstring) (stack : list frame) : option (pstate * list frame) :=
  match stack with
  | FObject props None :: up => Some (PColon, FObject props (Some k) :: up)
  | _ => None
  end.

Definition closeObject (stack : list frame) : option (pstate * list frame) :=
  match stack with
  | FObject props None :: up => deliver (JObject props) up
  | _ => None
  end.

Definition closeArray (stack : list frame) : option (pstate * list frame) :=
  match stack with
  | FArray items :: up => deliver (JArray (rev items)) up
  | _ => None
  end.

Definition startValue (t : token) (stack : list frame) : option (pstate * list frame) :=
  match t with
  | TLBracket => Some (PArrayStart, FArray [] :: stack)
  | TLBrace => Some (PObjectStart, FObject [] None :: stack)
  | _ => match scalar t with
         | Some v => deliver v stack
         | None => None
         end
  end.

Definition parseStep (st : pstate) (stack : list frame) (t : token)
  : option (pstate * list frame) :=
  match st with
  | PValue => startValue t stack
  | PArrayStart =>
      match t with
      | TRBracket => closeArray stack
      | _ => startValue t stack
      end
  | PObjectStart =>
      match t with
      | TString k => setKey k stack
      | TRBrace => closeObject stack
      | _ => None
      end
  | PKey =>
      match t with
      | TString k => setKey k stack
      | _ => None
      end
  | PColon =>
      match t with
      | TColon => Some (PValue, stack)
      | _ => None
      end
  | PAfterValue =>
      match t, stack with
      | TComma, FArray _ :: _ => Some (PValue, stack)
      | TComma, FObject _ None :: _ => Some (PKey, stack)
      | TRBracket, _ => closeArray stack
      | TRBrace, _ => closeObject stack
      | _, _ => None
      end
  | PDone _ => None
  end.

Fixpoint parseTokens (st : pstate) (stack : list frame) (ts : list token) : option json :=
  match ts with
  | [] => match st with
          | PDone v => Some v
          | _ => None
          end
  | t :: more =>
      match parseStep st stack t with
      | Some (st', stack') => parseTokens st' stack' more
      | None => None
      end
  end.

(** [JSON.parse(text)] *)
Definition parse (text : jsstring) : completion json :=
  match tokenize Default text with
  | Some ts =>
      match parseTokens PValue [] ts with
      | Some v => Normal v
      | None => Throw SyntaxError
      end
  | None => Throw SyntaxError
  end.

(** ** JSON.stringify *)

(** Number::toString (6.1.6.1.20).  For a finite double [x] other than zero
    the standard takes the decimal [s * 10^(n-k)] of the fewest digits [k]
    that rounds to [x] and, when several have [k] digits, engines take the
    one nearest to [x]; the text is then laid out by [n] and [k]. *)

(** The least [j] from [j0] on with [den <= num * 10^(j - j0)]. *)
Fixpoint scaleUp (fuel : nat) (num den j : Z) : Z :=
  if (den <=? num)%Z then j
  else match fuel with
       | O => j
       | S fuel' => scaleUp fuel' (10 * num) den (j + 1)
       end.

(** The [n] with [10^(n-1) <= num / den < 10^n]; the least double is above
    [10^-324]. *)
Definition magnitude (num den : Z) : Z :=
  if (den <=? num)%Z
  then Z.of_nat (length (decimal (Z.to_N (num / den))))
  else (1 - scaleUp 400 num den 0)%Z.

(** The decimal of [k] digits for the double [x = num / den], if one rounds
    to [x]: of the two [k]-digit decimals around [x], one that rounds to [x];
    the nearer when both do, the even one when they are as near. *)
Definition digitsAt (x : spec_float) (num den n k : Z) : option number :=
  let num' := (num * 10 ^ Z.max (k - n) 0)%Z in
  let den' := (den * 10 ^ Z.max (n - k) 0)%Z in
  let below := (num' / den')%Z in
  let r := (num' mod den')%Z in
  let decimalOf s := {| negative := false; significand := Z.to_N s;
                        exponent := n - k |} in
  let fits s := SFeqb (toDouble (decimalOf s)) x in
  let lower := fits below in
  let upper := fits (below + 1)%Z in
  let preferLower :=
    match (2 * r ?= den')%Z with
    | Lt => true
    | Eq => Z.even below
    | Gt => false
    end in
  if lower && (preferLower || negb upper) then Some (decimalOf below)
  else if upper then Some (decimalOf (below + 1)%Z)
  else None.

(** The fewest digits first; seventeen always do. *)
Fixpoint shortestFrom (fuel : nat) (x : spec_float) (num den n k : Z) : number :=
  match digitsAt x num den n k with
  | Some d => d
  | None =>
      match fuel with
      | O => {| negative := false; significand := Z.to_N (num / den); exponent := 0 |}
      | S fuel' => shortestFrom fuel' x num den n (k + 1)
      end
  end.

Definition shortest (m : positive) (e : Z) : number :=
  let num := (Zpos m * 2 ^ Z.max e 0)%Z in
  let den := (2 ^ Z.max (- e) 0)%Z in
  shortestFrom 17 (S754_finite false m e) num den (magnitude num den) 1.

Fixpoint stripZeros (ds : jsstring) : jsstring :=
  match ds with
  | c :: t => if N.eqb c 48 then stripZeros t else ds
  | [] => []
  end.

Definition zeros (n : nat) : jsstring := repeat 48%N n.

(** The four layouts of the standard for the decimal [s * 10^e], [s > 0]:
    with [k] the number of digits of [s] once its trailing zeros are moved
    into the exponent, and [n = k + e]. *)
Definition layout (x : number) : jsstring :=
  let all := decimal (significand x) in
  let ds := rev (stripZeros (rev all)) in
  let k := Z.of_nat (length ds) in
  let e := (exponent x + Z.of_nat (length all - length ds))%Z in
  let n := (k + e)%Z in
  if (k <=? n)%Z && (n <=? 21)%Z then ds ++ zeros (Z.to_nat (n - k))
  else if (0 <? n)%Z && (n <=? 21)%Z
  then firstn (Z.to_nat n) ds ++ lit "." ++ skipn (Z.to_nat n) ds
  else if (-6 <? n)%Z && (n <=? 0)%Z
  then lit "0." ++ zeros (Z.to_nat (- n)) ++ ds
  else
    let expo := (if (0 <=? n - 1)%Z then lit "+" else lit "-")
                ++ decimal (Z.abs_N (n - 1)) in
    match ds with
    | [d] => [d] ++ lit "e" ++ expo
    | d :: more => [d] ++ lit "." ++ more ++ lit "e" ++ expo
    | [] => []
    end.

Definition numberToString (x : spec_float) : jsstring :=
  match x with
  | S754_nan => lit "NaN"
  | S754_zero _ => lit "0"
  | S754_infinity s => (if s then lit "-" else []) ++ lit "Infinity"
  | S754_finite s m e => (if s then lit "-" else []) ++ layout (shortest m e)
  end.

(** QuoteJSONString (25.5.2.3) *)
Definition hexDigit (n : N) : char16 :=
  if N.ltb n 10 then (48 + n)%N else (87 + n)%N.

Definition unicodeEscape (c : char16) : jsstring :=
  [92; 117; hexDigit (c / 4096 mod 16); hexDigit (c / 256 mod 16);
   hexDigit (c / 16 mod 16); hexDigit (c mod 16)]%N.

Definition isLeadingSurrogate (c : char16) : bool := N.leb 55296 c && N.leb c 56319.
Definition isTrailingSurrogate (c : char16) : bool := N.leb 56320 c && N.leb c 57343.

Definition quoteUnit (c : char16) : jsstring :=
  if N.eqb c 8 then [92; 98]%N
  else if N.eqb c 9 then [92; 116]%N
  else if N.eqb c 10 then [92; 110]%N
  else if N.eqb c 12 then [92; 102]%N
  else if N.eqb c 13 then [92; 114]%N
  else if N.eqb c 34 then [92; 34]%N
  else if N.eqb c 92 then [92; 92]%N
  else if N.ltb c 32 || isLeadingSurrogate c || isTrailingSurrogate c
  then unicodeEscape c
  else [c].

Fixpoint quoteBody (s : jsstring) : jsstring :=
  match s with
  | [] => []
  | c :: t =>
      match t with
      | d :: t' =>
          if isLeadingSurrogate c && isTrailingSurrogate d
          then c :: d :: quoteBody t'
          else quoteUnit c ++ quoteBody t
      | [] => quoteUnit c
      end
  end.

Definition quote (s : jsstring) : jsstring := [34%N] ++ quoteBody s ++ [34%N].

Fixpoint join (sep : jsstring) (parts : list jsstring) : jsstring :=
  match parts with
  | [] => []
  | [p] => p
  | p :: more => p ++ sep ++ join sep more
  end.

(** SerializeJSONProperty / SerializeJSONObject / SerializeJSONArray for a
    value that came out of [parse]: no [toJSON], no [undefined], no cycle. *)
Definition wrap (gap indent stepback opening closing : jsstring) (parts : list jsstring)
  : jsstring :=
  match parts with
  | [] => opening ++ closing
  | _ :: _ =>
      if nonEmpty gap
      then opening ++ LF ++ indent ++ join (lit "," ++ LF ++ indent) parts
           ++ LF ++ stepback ++ closing
      else opening ++ join (lit ",") parts ++ closing
  end.

Fixpoint serialize (gap indent : jsstring) (v : json) {struct v} : jsstring :=
  match v with
  | JNull => lit "null"
  | JBool true => lit "true"
  | JBool false => lit "false"
  | JNumber x => if isFinite x then numberToString x else lit "null"
  | JString s => quote s
  | JArray items =>
      wrap gap (indent ++ gap) indent (lit "[") (lit "]")
        (map (serialize gap (indent ++ gap)) items)
  | JObject props =>
      wrap gap (indent ++ gap) indent (lit "{") (lit "}")
        (map (fun kv => quote (fst kv) ++ lit ":"
                        ++ (if nonEmpty gap then lit " " else [])
                        ++ serialize gap (indent ++ gap) (snd kv)) props)
  end.

(** [JSON.stringify(value)] and [JSON.stringify(value, null, 2)] *)
Definition stringify (v : json) : jsstring := serialize [] [] v.
Definition stringify2 (v : json) : jsstring := serialize (lit "  ") [] v.

End JSON.

(** ToString, for a value inside a template literal. *)
Fixpoint ToString_json (v : json) : jsstring :=
  match v with
  | JNull => lit "null"
  | JBool true => lit "true"
  | JBool false => lit "false"
  | JNumber x => JSON.numberToString x
  | JString s => s
  | JArray items =>
      (* Array.prototype.join: null elements give the empty string *)
      (fix joined (l : list json) : jsstring :=
         match l with
         | [] => []
         | x :: more =>
             (match x with JNull => [] | _ => ToString_json x end)
             ++ match more with [] => [] | _ :: _ => lit "," ++ joined more end
         end) items
  | JObject _ => lit "[object Object]"
  end.

Definition ToString (v : jsval) : jsstring :=
  match v with
  | Undefined => lit "undefined"
  | Val j => ToString_json j
  end.


(** [s.match(re)] *)
Definition match_ (s : jsstring) (re : RegExp.regex) : option RegExp.MatchResult :=
  RegExp.exec_from re s 0.

(** ** Buffers and UTF-8 *)

(** U+FFFD, which stands for bytes that are not UTF-8. *)
Definition replacement : char16 := 65533%N.

(** The code units of a code point. *)
Definition unitsOf (cp : N) : jsstring :=
  (if cp <? 65536 then [cp]
   else [55296 + (cp - 65536) / 1024; 56320 + (cp - 65536) mod 1024])%N.

Definition isContinuation (b : N) : bool := ((128 <=? b) && (b <=? 191))%N.

(** The UTF-8 decoder, on byte values: a byte that cannot start or continue a
    sequence gives U+FFFD and decoding goes on with the next byte; so does a
    sequence cut short, also by the end of the input. *)
Fixpoint utf8Decode (bs : list N) : jsstring :=
  match bs with
  | [] => []
  | b0 :: r0 =>
      if (b0 <? 128)%N then b0 :: utf8Decode r0
      else if ((194 <=? b0) && (b0 <=? 223))%N then
        match r0 with
        | b1 :: r1 =>
            if isContinuation b1
            then ((b0 - 192) * 64 + (b1 - 128))%N :: utf8Decode r1
            else replacement :: utf8Decode r0
        | [] => [replacement]
        end
      else if ((224 <=? b0) && (b0 <=? 239))%N then
        match r0 with
        | b1 :: r1 =>
            if (((if b0 =? 224 then 160 else 128) <=? b1)
                && (b1 <=? (if b0 =? 237 then 159 else 191)))%N
            then match r1 with
                 | b2 :: r2 =>
                     if isContinuation b2
                     then ((b0 - 224) * 4096 + (b1 - 128) * 64 + (b2 - 128))%N
                          :: utf8Decode r2
                     else replacement :: utf8Decode r1
                 | [] => [replacement]
                 end
            else replacement :: utf8Decode r0
        | [] => [replacement]
        end
      else if ((240 <=? b0) && (b0 <=? 244))%N then
        match r0 with
        | b1 :: r1 =>
            if (((if b0 =? 240 then 144 else 128) <=? b1)
                && (b1 <=? (if b0 =? 244 then 143 else 191)))%N
            then match r1 with
                 | b2 :: r2 =>
                     if isContinuation b2
                     then match r2 with
                          | b3 :: r3 =>
                              if isContinuation b3
                              then unitsOf ((b0 - 240) * 262144 + (b1 - 128) * 4096
                                            + (b2 - 128) * 64 + (b3 - 128))%N
                                   ++ utf8Decode r3
                              else replacement :: utf8Decode r2
                          | [] => [replacement]
                          end
                     else replacement :: utf8Decode r1
                 | [] => [replacement]
                 end
            else replacement :: utf8Decode r0
        | [] => [replacement]
        end
      else replacement :: utf8Decode r0
  end.

(** [buffer.toString()], which is [buffer.toString('utf8')]. *)
Definition toString (buffer : list Byte.byte) : jsstring :=
  utf8Decode (map Byte.to_N buffer).

(** The UTF-8 bytes of a code point. *)
Definition bytesOf (cp : N) : list N :=
  (if cp <? 128 then [cp]
   else if cp <? 2048 then [192 + cp / 64; 128 + cp mod 64]
   else if cp <? 65536
   then [224 + cp / 4096; 128 + (cp / 64) mod 64; 128 + cp mod 64]
   else [240 + cp / 262144; 128 + (cp / 4096) mod 64; 128 + (cp / 64) mod 64;
         128 + cp mod 64])%N.

(** The UTF-8 encoder, on code units: a surrogate pair is one code point, a
    surrogate on its own is written as U+FFFD. *)
Fixpoint utf8Encode (s : jsstring) : list N :=
  match s with
  | [] => []
  | c :: t =>
      if JSON.isLeadingSurrogate c then
        match t with
        | d :: t' =>
            if JSON.isTrailingSurrogate d
            then bytesOf (65536 + (c - 55296) * 1024 + (d - 56320))%N
                 ++ utf8Encode t'
            else bytesOf replacement ++ utf8Encode t
        | [] => bytesOf replacement
        end
      else if JSON.isTrailingSurrogate c then bytesOf replacement ++ utf8Encode t
      else bytesOf c ++ utf8Encode t
  end.

Definition byteOf (n : N) : Byte.byte :=
  match Byte.of_N n with
  | Some b => b
  | None => Byte.x00
  end.

(** [Buffer.from(text)]: the bytes a peer writes for a text. *)
Definition bufferFrom (text : jsstring) : list Byte.byte :=
  map byteOf (utf8Encode text).

(** No surrogate stands on its own. *)
Fixpoint wellFormed (s : jsstring) : bool :=
  match s with
  | [] => true
  | c :: t =>
      if JSON.isLeadingSurrogate c then
        match t with
        | d :: t' => JSON.isTrailingSurrogate d && wellFormed t'
        | [] => false
        end
      else negb (JSON.isTrailingSurrogate c) && wellFormed t
  end.

(** ** Reading reply shapes

    What the stream parser and the backend call need on top of [Get]:
    optional chaining, the element at index 0, [!== undefined], [slice] and
    [split].  As for [Get], the property names read this way ([choices],
    [delta], [message], [content], [response], [error]) are defined by no
    built-in prototype. *)

(** [v !== undefined] *)
Definition isDefined (v : jsval) : bool :=
  match v with
  | Undefined => false
  | Val _ => true
  end.

(** [v?.k]: [undefined] when [v] is [null] or [undefined], else [v.k]. *)
Definition optGet (v : jsval) (k : jsstring) : jsval :=
  match v with
  | Undefined => Undefined
  | Val JNull => Undefined
  | Val v' => field v' k
  end.

(** [v?.[0]]: the first element of an array, the first code unit of a string
    (as a string), the own property ["0"] of an object. *)
Definition optIndex0 (v : jsval) : jsval :=
  match v with
  | Undefined => Undefined
  | Val JNull => Undefined
  | Val (JArray items) =>
      match items with
      | x :: _ => Val x
      | [] => Undefined
      end
  | Val (JString s) =>
      match s with
      | c :: _ => Val (JString [c])
      | [] => Undefined
      end
  | Val (JObject props) => lookup props (lit "0")
  | Val _ => Undefined
  end.

(** [s.slice(n)] for a non-negative [n] *)
Definition slice (s : jsstring) (n : nat) : jsstring := skipn n s.

(** [s.split('\n')]: the pieces between line feeds, at least one. *)
Fixpoint splitLines (s : jsstring) : list jsstring :=
  match s with
  | [] => [[]]
  | c :: t =>
      if N.eqb c 10 then [] :: splitLines t
      else match splitLines t with
           | l :: ls => (c :: l) :: ls
           | [] => [[c]]
           end
  end.

(** [try { c } catch { }] around a block that either returns a value
    ([Some]) or runs to its end ([None]). *)
Definition swallow {A} (c : completion (option A)) : option A :=
  match c with
  | Normal r => r
  | Throw _ => None
  end.

End JS.

Import JS.
Local Open Scope js_scope.

(* ================================================================== *)
(** * Data model (types.ts)

    The interfaces file is not among the sources; the records below follow
    the fields the code reads and writes. *)
(* ================================================================== *)

(** [ToolCall.function].  The interface types [name] as a string; the
    extractor stores whatever value the parsed text holds there. *)
Record FunctionCall := {
  fn_name : jsval;
  fn_arguments : jsstring
}.

Record ToolCall := {
  tc_id : jsstring;
  tc_type : jsstring;
  tc_function : FunctionCall
}.

Record FunctionDef := {
  fd_name : jsstring;
  fd_description : jsstring;
  fd_parameters : option json
}.

Record Tool := {
  tool_type : jsstring;
  tool_function : FunctionDef
}.

Inductive Role := system | user | assistant | tool.

Definition Role_eqb (a b : Role) : bool :=
  match a, b with
  | system, system | user, user | assistant, assistant | tool, tool => true
  | _, _ => false
  end.

Record Message := {
  msg_role : Role;
  msg_content : option jsstring;                 (* text or null *)
  msg_tool_calls : option (list ToolCall);
  msg_tool_call_id : option jsstring;
  msg_name : option jsstring
}.

(** [{ role, content }] *)
Definition plainMessage (r : Role) (c : jsstring) : Message :=
  {| msg_role := r; msg_content := Some c; msg_tool_calls := None;
     msg_tool_call_id := None; msg_name := None |}.

(** [s || ''] for a possibly-null string *)
Definition orEmpty (s : option jsstring) : jsstring :=
  match s with
  | Some t => t
  | None => []
  end.

(** [s || d] for a possibly-missing string *)
Definition orDefault (s : option jsstring) (d : jsstring) : jsstring :=
  if truthyStr s then orEmpty s else d.

(** What [Date.now()] and [Math.random().toString(36).substr(2, 9)] give when
    a call id is made. *)
Record Entropy := {
  Date_now : N;
  random36 : jsstring
}.

(* ================================================================== *)
(** * ToolConverter (tool-converter.ts) *)
(* ================================================================== *)

Module ToolConverter.

Import RegExp.

Definition lines (ls : list jsstring) : jsstring := JSON.join LF ls.

(** The closing template literal of [convertToolsToSystemPrompt]. *)
Definition formatInstructions : jsstring :=
  lines [
    lit "To use a function, you MUST respond with ONLY a valid JSON object in the following format, with no additional text, markdown formatting, or code blocks:";
    lit "follow this format:";
    lit "{";
    jq "  'function_call': {";
    jq "    'name': 'function_name',";
    jq "    'arguments': {";
    jq "      'param1': 'value1',";
    jq "      'param2': 'value2'";
    lit "    }";
    lit "  }";
    lit "}";
    lit "";
    lit "IMPORTANT: ";
    lit "- Output ONLY the raw JSON object, only contains function_call, name, arguments, and parameters required, no additional properties.";
    lit "- Do NOT wrap the JSON in code blocks (no ```)";
    lit "- Do NOT include any explanatory text before or after the JSON";
    lit "- Ensure the JSON is valid and properly formatted";
    lit "- Ensure only JSON is returned, no additional text before or after json.";
    lit "- After receiving the function result, you can continue the conversation normally";
    lit "check with user prompt with functions above, if above function can be used solve user question, response with pure json follow function example.";
    lit "If you don't need to use a function, just respond normally without JSON."
  ].

(** The body of [tools.forEach]: what one tool adds to the prompt. *)
Definition describeTool (prompt : jsstring) (t : Tool) : jsstring :=
  let f := tool_function t in
  let prompt := prompt ++ lit "Function: " ++ fd_name f ++ LF in
  let prompt := prompt ++ lit "Description: " ++ fd_description f ++ LF in
  let prompt :=
    match fd_parameters f with
    | Some p =>
        if truthy (Val p)
        then prompt ++ lit "Parameters: " ++ JSON.stringify2 p ++ LF
        else prompt
    | None => prompt
    end in
  prompt ++ LF.

(** [tools] may be [null] or [undefined] at run time: [None]. *)
Definition convertToolsToSystemPrompt (tools : option (list Tool)) : jsstring :=
  match tools with
  | None => []
  | Some [] => []
  | Some ts =>
      let prompt :=
        lit "You are a helpful assistant. You can help me by answering my questions. You can also ask me questions."
        ++ LF ++ LF in
      let prompt :=
        prompt ++ lit "here are list of functions start with <<< end with >>>:"
        ++ LF ++ lit "<<<" ++ LF in
      let prompt := fold_left describeTool ts prompt in
      let prompt := prompt ++ lit ">>>" ++ LF in
      prompt ++ formatInstructions
  end.

(** *** The brace scan of [extractToolCallFromResponse] *)

Record scanState := {
  braceCount : Z;
  startIdx : Z;
  endIdx : Z;
  jsonContent : option jsstring
}.

(** One turn of [for (let i = 0; i < response.length; i++)] on
    [c = response[i]]; the flag tells whether the turn ended in [break]. *)
Definition scanStep (response : jsstring) (i : Z) (c : char16) (st : scanState)
  : scanState * bool :=
  if N.eqb c 123 then
    let startIdx' := if (startIdx st =? -1)%Z then i else startIdx st in
    ({| braceCount := braceCount st + 1; startIdx := startIdx';
        endIdx := endIdx st; jsonContent := jsonContent st |}, false)
  else if N.eqb c 125 then
    let braceCount' := (braceCount st - 1)%Z in
    if (braceCount' =? 0)%Z && negb (startIdx st =? -1)%Z then
      let endIdx' := (i + 1)%Z in
      let potentialJson := substring response (startIdx st) endIdx' in
      if includes potentialJson (lit "function_call")
      then ({| braceCount := braceCount'; startIdx := startIdx st;
               endIdx := endIdx'; jsonContent := Some potentialJson |}, true)
      else ({| braceCount := braceCount'; startIdx := startIdx st;
               endIdx := endIdx'; jsonContent := jsonContent st |}, false)
    else
      ({| braceCount := braceCount'; startIdx := startIdx st;
          endIdx := endIdx st; jsonContent := jsonContent st |}, false)
  else (st, false).

(** The loop from index [i] on, [todo] being [response] from [i]. *)
Fixpoint scanLoop (response : jsstring) (i : Z) (todo : jsstring) (st : scanState)
  : scanState :=
  match todo with
  | [] => st
  | c :: more =>
      let (st', stop) := scanStep response i c st in
      if stop then st' else scanLoop response (i + 1) more st'
  end.

Definition braceScan (response : jsstring) : option jsstring :=
  jsonContent
    (scanLoop response 0 response
       {| braceCount := 0; startIdx := -1; endIdx := -1; jsonContent := None |}).

(** *** The patterns *)

Definition seq (rs : list node) : node := fold_right Seq Empty rs.

Definition fence : node := Lit (lit "```").

(** [/```\s*json\s*([\s\S]*?)```/i] *)
Definition jsonBlockPattern : regex :=
  {| pattern := seq [fence; Star true ws; Lit (lit "json"); Star true ws;
                     Group 1 (Star false any); fence];
     ignoreCase := true |}.

(** [/```\s*([\s\S]*?)```/] *)
Definition plainBlockPattern : regex :=
  {| pattern := seq [fence; Star true ws; Group 1 (Star false any); fence];
     ignoreCase := false |}.

Definition codeBlockPatterns : list regex := [jsonBlockPattern; plainBlockPattern].

(** [/```[\s\S]*?```/] *)
Definition codeBlockRegex : regex :=
  {| pattern := seq [fence; Star false any; fence]; ignoreCase := false |}.

(** [/\{[\s\S]*?"function_call"[\s\S]*?\}/] *)
Definition rawJsonRegex : regex :=
  {| pattern := seq [Char 123%N; Star false any; Lit (jq "'function_call'");
                     Star false any; Char 125%N];
     ignoreCase := false |}.

(** [for (const pattern of codeBlockPatterns)]: the first pattern that
    matches gives [match[1].trim()]. *)
Fixpoint codeBlockContent (response : jsstring) (patterns : list regex)
  : option jsstring :=
  match patterns with
  | [] => None
  | p :: more =>
      match match_ response p with
      | Some mt => Some (trim (group mt 1))
      | None => codeBlockContent response more
      end
  end.

(** *** The extractor *)

Definition sentinel1 : jsstring := lit "I need to call a function.".
Definition sentinel2 : jsstring := lit "I need to call a function".

(** The candidate text the extractor settles on, if any: the whole trimmed
    response when it starts with "{" and ends with "}", else the result of the
    brace scan, else a code block's inside. *)
Definition selectCandidate (response : jsstring) : option jsstring :=
  let trimmedResponse := trim response in
  let jsonContent :=
    if startsWith trimmedResponse (lit "{") && endsWith trimmedResponse (lit "}")
    then Some trimmedResponse
    else braceScan response in
  if negb (truthyStr jsonContent)
  then codeBlockContent response codeBlockPatterns
  else jsonContent.

(** [`call_${Date.now()}_${Math.random().toString(36).substr(2, 9)}`] *)
Definition freshId (e : Entropy) : jsstring :=
  lit "call_" ++ decimal (Date_now e) ++ lit "_" ++ random36 e.

(** [args || {}] *)
Definition orEmptyObject (args : jsval) : json :=
  match or_ args (Val (JObject [])) with
  | Val v => v
  | Undefined => JObject []
  end.

(** The [try] block: [Normal (Some call)] is its [return], [Normal None] is
    falling out of its [if]. *)
Definition validate (e : Entropy) (jsonContent : jsstring)
  : completion (option ToolCall) :=
  parsed <- JSON.parse jsonContent ;;
  function_call <- Get (Val parsed) (lit "function_call") ;;
  guard <- (if truthy function_call then Get function_call (lit "name")
            else Normal function_call) ;;
  if truthy guard then
    name <- Get function_call (lit "name") ;;
    args <- Get function_call (lit "arguments") ;;
    Normal (Some {| tc_id := freshId e;
                    tc_type := lit "function";
                    tc_function :=
                      {| fn_name := name;
                         fn_arguments := JSON.stringify (orEmptyObject args) |} |})
  else Normal None.

Definition extractToolCallFromResponse (e : Entropy) (response : jsstring)
  : completion (option ToolCall) :=
  let trimmedResponse := trim response in
  if string_eqb trimmedResponse sentinel1 || string_eqb trimmedResponse sentinel2
  then Normal None
  else
    let jsonContent := selectCandidate response in
    if negb (truthyStr jsonContent) then Normal None
    else
      (* catch (error): two console.error calls, then on to [return null] *)
      try_catch (validate e (orEmpty jsonContent)) (fun _ => Normal None).

Definition convertToolMessageToUserMessage (toolMessage : Message) : Message :=
  let functionName := orDefault (msg_name toolMessage) (lit "tool") in
  plainMessage user
    (jq "Function '" ++ functionName ++ jq "' returned: "
     ++ orEmpty (msg_content toolMessage)).

Definition isJustMention (response : jsstring) : bool :=
  string_eqb (trim response) sentinel1 || string_eqb (trim response) sentinel2.

Definition shouldAttemptToolExtraction (response : jsstring) : bool :=
  let hasFunctionCall := includes response (lit "function_call") in
  let hasNameField :=
    includes response (jq "'name'") && includes response (jq "'arguments'") in
  (hasFunctionCall || hasNameField) && negb (isJustMention response).

Definition extractTextBeforeToolCall (response : jsstring) : jsstring :=
  match match_ response codeBlockRegex with
  | Some mt => trim (substring response 0 (Z.of_nat (index mt)))
  | None =>
      match match_ response rawJsonRegex with
      | Some jsonMatch => trim (substring response 0 (Z.of_nat (index jsonMatch)))
      | None => response
      end
  end.

Definition extractTextAfterToolCall (response : jsstring) : jsstring :=
  match match_ response codeBlockRegex with
  | Some mt =>
      let endIndex := (index mt + length (matched mt))%nat in
      trim (substring_from response (Z.of_nat endIndex))
  | None => []
  end.

(** [typeof result === 'string' ? result : JSON.stringify(result)];
    [JSON.stringify(undefined)] is [undefined]. *)
Definition resultText (result : jsval) : option jsstring :=
  match result with
  | Val (JString s) => Some s
  | Val v => Some (JSON.stringify v)
  | Undefined => None
  end.

Definition formatToolResponse (toolCallId functionName : jsstring) (result : jsval)
  : Message :=
  {| msg_role := tool;
     msg_content := resultText result;
     msg_tool_call_id := Some toolCallId;
     msg_name := Some functionName;
     msg_tool_calls := None |}.

(** [textBefore] is an optional parameter. *)
Definition createToolCallMessage (toolCall : ToolCall) (textBefore : option jsstring)
  : Message :=
  {| msg_role := assistant;
     msg_content := Some (orDefault textBefore []);
     msg_tool_calls := Some [toolCall];
     msg_tool_call_id := None;
     msg_name := None |}.

End ToolConverter.

(* ================================================================== *)
(** * ProxyHandler (proxy-handler.ts) *)
(* ================================================================== *)

Module ProxyHandler.

Record ProxyConfig := {
  targetApiUrl : jsstring;
  targetModel : jsstring;
  apiKey : option jsstring;
  maxRounds : option Z
}.

Record ChatCompletionRequest := {
  model : jsstring;
  messages : list Message;
  tools : option (list Tool)
}.

(** [choices[0]] of a ChatCompletionResponse; [object], [created], [index]
    and [usage] are constants or clock readings and are left out. *)
Record ChatCompletionResponse := {
  resp_id : jsstring;
  resp_model : jsstring;
  resp_content : option jsstring;
  resp_tool_calls : option (list ToolCall);
  resp_finish_reason : jsstring
}.

Inductive Delta :=
| DeltaEmpty                                   (* {} *)
| DeltaContent (content : jsstring)            (* { content } *)
| DeltaToolCalls (calls : list ToolCall).      (* { tool_calls: [...] } *)

(** [choices[0]] of a StreamChunk, with the same fields left out. *)
Record StreamChunk := {
  chunk_id : jsstring;
  chunk_model : jsstring;
  delta : Delta;
  finish_reason : option jsstring
}.

(** The methods of [this.toolConverter] that the handler calls. *)
Record Converter := {
  convertToolsToSystemPrompt : option (list Tool) -> jsstring;
  extractToolCallFromResponse : jsstring -> completion (option ToolCall);
  extractTextBeforeToolCall : jsstring -> jsstring;
  convertToolMessageToUserMessage : Message -> Message
}.

(** [new ToolConverter()] *)
Definition newToolConverter (e : Entropy) : Converter :=
  {| convertToolsToSystemPrompt := ToolConverter.convertToolsToSystemPrompt;
     extractToolCallFromResponse := ToolConverter.extractToolCallFromResponse e;
     extractTextBeforeToolCall := ToolConverter.extractTextBeforeToolCall;
     convertToolMessageToUserMessage := ToolConverter.convertToolMessageToUserMessage |}.

(** The handler object.  The executor, the stream parser and the logger it
    also holds do not take part in what follows. *)
Record ProxyHandler := {
  toolConverter : Converter;
  config : ProxyConfig
}.

(** [config.maxRounds || 10] *)
Definition maxRoundsOrDefault (m : option Z) : Z :=
  match m with
  | Some n => if (n =? 0)%Z then 10%Z else n
  | None => 10%Z
  end.

(** [constructor(config, logger)] *)
Definition new (cfg : ProxyConfig) (e : Entropy) : ProxyHandler :=
  {| toolConverter := newToolConverter e;
     config := {| targetApiUrl := targetApiUrl cfg;
                  targetModel := targetModel cfg;
                  apiKey := apiKey cfg;
                  maxRounds := Some (maxRoundsOrDefault (maxRounds cfg)) |} |}.

(** The text stream of the backend: the deltas it yields, and the error it
    ends with when it does not end normally. *)
Record Stream := {
  deltas : list jsstring;
  failure : option JSError
}.

(** The collaborators of one request: the id generator and the two private
    methods that talk to the backend over the network. *)
Record Backend := {
  uuidv4 : jsstring;
  callTargetLLM :
    list Message -> ChatCompletionRequest -> list Tool -> jsstring -> completion jsstring;
  streamTargetLLM :
    list Message -> ChatCompletionRequest -> jsstring -> Stream
}.

(** *** Loops

    [while (cond) { body }] over a state [S], for a body that either falls
    off its end ([Next]) or leaves the function by [return] or [throw]
    ([Exit]).  [None] is running out of [fuel]; [Some (s, None)] is the
    condition turning false. *)
Section While.
Variables S R : Type.

Inductive flow :=
| Next (s : S)
| Exit (s : S) (r : R).

Fixpoint while (fuel : nat) (cond : S -> bool) (body : S -> flow) (s : S)
  : option (S * option R) :=
  match fuel with
  | O => None
  | Datatypes.S fuel' =>
      if cond s then
        match body s with
        | Next s' => while fuel' cond body s'
        | Exit s' r => Some (s', Some r)
        end
      else Some (s, None)
  end.
End While.

Arguments Next {S R} s.
Arguments Exit {S R} s r.

(** The locals a round can change, and the requests that went out. *)
Record LoopState := {
  round : Z;
  sent : list (list Message)
}.

(** [round < this.config.maxRounds!]; a comparison with [undefined] is false. *)
Definition underLimit (this : ProxyHandler) (st : LoopState) : bool :=
  match maxRounds (config this) with
  | Some n => (round st <? n)%Z
  | None => false
  end.

Definition decimalZ (z : Z) : jsstring :=
  match z with
  | Zneg _ => lit "-" ++ decimal (Z.abs_N z)
  | _ => decimal (Z.abs_N z)
  end.

(** [new Error(`Maximum conversation rounds (${this.config.maxRounds}) exceeded`)] *)
Definition roundLimitExceeded (this : ProxyHandler) : JSError :=
  Error (lit "Maximum conversation rounds ("
         ++ match maxRounds (config this) with
            | Some n => decimalZ n
            | None => lit "undefined"
            end
         ++ lit ") exceeded").

(** *** Messages *)

Definition isTool (m : Message) : bool := Role_eqb (msg_role m) tool.
Definition isSystem (m : Message) : bool := Role_eqb (msg_role m) system.

(** [systemMessage.content = `${systemMessage.content || ''}\n\n${toolPrompt}`]
    on the first system message, if there is one. *)
Fixpoint amendFirstSystem (msgs : list Message) (toolPrompt : jsstring)
  : option (list Message) :=
  match msgs with
  | [] => None
  | m :: more =>
      if isSystem m
      then Some ({| msg_role := msg_role m;
                    msg_content :=
                      Some (orEmpty (msg_content m) ++ LF ++ LF ++ toolPrompt);
                    msg_tool_calls := msg_tool_calls m;
                    msg_tool_call_id := msg_tool_call_id m;
                    msg_name := msg_name m |} :: more)
      else match amendFirstSystem more toolPrompt with
           | Some more' => Some (m :: more')
           | None => None
           end
  end.

(** [injectToolSystemPrompt(messages, toolPrompt)].  The array it is given
    holds the very objects of [request.messages], so amending the system
    message in place shows in the request as well: the second component is
    [request.messages] after the call. *)
Definition injectToolSystemPrompt (msgs : list Message) (toolPrompt : jsstring)
  : list Message * list Message :=
  match amendFirstSystem msgs toolPrompt with
  | Some msgs' => (msgs', msgs')
  | None => (plainMessage system toolPrompt :: msgs, msgs)
  end.

(** [`Calling function: ${msg.tool_calls[0].function.name}`] *)
Definition callingFunction (calls : list ToolCall) : completion jsstring :=
  match calls with
  | c :: _ => Normal (lit "Calling function: " ++ ToString (fn_name (tc_function c)))
  | [] => Throw TypeError
  end.

Definition prepareMessage (this : ProxyHandler) (msg : Message) : completion Message :=
  if isTool msg then Normal (convertToolMessageToUserMessage (toolConverter this) msg)
  else
    match msg_tool_calls msg with
    | Some calls =>
        if truthyStr (msg_content msg)
        then Normal (plainMessage (msg_role msg) (orEmpty (msg_content msg)))
        else text <- callingFunction calls ;;
             Normal (plainMessage (msg_role msg) text)
    | None => Normal (plainMessage (msg_role msg) (orEmpty (msg_content msg)))
    end.

(** [messages.map(msg => ...)] *)
Fixpoint prepareMessagesForTarget (this : ProxyHandler) (msgs : list Message)
  : completion (list Message) :=
  match msgs with
  | [] => Normal []
  | msg :: more =>
      m' <- prepareMessage this msg ;;
      more' <- prepareMessagesForTarget this more ;;
      Normal (m' :: more')
  end.

(** *** Responses *)

Definition createCompletionResponse (id content mdl : jsstring) : ChatCompletionResponse :=
  {| resp_id := id; resp_model := mdl; resp_content := Some content;
     resp_tool_calls := None; resp_finish_reason := lit "stop" |}.

Definition createToolCallResponse (id : jsstring) (toolCall : ToolCall)
  (textBefore mdl : jsstring) : ChatCompletionResponse :=
  {| resp_id := id; resp_model := mdl;
     resp_content := if nonEmpty textBefore then Some textBefore else None;
     resp_tool_calls := Some [toolCall];
     resp_finish_reason := lit "tool_calls" |}.

Definition createStreamChunk (id content mdl : jsstring) (finishReason : option jsstring)
  : StreamChunk :=
  {| chunk_id := id; chunk_model := mdl;
     delta := if nonEmpty content then DeltaContent content else DeltaEmpty;
     finish_reason := finishReason |}.

Definition createToolCallStreamChunk (id : jsstring) (toolCall : ToolCall) (mdl : jsstring)
  : StreamChunk :=
  {| chunk_id := id; chunk_model := mdl;
     delta := DeltaToolCalls [toolCall];
     finish_reason := None |}.

(** [textBefore && textBefore.trim()] *)
Definition meaningful (textBefore : jsstring) : bool :=
  nonEmpty textBefore && nonEmpty (trim textBefore).

(** *** The start of both handlers: the locals before the loop *)

Record Setup := {
  conversationId : jsstring;
  localMessages : list Message;          (* [messages] *)
  requestMessages : list Message;        (* [request.messages] afterwards *)
  localTools : list Tool;                (* [tools] *)
  hasToolResponse : bool;
  shouldInjectTools : bool
}.

Definition setup (this : ProxyHandler) (b : Backend) (request : ChatCompletionRequest)
  : Setup :=
  let conversationId := uuidv4 b in
  let msgs := messages request in
  let tls := match tools request with Some t => t | None => [] end in
  let hasToolResponse := existsb isTool msgs in
  let shouldInjectTools := (0 <? length tls)%nat && negb hasToolResponse in
  let injected :=
    if shouldInjectTools
    then injectToolSystemPrompt msgs
           (convertToolsToSystemPrompt (toolConverter this) (Some tls))
    else (msgs, msgs) in
  {| conversationId := conversationId;
     localMessages := fst injected;
     requestMessages := snd injected;
     localTools := tls;
     hasToolResponse := hasToolResponse;
     shouldInjectTools := shouldInjectTools |}.

(** *** handleRequest *)

(** What a handler leaves behind: its locals at exit, [request.messages] as
    the caller now sees them, and the value or generator run it produced. *)
Record Outcome (R : Type) := {
  locals : LoopState;
  request_after : list Message;
  result : R
}.

(** What a round of [handleRequest] does with the backend's reply. *)
Definition answer (this : ProxyHandler) (request : ChatCompletionRequest)
  (su : Setup) (response : jsstring) : completion ChatCompletionResponse :=
  if negb (hasToolResponse su) then
    toolCall <- extractToolCallFromResponse (toolConverter this) response ;;
    match toolCall with
    | Some call =>
        let textBefore := extractTextBeforeToolCall (toolConverter this) response in
        let meaningfulText := if meaningful textBefore then textBefore else [] in
        Normal (createToolCallResponse (conversationId su) call meaningfulText
                  (model request))
    | None =>
        Normal (createCompletionResponse (conversationId su) response (model request))
    end
  else Normal (createCompletionResponse (conversationId su) response (model request)).

(** The body of the [while] of [handleRequest]: every path ends in [return],
    or in a [throw] out of a call. *)
Definition requestRound (this : ProxyHandler) (b : Backend)
  (request : ChatCompletionRequest) (su : Setup) (st : LoopState)
  : flow LoopState (completion ChatCompletionResponse) :=
  match prepareMessagesForTarget this (localMessages su) with
  | Throw e => Exit st (Throw e)
  | Normal targetMessages =>
      Exit {| round := round st; sent := sent st ++ [targetMessages] |}
        (response <- callTargetLLM b targetMessages request (localTools su)
                       (conversationId su) ;;
         answer this request su response)
  end.

Definition handleRequest (fuel : nat) (this : ProxyHandler) (b : Backend)
  (request : ChatCompletionRequest)
  : option (Outcome (completion ChatCompletionResponse)) :=
  let su := setup this b request in
  match while fuel (underLimit this) (requestRound this b request su)
              {| round := 0; sent := [] |} with
  | None => None
  | Some (st, Some r) =>
      Some {| locals := st; request_after := requestMessages su; result := r |}
  | Some (st, None) =>
      Some {| locals := st; request_after := requestMessages su;
              result := Throw (roundLimitExceeded this) |}
  end.

(** *** handleStreamingRequest *)

(** A run of the generator: the chunks it yielded, and whether it then
    returned or threw. *)
Record Generated := {
  yielded : list StreamChunk;
  ending : completion unit
}.

(** The locals of one round of the streaming loop. *)
Record DetectionState := {
  fullResponse : jsstring;
  toolCallDetected : bool;
  bufferedChunks : list jsstring
}.

Definition initialDetection : DetectionState :=
  {| fullResponse := []; toolCallDetected := false; bufferedChunks := [] |}.

Definition looksLikeToolCall (fullResponse : jsstring) : bool :=
  let trimmed := trim fullResponse in
  startsWith trimmed (lit "{")
  || startsWith trimmed (LF ++ lit "{")
  || includes trimmed (jq "'function_call'").

(** One turn of [for await (const chunk of stream)]: the locals afterwards
    and what the turn yields. *)
Definition onChunk (su : Setup) (request : ChatCompletionRequest)
  (st : DetectionState) (chunk : jsstring) : DetectionState * list StreamChunk :=
  let fullResponse' := fullResponse st ++ chunk in
  if negb (hasToolResponse su) then
    if looksLikeToolCall fullResponse' && negb (toolCallDetected st) then
      ({| fullResponse := fullResponse'; toolCallDetected := true;
          bufferedChunks := bufferedChunks st ++ [chunk] |}, [])
    else if toolCallDetected st then
      ({| fullResponse := fullResponse'; toolCallDetected := toolCallDetected st;
          bufferedChunks := bufferedChunks st ++ [chunk] |}, [])
    else
      ({| fullResponse := fullResponse'; toolCallDetected := toolCallDetected st;
          bufferedChunks := bufferedChunks st |},
       [createStreamChunk (conversationId su) chunk (model request) None])
  else
    ({| fullResponse := fullResponse'; toolCallDetected := toolCallDetected st;
        bufferedChunks := bufferedChunks st |},
     [createStreamChunk (conversationId su) chunk (model request) None]).

Fixpoint consume (su : Setup) (request : ChatCompletionRequest)
  (st : DetectionState) (chunks : list jsstring) : DetectionState * list StreamChunk :=
  match chunks with
  | [] => (st, [])
  | chunk :: more =>
      let (st1, out1) := onChunk su request st chunk in
      let (st2, out2) := consume su request st1 more in
      (st2, out1 ++ out2)
  end.

(** The code after the [for await], once the stream has ended. *)
Definition afterStream (this : ProxyHandler) (su : Setup)
  (request : ChatCompletionRequest) (st : DetectionState) : Generated :=
  let stop :=
    createStreamChunk (conversationId su) [] (model request) (Some (lit "stop")) in
  if negb (hasToolResponse su) then
    match extractToolCallFromResponse (toolConverter this) (fullResponse st) with
    | Throw e => {| yielded := []; ending := Throw e |}
    | Normal (Some toolCall) =>
        let textBefore :=
          extractTextBeforeToolCall (toolConverter this) (fullResponse st) in
        {| yielded :=
             (if meaningful textBefore
              then [createStreamChunk (conversationId su) textBefore (model request) None]
              else [])
             ++ [createToolCallStreamChunk (conversationId su) toolCall (model request);
                 createStreamChunk (conversationId su) [] (model request)
                   (Some (lit "tool_calls"))];
           ending := Normal tt |}
    | Normal None =>
        {| yielded :=
             (if toolCallDetected st && (0 <? length (bufferedChunks st))%nat
              then map (fun bufferedChunk =>
                          createStreamChunk (conversationId su) bufferedChunk
                            (model request) None)
                       (bufferedChunks st)
              else [])
             ++ [stop];
           ending := Normal tt |}
    end
  else {| yielded := [stop]; ending := Normal tt |}.

(** The streaming detector: the [for await] loop over the backend's stream
    and the code that follows it. *)
Definition detect (this : ProxyHandler) (su : Setup)
  (request : ChatCompletionRequest) (stream : Stream) : Generated :=
  let (ds, streamed) := consume su request initialDetection (deltas stream) in
  match failure stream with
  | Some e => {| yielded := streamed; ending := Throw e |}
  | None =>
      let g := afterStream this su request ds in
      {| yielded := streamed ++ yielded g; ending := ending g |}
  end.

(** The body of the [while] of [handleStreamingRequest]. *)
Definition streamingRound (this : ProxyHandler) (b : Backend)
  (request : ChatCompletionRequest) (su : Setup) (st : LoopState)
  : flow LoopState Generated :=
  match prepareMessagesForTarget this (localMessages su) with
  | Throw e => Exit st {| yielded := []; ending := Throw e |}
  | Normal targetMessages =>
      Exit {| round := round st; sent := sent st ++ [targetMessages] |}
        (detect this su request
           (streamTargetLLM b targetMessages request (conversationId su)))
  end.

Definition handleStreamingRequest (fuel : nat) (this : ProxyHandler) (b : Backend)
  (request : ChatCompletionRequest) : option (Outcome Generated) :=
  let su := setup this b request in
  match while fuel (underLimit this) (streamingRound this b request su)
              {| round := 0; sent := [] |} with
  | None => None
  | Some (st, Some g) =>
      Some {| locals := st; request_after := requestMessages su; result := g |}
  | Some (st, None) =>
      Some {| locals := st; request_after := requestMessages su;
              result := {| yielded := []; ending := Throw (roundLimitExceeded this) |} |}
  end.

(** *** The events of the specification, as chunks *)

Section Events.
Variables id mdl : jsstring.

Definition Content (text : jsstring) : StreamChunk :=
  createStreamChunk id text mdl None.

Definition ToolCallEvent (call : ToolCall) : StreamChunk :=
  createToolCallStreamChunk id call mdl.

Definition End_ (reason : jsstring) : StreamChunk :=
  createStreamChunk id [] mdl (Some reason).
End Events.

(** The text a chunk carries. *)
Definition contentOf (c : StreamChunk) : jsstring :=
  match delta c with
  | DeltaContent text => text
  | _ => []
  end.

Definition contentText (cs : list StreamChunk) : jsstring :=
  concat (map contentOf cs).

(** *** callTargetLLM, after the HTTP call

    What [callTargetLLM] makes of [response.data], the parsed body of the
    backend's answer: the text it returns or the error it throws.  The value
    returned is whatever the body holds in the field that matched. *)

Definition emptyReplyText : jsstring :=
  lit "I received an empty response from the model. Please try again.".

Definition unexpectedFormat : JSError :=
  Error (lit "Unexpected response format from target LLM").

(** [new Error(`Target LLM error: ${response.data.error.message || 'Unknown error'}`)] *)
Definition targetError (error : jsval) : completion JSError :=
  message <- Get error (lit "message") ;;
  Normal (Error (lit "Target LLM error: "
                 ++ ToString (or_ message (Val (JString (lit "Unknown error")))))).

Definition readReply (data : json) : completion jsval :=
  error <- Get (Val data) (lit "error") ;;
  if truthy error then
    err <- targetError error ;;
    Throw err
  else
    let content :=
      optGet (optGet (optIndex0 (field data (lit "choices"))) (lit "message"))
        (lit "content") in
    if isDefined content then
      let content := or_ content (Val (JString [])) in
      if negb (truthy content) then Normal (Val (JString emptyReplyText))
      else Normal content
    else if truthy (field data (lit "response")) then
      Normal (field data (lit "response"))
    else if truthy (optGet (field data (lit "message")) (lit "content")) then
      Normal (optGet (field data (lit "message")) (lit "content"))
    else
      match data with
      | JString _ => Normal (Val data)
      | _ => Throw unexpectedFormat
      end.

End ProxyHandler.

(* ================================================================== *)
(** * StreamHandler (stream-handler.ts) *)
(* ================================================================== *)

Module StreamHandler.

(** The first [try] block of [extractContent], on the text after ["data: "]:
    [Normal (Some v)] is a [return v], [Normal None] is reaching its end. *)
Definition fromDataPayload (payload : jsstring) : completion (option jsval) :=
  json <- JSON.parse payload ;;
  response <- Get (Val json) (lit "response") ;;
  if isDefined response then Normal (Some response)
  else
    let choice := optIndex0 (field json (lit "choices")) in
    if truthy (optGet (optGet choice (lit "delta")) (lit "content"))
    then Normal (Some (optGet (optGet choice (lit "delta")) (lit "content")))
    else if truthy (optGet (optGet choice (lit "message")) (lit "content"))
    then Normal (Some (optGet (optGet choice (lit "message")) (lit "content")))
    else if truthy (optGet (field json (lit "message")) (lit "content"))
    then Normal (Some (optGet (field json (lit "message")) (lit "content")))
    else if truthy (field json (lit "content"))
    then Normal (Some (field json (lit "content")))
    else
      match json with
      | JString _ => Normal (Some (Val json))
      | _ => Normal None
      end.

(** The second [try] block, on the whole trimmed line. *)
Definition fromBareLine (trimmed : jsstring) : completion (option jsval) :=
  json <- JSON.parse trimmed ;;
  response <- Get (Val json) (lit "response") ;;
  if isDefined response then Normal (Some response)
  else
    let choice := optIndex0 (field json (lit "choices")) in
    if truthy (optGet (optGet choice (lit "delta")) (lit "content"))
    then Normal (Some (optGet (optGet choice (lit "delta")) (lit "content")))
    else if truthy (optGet (field json (lit "message")) (lit "content"))
    then Normal (Some (optGet (field json (lit "message")) (lit "content")))
    else Normal None.

Definition done : jsstring := lit "data: [DONE]".
Definition dataPrefix : jsstring := lit "data: ".

(** [extractContent(line)]; [Val JNull] is [return null]. *)
Definition extractContent (line : jsstring) : jsval :=
  let trimmed := trim line in
  if negb (nonEmpty trimmed) || string_eqb trimmed done then Val JNull
  else
    match (if startsWith trimmed dataPrefix
           then swallow (fromDataPayload (slice trimmed 6))
           else None) with
    | Some v => v
    | None =>
        match swallow (fromBareLine trimmed) with
        | Some v => v
        | None => Val JNull
        end
    end.

(** [for (const line of lines) { ...; if (content) yield content }] *)
Definition contents (lines : list jsstring) : list jsval :=
  filter truthy (map extractContent lines).

(** One turn of [for await (const chunk of stream)], on a chunk of bytes as
    the HTTP stream delivers it: the buffer afterwards and what the turn
    yields.  The chunk is decoded on its own. *)
Definition onData (buffer : jsstring) (chunk : list Byte.byte)
  : jsstring * list jsval :=
  let text := toString chunk in
  let buffer := buffer ++ text in
  let lines := splitLines buffer in
  (* buffer = lines.pop() || '' *)
  (last lines [], contents (removelast lines)).

Fixpoint feed (buffer : jsstring) (chunks : list (list Byte.byte))
  : jsstring * list jsval :=
  match chunks with
  | [] => (buffer, [])
  | chunk :: more =>
      let (buffer1, out1) := onData buffer chunk in
      let (buffer2, out2) := feed buffer1 more in
      (buffer2, out1 ++ out2)
  end.

(** [parseStream(stream)] on a stream that delivers [chunks] and ends. *)
Definition parseStream (chunks : list (list Byte.byte)) : list jsval :=
  let (buffer, out) := feed [] chunks in
  out ++ (if nonEmpty buffer then contents [buffer] else []).

(** [combineChunks(chunks)] *)
Definition combineChunks (chunks : list jsstring) : jsstring := concat chunks.

End StreamHandler.

(* ================================================================== *)
(** * ToolExecutor (tool-executor.ts) *)
(* ================================================================== *)

Module ToolExecutor.

(** A registered implementation: from the parsed arguments to a result, or to
    a thrown error. *)
Definition Implementation := json -> completion jsval.

(** [toolImplementations], a Map from tool name to implementation. *)
Definition Registry := list (jsstring * Implementation).

Fixpoint get (r : Registry) (name : jsstring) : option Implementation :=
  match r with
  | [] => None
  | (k, f) :: more => if string_eqb k name then Some f else get more name
  end.

(** [registerTool(name, implementation)]: [Map.prototype.set] *)
Fixpoint registerTool (r : Registry) (name : jsstring) (f : Implementation) : Registry :=
  match r with
  | [] => [(name, f)]
  | (k, g) :: more =>
      if string_eqb k name then (k, f) :: more
      else (k, g) :: registerTool more name f
  end.

(** [toolImplementations.get(toolName)]: every key of the map is a string. *)
Definition lookupTool (r : Registry) (toolName : jsval) : option Implementation :=
  match toolName with
  | Val (JString s) => get r s
  | _ => None
  end.

(** [t.function.name === toolName] *)
Definition named (toolName : jsval) (t : Tool) : bool :=
  match toolName with
  | Val (JString s) => string_eqb (fd_name (tool_function t)) s
  | _ => false
  end.

Definition errorObject (message : jsstring) : json :=
  JObject [(lit "error", JString message)].

Definition notFound (toolName : jsval) : json :=
  errorObject (jq "Tool '" ++ ToString toolName
               ++ jq "' not found in available tools").

Definition clientTool (toolName : jsval) : json :=
  JObject [(lit "error",
            JString (jq "Tool '" ++ ToString toolName
                     ++ jq "' should be executed by the client, not the proxy"));
           (lit "isClientTool", JBool true)].

Section Execute.
(** [error.message] of what the engine throws. *)
Variable messageOf : JSError -> jsstring.

Definition failed (toolName : jsval) (err : JSError) : json :=
  errorObject (jq "Error executing tool '" ++ ToString toolName ++ jq "': "
               ++ messageOf err).

Definition executeToolCall (r : Registry) (toolCall : ToolCall)
  (availableTools : list Tool) : jsval :=
  let toolName := fn_name (tc_function toolCall) in
  match find (named toolName) availableTools with
  | None => Val (notFound toolName)
  | Some _ =>
      match lookupTool r toolName with
      | None => Val (clientTool toolName)
      | Some implementation =>
          match (args <- JSON.parse (fn_arguments (tc_function toolCall)) ;;
                 implementation args) with
          | Normal result => result
          | Throw err => Val (failed toolName err)
          end
      end
  end.
End Execute.

End ToolExecutor.

(* ================================================================== *)
(** * RequestLogger (logger.ts) *)
(* ================================================================== *)

Module RequestLogger.

(** A headers object: own properties in order, keys distinct. *)
Definition Headers := list (jsstring * json).

(** [sanitized[k] = v] *)
Definition assign (h : Headers) (k : jsstring) (v : json) : Headers :=
  JSON.defineProperty h k v.

(** [if (sanitized[k]) sanitized[k] = sanitized[k].substring(0, 20) + '...'];
    a truthy value that is not a string has no [substring] to call. *)
Definition truncate (h : Headers) (k : jsstring) : completion Headers :=
  if truthy (lookup h k) then
    match lookup h k with
    | Val (JString s) => Normal (assign h k (JString (substring s 0 20 ++ lit "...")))
    | _ => Throw TypeError
    end
  else Normal h.

(** [if (sanitized[k]) sanitized[k] = '***'] *)
Definition mask (h : Headers) (k : jsstring) : Headers :=
  if truthy (lookup h k) then assign h k (JString (lit "***")) else h.

Definition sanitizeHeaders (headers : Headers) : completion Headers :=
  let sanitized := headers in          (* { ...headers } *)
  sanitized <- truncate sanitized (lit "authorization") ;;
  sanitized <- truncate sanitized (lit "Authorization") ;;
  Normal (mask sanitized (lit "api-key")).

End RequestLogger.

(* ================================================================== *)
(** * callTargetLLM, with the HTTP call and the logging around it *)
(* ================================================================== *)

Module TargetCall.

(** What [axios.post] resolves to. *)
Record AxiosResponse := {
  status : Z;
  headers : RequestLogger.Headers;
  data : json
}.

(** [callTargetLLM], given how [axios.post] settles: the text returned or the
    error thrown.  When the post resolves, the response is logged first,
    which sanitizes its headers, and then read; whatever is thrown on the
    way, by the post, the logging or the reading, is logged and thrown on. *)
Definition callTargetLLM (post : completion AxiosResponse) : completion jsval :=
  match post with
  | Throw error => Throw error
  | Normal response =>
      _ <- RequestLogger.sanitizeHeaders (headers response) ;;
      ProxyHandler.readReply (data response)
  end.

End TargetCall.


(* ================================================================== *)
(** * Concrete conversations and replies *)
(* ================================================================== *)

Module Scenario.

Import ProxyHandler.

Definition entropy : Entropy :=
  {| Date_now := 1700000000000; random36 := lit "k3j9x0q1z" |}.

(** A configuration with a negative round budget. *)
Definition negativeBudget : ProxyConfig :=
  {| targetApiUrl := lit "http://localhost:11434/v1/chat/completions";
     targetModel := lit "llama3";
     apiKey := None;
     maxRounds := Some (-1)%Z |}.

(** A configuration that leaves [maxRounds] unset. *)
Definition defaults : ProxyConfig :=
  {| targetApiUrl := lit "http://localhost:11434/v1/chat/completions";
     targetModel := lit "llama3";
     apiKey := None;
     maxRounds := None |}.

Definition handler : ProxyHandler := new defaults entropy.

(** A stream that ends normally. *)
Definition streamOf (reply : list jsstring) : Stream :=
  {| deltas := reply; failure := None |}.

(** A backend that answers every request with the same deltas (streaming)
    or with their concatenation (non-streaming). *)
Definition replying (reply : list jsstring) : Backend :=
  {| uuidv4 := lit "3f2c9a4e-0000-4000-8000-000000000000";
     callTargetLLM := fun _ _ _ _ => Normal (concat reply);
     streamTargetLLM := fun _ _ _ => streamOf reply |}.

Definition get_weather : Tool :=
  {| tool_type := lit "function";
     tool_function :=
       {| fd_name := lit "get_weather";
          fd_description := lit "Current weather for a location";
          fd_parameters :=
            Some (JObject [(lit "type", JString (lit "object"))]) |} |}.

(** A first request: one user message, no tools. *)
Definition question : ChatCompletionRequest :=
  {| model := lit "llama3";
     messages := [plainMessage user (lit "What is the weather in Paris?")];
     tools := None |}.

(** The same question with an explicitly empty tool list. *)
Definition questionNoTools : ChatCompletionRequest :=
  {| model := lit "llama3";
     messages := [plainMessage system (lit "Be brief.");
                  plainMessage user (lit "What is the weather in Paris?")];
     tools := Some [] |}.

Definition toolResult : Message :=
  {| msg_role := tool;
     msg_content := Some (jq "{'temperature':21}");
     msg_tool_calls := None;
     msg_tool_call_id := Some (lit "call_1");
     msg_name := Some (lit "get_weather") |}.

(** A follow-up request: the conversation now holds the tool's result, and
    the tool list is still sent along. *)
Definition followUp : ChatCompletionRequest :=
  {| model := lit "llama3";
     messages := [plainMessage user (lit "What is the weather in Paris?");
                  toolResult];
     tools := Some [get_weather] |}.

(** An ordinary answer in two deltas. *)
Definition sunny : list jsstring := [lit "Sunny, "; lit "21 degrees."].

(** A call split over three deltas. *)
Definition fragments : list jsstring :=
  [jq "{'function"; jq "_call':{'name':'x',"; jq "'arguments':{}}}"].

Definition callX : jsstring := jq "{'function_call':{'name':'x','arguments':{}}}".



(** Two balanced objects in prose, the marker in the second only. *)
Definition twoObjects : jsstring :=
  jq "a {'a':1} b {'function_call':{'name':'x','arguments':{}}} c".

Definition secondObjectAlone : jsstring :=
  jq "b {'function_call':{'name':'x','arguments':{}}} c".

(** Candidates whose [name] is a number and whose [arguments] is [null]. *)
Definition numericName : jsstring := jq "{'function_call':{'name':5}}".
Definition nullArguments : jsstring :=
  jq "{'function_call':{'name':'x','arguments':null}}".

(** The reply of the repository's test "should return null for invalid JSON",
    with a real line break around the block's inside. *)
Definition invalidBlock : jsstring :=
  lit "```json" ++ LF ++ lit "invalid json content" ++ LF ++ lit "```".



(** A reply that starts like an object and is not one. *)
Definition falseAlarm : list jsstring := [lit "{ not"; lit " a call }"].

(** The model narrating its intent, with blanks around. *)
Definition narration : jsstring := lit "  I need to call a function." ++ LF.

(** The literal round trip of the specification. *)
Definition weatherCall : jsstring :=
  jq "{'function_call':{'name':'get_weather','arguments':{'location':'Paris'}}}".

(** What goes to the backend for [followUp]. *)
Definition followUpPayload : list Message :=
  [plainMessage user (lit "What is the weather in Paris?");
   plainMessage user (jq "Function 'get_weather' returned: {'temperature':21}")].


End Scenario.

(* ================================================================== *)
(** * More conversations and replies *)
(* ================================================================== *)

Module Cases.

Import ProxyHandler.

(** A first request that offers a tool and opens with a system message. *)
Definition askWithTools : ChatCompletionRequest :=
  {| model := lit "llama3";
     messages := [plainMessage system (lit "Be brief.");
                  plainMessage user (lit "What is the weather in Paris?")];
     tools := Some [Scenario.get_weather] |}.

(** A fenced block that holds JSON, but no object. *)
Definition fencedList : jsstring :=
  lit "```json" ++ LF ++ lit "[1, 2]" ++ LF ++ lit "```".

(** An implementation that hands its arguments back. *)
Definition echo : ToolExecutor.Implementation := fun args => Normal (Val args).

Definition echoTool : Tool :=
  {| tool_type := lit "function";
     tool_function :=
       {| fd_name := lit "echo";
          fd_description := lit "Returns its arguments";
          fd_parameters := None |} |}.

Definition echoCall : ToolCall :=
  {| tc_id := lit "call_1";
     tc_type := lit "function";
     tc_function := {| fn_name := Val (JString (lit "echo"));
                       fn_arguments := jq "{'text':'hi'}" |} |}.

(** [error.message] for the errors the engine throws. *)
Definition messageOf (err : JSError) : jsstring :=
  match err with
  | SyntaxError => lit "Unexpected token"
  | TypeError => lit "Cannot read properties of undefined"
  | Error message => message
  end.

End Cases.

(* ================================================================== *)
(** * Invariants and observations the proofs use *)
(* ================================================================== *)

(** ** Of the JSON scanner and parser *)

(** A keyword in progress ends in [true], [false] or [null], never in a
    brace. *)
Definition keywordMode (md : JSON.mode) : Prop :=
  match md with
  | JSON.InKeyword _ t => t <> JSON.TLBrace
  | _ => True
  end.

Definition isLBrace (t : JSON.token) : bool :=
  match t with
  | JSON.TLBrace => true
  | _ => false
  end.

Definition arrayFrame (f : JSON.frame) : Prop :=
  match f with
  | JSON.FArray _ => True
  | JSON.FObject _ _ => False
  end.

Definition notObject (v : json) : Prop :=
  match v with
  | JObject _ => False
  | _ => True
  end.

Definition plainState (st : JSON.pstate) : Prop :=
  match st with
  | JSON.PDone v => notObject v
  | _ => True
  end.

(** ** Of the matcher *)

(** What a matcher state may hold when the match started on [input]. *)
Definition within (input : jsstring) (x : RegExp.mstate) : Prop :=
  (forall ch, In ch (RegExp.rest x) -> In ch input)
  /\ (forall g ch, In g (RegExp.captures x) -> In ch (snd g) -> In ch input).

(** Where a matcher state stands when the match started at index [start] of
    the subject, on [input]. *)
Definition position (input : jsstring) (start : nat) (x : RegExp.mstate) : Prop :=
  exists consumed,
    input = consumed ++ RegExp.rest x
    /\ RegExp.endIndex x = (start + length consumed)%nat.

(** ** Of a run of chunks *)

(** The tool calls the chunks carry, and the finish reason of the last one. *)
Definition toolCallsOf (cs : list ProxyHandler.StreamChunk) : list ToolCall :=
  concat (map (fun c => match ProxyHandler.delta c with
                        | ProxyHandler.DeltaToolCalls calls => calls
                        | _ => []
                        end) cs).

Definition lastFinish (cs : list ProxyHandler.StreamChunk) : option jsstring :=
  match rev cs with
  | c :: _ => ProxyHandler.finish_reason c
  | [] => None
  end.

(** The delta a chunk made for a text has to show: [content ? { content } :
    {}]. *)
Abbreviation deltaOfText t :=
  (match t with
   | [] => ProxyHandler.DeltaEmpty
   | _ :: _ => ProxyHandler.DeltaContent t
   end) (only parsing).

(** ** Of the scanner, on a stretch of text *)

(** The scanner run over [text] from mode [md]: the mode it ends in and the
    tokens it has emitted. *)
Fixpoint scanAll (md : JSON.mode) (text : jsstring)
  : option (JSON.mode * list JSON.token) :=
  match text with
  | [] => Some (md, [])
  | c :: more =>
      match JSON.scan md c with
      | Some (md', ts) =>
          match scanAll md' more with
          | Some (md'', rest) => Some (md'', ts ++ rest)
          | None => None
          end
      | None => None
      end
  end.

(** The tokens of a reply that is one call with a name and one string
    argument. *)
Definition callTokens (name key value : jsstring) : list JSON.token :=
  [JSON.TLBrace; JSON.TString (lit "function_call"); JSON.TColon;
   JSON.TLBrace; JSON.TString (lit "name"); JSON.TColon; JSON.TString name;
   JSON.TComma; JSON.TString (lit "arguments"); JSON.TColon;
   JSON.TLBrace; JSON.TString key; JSON.TColon; JSON.TString value;
   JSON.TRBrace; JSON.TRBrace; JSON.TRBrace].

(** A call as a model is told to write it: a name and one string argument. *)
Definition callObject (name key value : jsstring) : json :=
  JObject [(lit "function_call",
            JObject [(lit "name", JString name);
                     (lit "arguments", JObject [(key, JString value)])])].

(** Strings of 16-bit code units. *)
Definition wide (s : jsstring) : Prop := Forall (fun c => (c < 65536)%N) s.

(** ** The two wire formats of a streamed reply *)

(** An OpenAI-style event for one delta, and a stream of them closed by the
    end marker. *)
Definition deltaPayload (content : jsstring) : json :=
  JObject [(lit "choices",
            JArray [JObject [(lit "delta",
                              JObject [(lit "content", JString content)])]])].

Definition dataLine (content : jsstring) : jsstring :=
  lit "data: " ++ JSON.stringify (deltaPayload content).

Definition eventStream (deltas : list jsstring) : jsstring :=
  concat (map (fun s => dataLine s ++ LF ++ LF) deltas)
  ++ lit "data: [DONE]" ++ LF ++ LF.

(** An Ollama-style line for one delta, and a stream of them. *)
Definition responseLine (content : jsstring) : jsstring :=
  JSON.stringify (JObject [(lit "response", JString content);
                           (lit "done", JBool false)]).

Definition lineStream (deltas : list jsstring) : jsstring :=
  concat (map (fun s => responseLine s ++ LF) deltas).

(** The deltas that reach the handler. *)
Definition texts (deltas : list jsstring) : list jsval :=
  map (fun s => Val (JString s)) (filter nonEmpty deltas).

(** ** Of a lazy [[\s\S]*?] *)

(** Try the continuation where the matcher stands, then one code unit
    further, and so on to the end of the input. *)
Fixpoint lazySkip (k : RegExp.continuation) (rest : jsstring) (endIndex : nat)
  (captures : list (nat * jsstring)) : option RegExp.mstate :=
  match k {| RegExp.rest := rest; RegExp.endIndex := endIndex;
             RegExp.captures := captures |} with
  | Some y => Some y
  | None =>
      match rest with
      | [] => None
      | _ :: t => lazySkip k t (S endIndex) captures
      end
  end.

(** The closing fence, as a continuation. *)
Definition closingFence (z : RegExp.mstate) : option RegExp.mstate :=
  if startsWith (RegExp.rest z) (lit "```")
  then Some {| RegExp.rest := skipn 3 (RegExp.rest z);
               RegExp.endIndex := (RegExp.endIndex z + 3)%nat;
               RegExp.captures := RegExp.captures z |}
  else None.

(** ** Of the brace scan *)

(** Opening braces minus closing braces. *)
Fixpoint balance (s : jsstring) : Z :=
  match s with
  | [] => 0
  | c :: t =>
      ((if N.eqb c 123 then 1 else if N.eqb c 125 then -1 else 0) + balance t)%Z
  end.

(** [prefix] is a prefix of the response that ends with a closing brace and
    brings the count back to zero; [c] is its part from the first opening
    brace on, and holds the marker. *)
Definition candidateAt (prefix c : jsstring) : Prop :=
  exists before body,
    prefix = before ++ 123%N :: body ++ [125%N]
    /\ Forall (fun x => x <> 123%N) before
    /\ c = 123%N :: body ++ [125%N]
    /\ balance prefix = 0%Z
    /\ includes c (lit "function_call") = true.

(* ================================================================== *)
(** * ConfigurationManager (config-manager.ts, config-types.ts) *)
(* ================================================================== *)

Module ConfigurationManager.

(** Dates are kept as the instant they denote; numbers that only ever hold
    integers (ports, priorities, retry counts, milliseconds) as integers. *)
Record LLMTarget := {
  id : jsstring;
  name : jsstring;
  url : jsstring;
  apiKey : option jsstring;
  model : jsstring;
  enabled : bool;
  priority : Z;
  maxRetries : option Z;
  timeout : option Z;
  headers : option (list (jsstring * jsstring));
  createdAt : N;
  updatedAt : N
}.

(** [Partial<LLMTarget>]: [None] is a field that is not there. *)
Record TargetUpdates := {
  u_id : option jsstring;
  u_name : option jsstring;
  u_url : option jsstring;
  u_apiKey : option jsstring;
  u_model : option jsstring;
  u_enabled : option bool;
  u_priority : option Z;
  u_maxRetries : option Z;
  u_timeout : option Z;
  u_headers : option (list (jsstring * jsstring));
  u_createdAt : option N;
  u_updatedAt : option N
}.

Record ProxyConfiguration := {
  port : Z;
  adminPort : Z;
  chatApiKey : option jsstring;
  enableLogging : bool;
  logLevel : jsstring;
  corsOrigins : list jsstring;
  maxRequestSize : jsstring;
  defaultTarget : option jsstring
}.

Record Capabilities := {
  streaming : bool;
  functionCalling : bool;
  vision : bool;
  maxTokens : Z
}.

Record Model := {
  m_id : jsstring;
  m_name : jsstring;
  m_provider : jsstring;
  capabilities : Capabilities;
  costPer1kTokens : option (Z * Z)
}.

(** [this.config] *)
Record ConfigurationStore := {
  proxy : ProxyConfiguration;
  targets : list LLMTarget;
  models : list Model
}.

(** [arr.findIndex(p)]; [None] is -1. *)
Fixpoint findIndex {A} (p : A -> bool) (l : list A) : option nat :=
  match l with
  | [] => None
  | x :: t => if p x then Some 0%nat
              else match findIndex p t with
                   | Some i => Some (S i)
                   | None => None
                   end
  end.

(** [arr[i] = v] for an index inside the array. *)
Fixpoint setAt {A} (l : list A) (i : nat) (v : A) : list A :=
  match l, i with
  | [], _ => []
  | _ :: t, O => v :: t
  | x :: t, S j => x :: setAt t j v
  end.

(** [arr.splice(i, 1)] *)
Fixpoint removeAt {A} (l : list A) (i : nat) : list A :=
  match l, i with
  | [], _ => []
  | _ :: t, O => t
  | x :: t, S j => x :: removeAt t j
  end.

(** [arr.sort((a, b) => a.priority - b.priority)]: the sort is stable, so
    among targets of equal priority the earlier one stays first. *)
Fixpoint insertByPriority (a : LLMTarget) (sorted : list LLMTarget) : list LLMTarget :=
  match sorted with
  | [] => [a]
  | b :: t => if (priority a - priority b <=? 0)%Z then a :: sorted
              else b :: insertByPriority a t
  end.

Definition sortByPriority (l : list LLMTarget) : list LLMTarget :=
  fold_right insertByPriority [] l.

Definition hasId (wanted : jsstring) (t : LLMTarget) : bool := string_eqb (id t) wanted.

Definition getTarget (c : ConfigurationStore) (wanted : jsstring) : option LLMTarget :=
  find (hasId wanted) (targets c).

Definition getEnabledTargets (c : ConfigurationStore) : list LLMTarget :=
  filter enabled (targets c).

Definition getActiveTarget (c : ConfigurationStore) : option LLMTarget :=
  let byPriority := hd_error (sortByPriority (filter enabled (targets c))) in
  if truthyStr (defaultTarget (proxy c)) then
    match getTarget c (orEmpty (defaultTarget (proxy c))) with
    | Some t => if enabled t then Some t else byPriority
    | None => byPriority
    end
  else byPriority.

Definition orElse {A} (a : option A) (b : A) : A :=
  match a with
  | Some v => v
  | None => b
  end.

Definition orKeep {A} (a b : option A) : option A :=
  match a with
  | Some v => Some v
  | None => b
  end.

(** [{ ...target, ...updates, id, updatedAt: new Date() }] *)
Definition updated (t : LLMTarget) (updates : TargetUpdates) (wanted : jsstring)
  (now : N) : LLMTarget :=
  {| id := wanted;
     name := orElse (u_name updates) (name t);
     url := orElse (u_url updates) (url t);
     apiKey := orKeep (u_apiKey updates) (apiKey t);
     model := orElse (u_model updates) (model t);
     enabled := orElse (u_enabled updates) (enabled t);
     priority := orElse (u_priority updates) (priority t);
     maxRetries := orKeep (u_maxRetries updates) (maxRetries t);
     timeout := orKeep (u_timeout updates) (timeout t);
     headers := orKeep (u_headers updates) (headers t);
     createdAt := orElse (u_createdAt updates) (createdAt t);
     updatedAt := now |}.

(** [updateTarget(id, updates)] at the instant [now]: the store afterwards
    and the value returned. *)
Definition updateTarget (c : ConfigurationStore) (wanted : jsstring)
  (updates : TargetUpdates) (now : N) : ConfigurationStore * option LLMTarget :=
  match findIndex (hasId wanted) (targets c) with
  | None => (c, None)
  | Some index =>
      match nth_error (targets c) index with
      | Some t =>
          let t' := updated t updates wanted now in
          ({| proxy := proxy c; targets := setAt (targets c) index t';
              models := models c |}, Some t')
      | None => (c, None)
      end
  end.

Definition clearDefault (p : ProxyConfiguration) : ProxyConfiguration :=
  {| port := port p; adminPort := adminPort p; chatApiKey := chatApiKey p;
     enableLogging := enableLogging p; logLevel := logLevel p;
     corsOrigins := corsOrigins p; maxRequestSize := maxRequestSize p;
     defaultTarget := None |}.

(** [this.config.proxy.defaultTarget === id] *)
Definition isDefault (p : ProxyConfiguration) (wanted : jsstring) : bool :=
  match defaultTarget p with
  | Some d => string_eqb d wanted
  | None => false
  end.

Definition deleteTarget (c : ConfigurationStore) (wanted : jsstring)
  : ConfigurationStore * bool :=
  match findIndex (hasId wanted) (targets c) with
  | None => (c, false)
  | Some index =>
      ({| proxy := if isDefault (proxy c) wanted then clearDefault (proxy c)
                   else proxy c;
          targets := removeAt (targets c) index;
          models := models c |}, true)
  end.

(** [m.id === id && m.provider === provider] *)
Definition isModel (wantedId provider : jsstring) (m : Model) : bool :=
  string_eqb (m_id m) wantedId && string_eqb (m_provider m) provider.

Definition addModel (c : ConfigurationStore) (m : Model) : ConfigurationStore :=
  {| proxy := proxy c; targets := targets c;
     models := match findIndex (isModel (m_id m) (m_provider m)) (models c) with
               | Some existingIndex => setAt (models c) existingIndex m
               | None => models c ++ [m]
               end |}.

Definition removeModel (c : ConfigurationStore) (wantedId provider : jsstring)
  : ConfigurationStore * bool :=
  match findIndex (isModel wantedId provider) (models c) with
  | None => (c, false)
  | Some index =>
      ({| proxy := proxy c; targets := targets c;
          models := removeAt (models c) index |}, true)
  end.

Definition getTargetForModel (c : ConfigurationStore) (modelName : jsstring)
  : option LLMTarget :=
  match find (fun m => string_eqb (m_id m) modelName) (models c) with
  | Some m =>
      find (fun t => string_eqb (name t) (m_provider m) && enabled t) (targets c)
  | None =>
      find (fun t => string_eqb (model t) modelName && enabled t) (targets c)
  end.

Definition validateChatApiKey (c : ConfigurationStore) (apiKey : jsstring) : bool :=
  if negb (truthyStr (chatApiKey (proxy c))) then true
  else string_eqb apiKey (orEmpty (chatApiKey (proxy c))).

End ConfigurationManager.

(* ================================================================== *)
(** * The server: the models route and the handler cache *)
(* ================================================================== *)

Module Server.

Import ConfigurationManager.

(** [oldModels.forEach(model => configManager.removeModel(model.id,
    model.provider))], where [oldModels] is the store's own array: the
    callback shortens the array that [forEach] walks.  [forEach] visits the
    indices below the length the array had at the start, skipping those the
    array no longer has. *)
Fixpoint clearLoop (steps index : nat) (c : ConfigurationStore) : ConfigurationStore :=
  match steps with
  | O => c
  | S steps' =>
      match nth_error (models c) index with
      | Some m => clearLoop steps' (S index)
                    (fst (removeModel c (m_id m) (m_provider m)))
      | None => clearLoop steps' (S index) c
      end
  end.

Definition clearModels (c : ConfigurationStore) : ConfigurationStore :=
  clearLoop (length (models c)) 0 c.

(** The body of the [/v1/models] route once the fresh models are there. *)
Definition refreshModels (c : ConfigurationStore) (freshModels : list Model)
  : ConfigurationStore :=
  if (0 <? length freshModels)%nat
  then fold_left addModel freshModels (clearModels c)
  else c.

(** [proxyHandlerCache], a Map from cache key to handler. *)
Definition Cache := list (jsstring * ProxyHandler.ProxyHandler).

Fixpoint cached (cache : Cache) (key : jsstring) : option ProxyHandler.ProxyHandler :=
  match cache with
  | [] => None
  | (k, h) :: more => if string_eqb k key then Some h else cached more key
  end.

(** [`${target.id}-${modelName}`] *)
Definition cacheKey (t : LLMTarget) (modelName : jsstring) : jsstring :=
  id t ++ lit "-" ++ modelName.

Definition handlerFor (e : Entropy) (t : LLMTarget) (modelName : jsstring)
  : ProxyHandler.ProxyHandler :=
  ProxyHandler.new
    {| ProxyHandler.targetApiUrl := url t;
       ProxyHandler.targetModel := modelName;
       ProxyHandler.apiKey := apiKey t;
       ProxyHandler.maxRounds := Some 10%Z |} e.

Definition noTarget (modelName : jsstring) : JSError :=
  Error (lit "No target found for model '" ++ modelName
         ++ lit "' and no active target configured.").

(** The target [getProxyHandlerForModel] settles on: the one that provides
    the model, else the active one. *)
Definition chooseTarget (c : ConfigurationStore) (modelName : jsstring)
  : option LLMTarget :=
  match getTargetForModel c modelName with
  | Some target => Some target
  | None => getActiveTarget c
  end.

(** [getProxyHandlerForModel(modelName)]: the cache afterwards and the
    handler returned, or the error thrown. *)
Definition getProxyHandlerForModel (e : Entropy) (c : ConfigurationStore)
  (cache : Cache) (modelName : jsstring)
  : Cache * completion ProxyHandler.ProxyHandler :=
  match chooseTarget c modelName with
  | None => (cache, Throw (noTarget modelName))
  | Some t =>
      match cached cache (cacheKey t modelName) with
      | Some h => (cache, Normal h)
      | None =>
          let h := handlerFor e t modelName in
          (cache ++ [(cacheKey t modelName, h)], Normal h)
      end
  end.

(** [s.replace(pattern, '')] for a string pattern: the first occurrence
    goes, if there is one. *)
Fixpoint removeFirst (s pattern : jsstring) : jsstring :=
  match s with
  | [] => []
  | c :: t =>
      if startsWith s pattern then skipn (length pattern) s
      else c :: removeFirst t pattern
  end.

(** The key check of the chat route; [authorization] is
    [req.headers['authorization']]. *)
Definition chatAllowed (c : ConfigurationStore) (authorization : option jsstring)
  : bool :=
  if truthyStr (chatApiKey (proxy c)) then
    match authorization with
    | None => false
    | Some a =>
        let providedKey := removeFirst a (lit "Bearer ") in
        if negb (nonEmpty providedKey) || negb (validateChatApiKey c providedKey)
        then false
        else true
    end
  else true.

End Server.

(** ** Of the model list *)

(** Every second element, from the second on. *)
Fixpoint everyOther {A} (l : list A) : list A :=
  match l with
  | _ :: y :: t => y :: everyOther t
  | _ => []
  end.

(** What identifies a model in the store. *)
Definition modelKey (m : ConfigurationManager.Model) : jsstring * jsstring :=
  (ConfigurationManager.m_id m, ConfigurationManager.m_provider m).

(** ** A store to run the configuration code on *)

Module Stores.

Import ConfigurationManager.

Definition settings : ProxyConfiguration :=
  {| port := 3500; adminPort := 3501; chatApiKey := None;
     enableLogging := true; logLevel := lit "info";
     corsOrigins := [lit "*"]; maxRequestSize := lit "50mb";
     defaultTarget := None |}.

Definition target (url : jsstring) : LLMTarget :=
  {| id := lit "t1"; name := lit "local"; url := url; apiKey := None;
     model := lit "llama3"; enabled := true; priority := 1;
     maxRetries := None; timeout := None; headers := None;
     createdAt := 0; updatedAt := 0 |}.

Definition aModel (modelId : jsstring) : Model :=
  {| m_id := modelId; m_name := modelId; m_provider := lit "local";
     capabilities := {| streaming := true; functionCalling := false;
                        vision := false; maxTokens := 4096 |};
     costPer1kTokens := None |}.

Definition store : ConfigurationStore :=
  {| proxy := settings;
     targets := [target (lit "http://old/v1/chat/completions")];
     models := [aModel (lit "llama3"); aModel (lit "phi3")] |}.

(** Only the url is updated. *)
Definition newUrl : TargetUpdates :=
  {| u_id := None; u_name := None;
     u_url := Some (lit "http://new/v1/chat/completions");
     u_apiKey := None; u_model := None; u_enabled := None;
     u_priority := None; u_maxRetries := None; u_timeout := None;
     u_headers := None; u_createdAt := None; u_updatedAt := None |}.

End Stores.

(* ================================================================== *)
(** * Properties *)
(* ================================================================== *)

Import ProxyHandler.

(** ** Strings *)

Lemma string_eqb_refl (a : jsstring) : string_eqb a a = true.
Proof.
  induction a as [|x a IH]; simpl; [reflexivity|].
  now rewrite N.eqb_refl, IH.
Qed.

Lemma string_eqb_eq (a b : jsstring) : string_eqb a b = true <-> a = b.
Proof.
  split.
  - revert b; induction a as [|x a IH]; intros [|y b]; simpl; try discriminate; auto.
    intros H. apply andb_true_iff in H as [Hx Ha].
    apply N.eqb_eq in Hx. f_equal; auto.
  - intros ->. apply string_eqb_refl.
Qed.

(** ** The brace scan *)

Lemma substring_middle (before mid rest : jsstring) :
  substring (before ++ mid ++ rest) (Z.of_nat (length before))
    (Z.of_nat (length before + length mid)) = mid.
Proof.
  unfold substring, clamp. rewrite !length_app.
  rewrite !Z.max_l by lia. rewrite !Z.min_l by lia.
  rewrite !Nat2Z.id.
  rewrite Nat.min_l, Nat.max_r by lia.
  replace (length before + length mid - length before)%nat with (length mid) by lia.
  rewrite skipn_app, skipn_all, Nat.sub_diag. simpl.
  rewrite firstn_app, firstn_all, Nat.sub_diag. simpl. apply app_nil_r.
Qed.

(** The brace scan never moves its start index once it is set: as long as
    nothing is found, [startIdx] is -1 and no opening brace has been seen, or
    it is the index of the first opening brace seen.  So a candidate, when
    one is found, starts at the first opening brace of the response. *)
Lemma scanLoop_first_brace (response : jsstring) :
  forall todo seen st c,
    response = seen ++ todo ->
    ToolConverter.jsonContent st = None ->
    (ToolConverter.startIdx st = (-1)%Z /\ Forall (fun x => x <> 123%N) seen)
    \/ (exists before rest,
           seen = before ++ 123%N :: rest
           /\ Forall (fun x => x <> 123%N) before
           /\ ToolConverter.startIdx st = Z.of_nat (length before)) ->
    ToolConverter.jsonContent
      (ToolConverter.scanLoop response (Z.of_nat (length seen)) todo st) = Some c ->
    exists before rest after,
      response = before ++ c ++ after
      /\ Forall (fun x => x <> 123%N) before
      /\ c = 123%N :: rest.
Proof.
  induction todo as [|x more IH]; intros seen st c Hresp Hnone Hstart Hfound.
  - simpl in Hfound. congruence.
  - simpl in Hfound. unfold ToolConverter.scanStep in Hfound.
    assert (Hnext : (Z.of_nat (length seen) + 1
                     = Z.of_nat (length (seen ++ [x])))%Z).
    { rewrite length_app. simpl. lia. }
    assert (Hresp' : response = (seen ++ [x]) ++ more).
    { rewrite <- app_assoc. exact Hresp. }
    destruct (N.eqb x 123) eqn:Hopen.
    + apply N.eqb_eq in Hopen. subst x.
      rewrite Hnext in Hfound.
      apply (IH _ _ _ Hresp') in Hfound; [exact Hfound|exact Hnone|].
      right. simpl.
      destruct Hstart as [[Hs Hall] | (before & rest & Hd & Hall & Hs)].
      * exists seen, []. rewrite Hs. simpl. auto.
      * exists before, (rest ++ [123%N]). rewrite Hs.
        destruct (Z.of_nat (length before) =? -1)%Z eqn:Hneg; [lia|].
        subst seen. rewrite <- app_assoc. auto.
    + assert (Hx : x <> 123%N) by (now apply N.eqb_neq).
      assert (Hkeep :
                (ToolConverter.startIdx st = (-1)%Z
                 /\ Forall (fun x => x <> 123%N) (seen ++ [x]))
                \/ (exists before rest,
                       seen ++ [x] = before ++ 123%N :: rest
                       /\ Forall (fun x => x <> 123%N) before
                       /\ ToolConverter.startIdx st = Z.of_nat (length before))).
      { destruct Hstart as [[Hs0 Hall] | (before & rest & Hd & Hall & Hs0)].
        - left. split; [exact Hs0|]. apply Forall_app. auto.
        - right. exists before, (rest ++ [x]). subst seen.
          rewrite <- app_assoc. auto. }
      destruct (N.eqb x 125) eqn:Hclose.
      * destruct ((ToolConverter.braceCount st - 1 =? 0)%Z
                  && negb (ToolConverter.startIdx st =? -1)%Z) eqn:Hzero.
        -- destruct (includes _ _) eqn:Hmark.
           ++ simpl in Hfound. injection Hfound as <-.
              apply andb_true_iff in Hzero as [_ Hset].
              apply negb_true_iff, Z.eqb_neq in Hset.
              destruct Hstart as [[Hs0 _] | (before & rest & Hd & Hall & Hs0)];
                [congruence|].
              assert (Hsplit : response = before ++ (123%N :: rest ++ [x]) ++ more).
              { rewrite Hresp, Hd. rewrite <- app_assoc. f_equal. simpl. f_equal.
                rewrite <- app_assoc. reflexivity. }
              assert (Hc : substring response (ToolConverter.startIdx st)
                             (Z.of_nat (length seen) + 1)
                           = 123%N :: rest ++ [x]).
              { rewrite Hs0, Hnext. rewrite Hsplit at 1.
                replace (length (seen ++ [x]))
                  with (length before + length (123%N :: rest ++ [x]))%nat.
                - apply substring_middle.
                - rewrite Hd, !length_app. simpl. rewrite length_app. simpl. lia. }
              rewrite Hc. exists before, (rest ++ [x]), more. auto.
           ++ rewrite Hnext in Hfound.
              apply (IH _ _ _ Hresp') in Hfound; auto.
        -- rewrite Hnext in Hfound.
           apply (IH _ _ _ Hresp') in Hfound; auto.
      * rewrite Hnext in Hfound.
        apply (IH _ _ _ Hresp') in Hfound; auto.
Qed.

Lemma braceScan_first_brace (response c : jsstring) :
  ToolConverter.braceScan response = Some c ->
  exists before rest after,
    response = before ++ c ++ after
    /\ Forall (fun x => x <> 123%N) before
    /\ c = 123%N :: rest.
Proof.
  intros H. unfold ToolConverter.braceScan in H.
  eapply (@scanLoop_first_brace response response []);
    [reflexivity| |left; split; [|constructor]|exact H]; reflexivity.
Qed.

(** ** The extractor *)

Section Extractor.
Variable e : Entropy.

Lemma try_catch_normal {A} (c : completion (option A)) :
  exists r, try_catch c (fun _ => Normal None) = Normal r.
Proof. destruct c; simpl; eauto. Qed.

(** C5. When the trimmed response is one of the two sentinel sentences, the
    extractor returns none at its first test, whatever the candidate search
    would have found. *)
Theorem sentinel_short_circuits (response : jsstring) :
  trim response = ToolConverter.sentinel1 \/ trim response = ToolConverter.sentinel2 ->
  ToolConverter.extractToolCallFromResponse e response = Normal None.
Proof.
  intros H. unfold ToolConverter.extractToolCallFromResponse.
  destruct H as [-> | ->].
  - now rewrite string_eqb_refl.
  - rewrite string_eqb_refl. now rewrite orb_true_r.
Qed.

(** C10. The extractor is total and never throws: on every text it returns
    a call or none; in particular a selected candidate that is not valid
    JSON makes [JSON.parse] throw inside the [try], and the result is none. *)
Theorem extractor_never_throws (response : jsstring) :
  (exists r, ToolConverter.extractToolCallFromResponse e response = Normal r)
  /\ (forall c err,
        ToolConverter.selectCandidate response = Some c ->
        JSON.parse c = Throw err ->
        ToolConverter.extractToolCallFromResponse e response = Normal None).
Proof.
  unfold ToolConverter.extractToolCallFromResponse. split.
  - destruct (_ || _); [eauto|].
    destruct (negb _); [eauto|].
    apply try_catch_normal.
  - intros c err Hc Hp. rewrite Hc.
    destruct (_ || _); [reflexivity|].
    destruct (negb _); [reflexivity|].
    simpl orEmpty. unfold ToolConverter.validate. rewrite Hp. reflexivity.
Qed.
(** C3, against the code.  The scan keeps the start index of the first
    opening brace for good, so every candidate starts at the first opening
    brace of the response.  On a text that holds one balanced object without
    the marker and, later, one with it, the candidate therefore runs from the
    first opening brace to the last closing one, over both objects; it is not
    valid JSON and the extractor returns none, although the second object
    alone, in the same kind of text, is found and returned as a call. *)
Theorem brace_scan_keeps_first_start :
  (forall response c,
      ToolConverter.braceScan response = Some c ->
      exists before rest after,
        response = before ++ c ++ after
        /\ Forall (fun x => x <> 123%N) before
        /\ c = 123%N :: rest)
  /\ ToolConverter.selectCandidate Scenario.twoObjects
     = Some (jq "{'a':1} b {'function_call':{'name':'x','arguments':{}}}")
  /\ JSON.parse (jq "{'a':1} b {'function_call':{'name':'x','arguments':{}}}")
     = Throw SyntaxError
  /\ ToolConverter.extractToolCallFromResponse e Scenario.twoObjects = Normal None
  /\ ToolConverter.selectCandidate Scenario.secondObjectAlone = Some Scenario.callX
  /\ ToolConverter.extractToolCallFromResponse e Scenario.secondObjectAlone
     = Normal (Some {| tc_id := ToolConverter.freshId e;
                       tc_type := lit "function";
                       tc_function := {| fn_name := Val (JString (lit "x"));
                                         fn_arguments := lit "{}" |} |}).
Proof.
  split; [exact braceScan_first_brace|].
  repeat split; vm_compute; reflexivity.
Qed.

Lemma parse_nonempty (c : jsstring) (parsed : json) :
  JSON.parse c = Normal parsed -> truthyStr (Some c) = true.
Proof. destruct c; [discriminate|reflexivity]. Qed.

(** C4, as the code has it.  When the selected candidate parses, a call is
    returned exactly when [function_call] is truthy and [function_call.name]
    is truthy, whatever the type of [name]; the call carries that value as
    its name and, as arguments, the serialization of [function_call.arguments],
    or of the empty object when [arguments] is missing or falsy.  In every
    other case the result is none. *)
Theorem extractor_accepts_truthy_name (response c : jsstring) (parsed : json) :
  ToolConverter.selectCandidate response = Some c ->
  JSON.parse c = Normal parsed ->
  ToolConverter.extractToolCallFromResponse e response
  = (if ToolConverter.isJustMention response then Normal None
     else match field parsed (lit "function_call") with
          | Val fc =>
              if truthy (Val fc) && truthy (field fc (lit "name"))
              then Normal
                     (Some {| tc_id := ToolConverter.freshId e;
                              tc_type := lit "function";
                              tc_function :=
                                {| fn_name := field fc (lit "name");
                                   fn_arguments :=
                                     JSON.stringify
                                       (ToolConverter.orEmptyObject
                                          (field fc (lit "arguments"))) |} |})
              else Normal None
          | Undefined => Normal None
          end)
  /\ (forall args, truthy args = false ->
        JSON.stringify (ToolConverter.orEmptyObject args) = lit "{}")
  /\ (forall v, truthy (Val v) = true -> ToolConverter.orEmptyObject (Val v) = v).
Proof.
  intros Hc Hp. split; [|split].
  - unfold ToolConverter.extractToolCallFromResponse, ToolConverter.isJustMention.
    destruct (_ || _); [reflexivity|].
    rewrite Hc, (parse_nonempty _ Hp). simpl negb. cbv iota.
    simpl orEmpty. unfold ToolConverter.validate. rewrite Hp. simpl bind.
    destruct parsed as [| | | | |props]; try reflexivity.
    simpl Get. simpl bind. simpl field.
    destruct (lookup props (lit "function_call")) as [|fc]; [reflexivity|].
    destruct fc as [|flag|n|text|items|props']; simpl; try reflexivity.
    + destruct flag; reflexivity.
    + destruct n; reflexivity.
    + destruct text; reflexivity.
    + destruct (truthy (lookup props' (lit "name"))); reflexivity.
  - intros args Hargs. unfold ToolConverter.orEmptyObject, or_.
    rewrite Hargs. reflexivity.
  - intros v Hv. unfold ToolConverter.orEmptyObject, or_. now rewrite Hv.
Qed.

End Extractor.

(** ** The streaming detector *)

Section Detector.
Variable this : ProxyHandler.
Variable su : Setup.
Variable request : ChatCompletionRequest.

Let content := Content (conversationId su) (model request).
Let stop := End_ (conversationId su) (model request) (lit "stop").

Lemma contentOf_Content (id mdl text : jsstring) :
  contentOf (Content id mdl text) = text.
Proof. unfold contentOf, Content, createStreamChunk; simpl. now destruct text. Qed.

Lemma contentText_app (xs ys : list StreamChunk) :
  contentText (xs ++ ys) = contentText xs ++ contentText ys.
Proof. unfold contentText. now rewrite map_app, concat_app. Qed.

Lemma contentText_Content (id mdl : jsstring) (texts : list jsstring) :
  contentText (map (Content id mdl) texts) = concat texts.
Proof.
  unfold contentText. induction texts as [|t ts IH]; simpl; [reflexivity|].
  now rewrite contentOf_Content, IH.
Qed.

Lemma contentText_End (id mdl reason : jsstring) :
  contentText [End_ id mdl reason] = [].
Proof. reflexivity. Qed.

Lemma toolCallsOf_app (xs ys : list StreamChunk) :
  toolCallsOf (xs ++ ys) = toolCallsOf xs ++ toolCallsOf ys.
Proof. unfold toolCallsOf. now rewrite map_app, concat_app. Qed.

Lemma toolCallsOf_Content (id mdl : jsstring) (texts : list jsstring) :
  toolCallsOf (map (Content id mdl) texts) = [].
Proof.
  induction texts as [|t more IH]; [reflexivity|].
  simpl. unfold toolCallsOf in *. simpl. rewrite IH.
  unfold Content, createStreamChunk. simpl. now destruct (nonEmpty t).
Qed.

Lemma lastFinish_snoc (xs : list StreamChunk) (c : StreamChunk) :
  lastFinish (xs ++ [c]) = finish_reason c.
Proof. unfold lastFinish. now rewrite rev_app_distr. Qed.

Lemma delta_Content (id mdl : jsstring) (texts : list jsstring) :
  map delta (map (Content id mdl) texts) = map (fun t => deltaOfText t) texts.
Proof.
  induction texts as [|t more IH]; [reflexivity|].
  simpl. rewrite IH. now destruct t.
Qed.

Lemma finish_Content (id mdl : jsstring) (texts : list jsstring) :
  map finish_reason (map (Content id mdl) texts) = map (fun _ => None) texts.
Proof. induction texts as [|t more IH]; [reflexivity|]. simpl. now rewrite IH. Qed.

Lemma labelled_Content (id mdl : jsstring) (texts : list jsstring) :
  Forall (fun c => chunk_id c = id /\ chunk_model c = mdl)
    (map (Content id mdl) texts).
Proof. induction texts; simpl; constructor; auto. Qed.

(** What a run of content chunks closed by an end chunk shows, field by
    field. *)
Lemma content_run_fields (id mdl reason : jsstring) (texts : list jsstring)
      (ys : list StreamChunk) :
  ys = map (Content id mdl) texts ++ [End_ id mdl reason] ->
  map delta ys = map (fun t => deltaOfText t) texts ++ [DeltaEmpty]
  /\ map finish_reason ys = map (fun _ => None) texts ++ [Some reason]
  /\ Forall (fun c => chunk_id c = id /\ chunk_model c = mdl) ys
  /\ contentText ys = concat texts
  /\ toolCallsOf ys = []
  /\ lastFinish ys = Some reason.
Proof.
  intros ->. repeat split.
  - now rewrite map_app, delta_Content.
  - now rewrite map_app, finish_Content.
  - apply Forall_app. split; [apply labelled_Content|].
    constructor; [now split|constructor].
  - rewrite contentText_app, contentText_Content, contentText_End.
    apply app_nil_r.
  - now rewrite toolCallsOf_app, toolCallsOf_Content.
  - apply lastFinish_snoc.
Qed.

(** On a round without a tool response a delta is either passed on at once
    or held back, and once one is held back all later ones are: the deltas
    split into those streamed and those buffered, each in arrival order. *)
Lemma consume_split :
  hasToolResponse su = false ->
  forall chunks st st' streamed,
    consume su request st chunks = (st', streamed) ->
    exists passed held,
      chunks = passed ++ held
      /\ streamed = map content passed
      /\ bufferedChunks st' = bufferedChunks st ++ held
      /\ fullResponse st' = fullResponse st ++ concat chunks
      /\ (toolCallDetected st = true -> passed = [] /\ toolCallDetected st' = true)
      /\ (toolCallDetected st' = false -> held = [])
      /\ (toolCallDetected st' = true -> toolCallDetected st = false -> held <> []).
Proof.
  intros Hround. induction chunks as [|chunk more IH]; intros st st' streamed H.
  - simpl in H. injection H as <- <-. exists [], [].
    rewrite !app_nil_r. repeat split; auto; congruence.
  - simpl in H.
    destruct (onChunk su request st chunk) as [st1 out1] eqn:Hstep.
    destruct (consume su request st1 more) as [st2 out2] eqn:Hrest.
    injection H as <- <-.
    destruct (IH _ _ _ Hrest) as (passed & held & Hm & Hs & Hb & Hf & Hd & Hn & Hh).
    unfold onChunk in Hstep. rewrite Hround in Hstep. simpl negb in Hstep. cbv iota in Hstep.
    destruct (toolCallDetected st) eqn:Hdet.
    + (* already buffering *)
      rewrite andb_false_r in Hstep. injection Hstep as <- <-.
      simpl in *. destruct (Hd eq_refl) as [-> Hst2].
      exists [], (chunk :: held). simpl in *. subst more.
      rewrite Hb, Hf, <- !app_assoc. simpl.
      repeat split; auto; congruence.
    + rewrite andb_true_r in Hstep.
      destruct (looksLikeToolCall (fullResponse st ++ chunk)) eqn:Hlooks;
        injection Hstep as <- <-; simpl in *.
      * (* this delta raises suspicion *)
        destruct (Hd eq_refl) as [-> Hst2].
        exists [], (chunk :: held). simpl in *. subst more.
        rewrite Hb, Hf, <- !app_assoc. simpl.
        repeat split; auto; congruence.
      * (* passed on *)
        exists (chunk :: passed), held. subst more out2. simpl.
        rewrite Hb, Hf, <- !app_assoc.
        repeat split; auto; congruence.
Qed.

(** What the detector yields when the stream has ended and extraction over
    the accumulated text finds no call. *)
Lemma detect_no_call (stream : Stream) (st' : DetectionState)
  (streamed : list StreamChunk) :
  hasToolResponse su = false ->
  failure stream = None ->
  consume su request initialDetection (deltas stream) = (st', streamed) ->
  extractToolCallFromResponse (toolConverter this) (fullResponse st') = Normal None ->
  fullResponse st' = concat (deltas stream)
  /\ (exists passed,
        deltas stream = passed ++ bufferedChunks st'
        /\ streamed = map content passed)
  /\ detect this su request stream
     = {| yielded := streamed ++ yielded (afterStream this su request st');
          ending := Normal tt |}
  /\ (toolCallDetected st' = true ->
      bufferedChunks st' <> []
      /\ yielded (afterStream this su request st')
         = map content (bufferedChunks st') ++ [stop])
  /\ (toolCallDetected st' = false ->
      bufferedChunks st' = []
      /\ yielded (afterStream this su request st') = [stop]).
Proof.
  intros Hround Hok Hrun Hnone.
  destruct (consume_split Hround _ _ Hrun)
    as (passed & held & Hm & Hs & Hb & Hf & _ & Hn & Hh).
  simpl in Hb, Hf. subst held.
  assert (Hafter : afterStream this su request st'
                   = {| yielded :=
                          (if toolCallDetected st'
                              && (0 <? length (bufferedChunks st'))%nat
                           then map content (bufferedChunks st') else [])
                          ++ [stop];
                        ending := Normal tt |}).
  { unfold afterStream. rewrite Hround, Hnone. reflexivity. }
  repeat split.
  - exact Hf.
  - exists passed. auto.
  - unfold detect. rewrite Hrun, Hok, Hafter. reflexivity.
  - apply Hh; auto.
  - rewrite Hafter. simpl. rewrite H.
    destruct (bufferedChunks st') eqn:Hbuf; [|reflexivity].
    exfalso. apply (Hh H eq_refl). reflexivity.
  - auto.
  - rewrite Hafter. simpl. now rewrite H.
Qed.

(** When no call is found, the Content text yielded is the accumulated text. *)
Lemma detect_no_call_content (stream : Stream) :
  hasToolResponse su = false ->
  failure stream = None ->
  extractToolCallFromResponse (toolConverter this) (concat (deltas stream))
  = Normal None ->
  contentText (yielded (detect this su request stream)) = concat (deltas stream).
Proof.
  intros Hround Hok Hnone.
  destruct (consume su request initialDetection (deltas stream))
    as [st' streamed] eqn:Hrun.
  destruct (consume_split Hround _ _ Hrun)
    as (passed & held & Hm & Hs & Hb & Hf & Hd & Hn & Hh).
  simpl in Hb, Hf. subst held.
  rewrite <- Hf in Hnone.
  destruct (detect_no_call stream Hround Hok Hrun Hnone)
    as (_ & _ & Hdet & Hon & Hoff).
  rewrite Hdet. simpl. rewrite contentText_app.
  destruct (toolCallDetected st') eqn:Hflag.
  - destruct (Hon eq_refl) as [_ ->].
    rewrite contentText_app, Hs. unfold content, stop.
    rewrite !contentText_Content, contentText_End, Hm, concat_app.
    now rewrite app_nil_r.
  - destruct (Hoff eq_refl) as [Hnil ->].
    rewrite Hs, Hm, Hnil. unfold content, stop.
    rewrite contentText_Content, contentText_End. now rewrite !app_nil_r.
Qed.

(** When the first delta already raises suspicion nothing is passed on, and
    a call found at the end is all that is yielded, after the text before it. *)
Lemma detect_call_from_first_delta (stream : Stream) (first : jsstring)
  (more : list jsstring) (call : ToolCall) :
  hasToolResponse su = false ->
  failure stream = None ->
  deltas stream = first :: more ->
  looksLikeToolCall first = true ->
  extractToolCallFromResponse (toolConverter this) (concat (deltas stream))
  = Normal (Some call) ->
  detect this su request stream
  = {| yielded :=
         (if meaningful (extractTextBeforeToolCall (toolConverter this)
                           (concat (deltas stream)))
          then [content (extractTextBeforeToolCall (toolConverter this)
                           (concat (deltas stream)))]
          else [])
         ++ [ToolCallEvent (conversationId su) (model request) call;
             End_ (conversationId su) (model request) (lit "tool_calls")];
       ending := Normal tt |}.
Proof.
  intros Hround Hok Hds Hlooks Hsome.
  destruct (consume su request initialDetection (deltas stream))
    as [st' streamed] eqn:Hrun.
  destruct (consume_split Hround _ _ Hrun)
    as (passed & held & Hm & Hs & Hb & Hf & Hd & Hn & Hh).
  simpl in Hb, Hf. subst held.
  (* the first delta is held back, so nothing is passed on *)
  assert (Hpassed : passed = []).
  { rewrite Hds in Hrun. simpl in Hrun.
    destruct (onChunk su request initialDetection first) as [st1 out1] eqn:Hstep.
    destruct (consume su request st1 more) as [st2 out2] eqn:Hrest.
    unfold onChunk in Hstep. rewrite Hround in Hstep. simpl in Hstep.
    rewrite Hlooks in Hstep. simpl in Hstep.
    injection Hstep as <- <-.
    pose proof (f_equal snd Hrun) as Hout. simpl in Hout.
    destruct (consume_split Hround _ _ Hrest)
      as (passed1 & held1 & Hm1 & Hs1 & _ & _ & Hd1 & _).
    destruct (Hd1 eq_refl) as [-> _]. simpl in Hs1.
    rewrite Hs1, Hs in Hout.
    destruct passed; [reflexivity|discriminate]. }
  subst passed. simpl in Hs. subst streamed.
  unfold detect. rewrite Hrun, Hok. simpl.
  unfold afterStream. rewrite Hround, Hf. simpl.
  rewrite Hsome. reflexivity.
Qed.

(** On a round with a tool response every delta is yielded at once as
    Content and nothing is buffered or examined. *)
Lemma finalization_passthrough :
  hasToolResponse su = true ->
  (forall st chunk,
      onChunk su request st chunk
      = ({| fullResponse := fullResponse st ++ chunk;
            toolCallDetected := toolCallDetected st;
            bufferedChunks := bufferedChunks st |}, [content chunk]))
  /\ (forall stream,
        failure stream = None ->
        detect this su request stream
        = {| yielded := map content (deltas stream) ++ [stop];
             ending := Normal tt |}).
Proof.
  intros Hround.
  assert (Hstep : forall st chunk,
             onChunk su request st chunk
             = ({| fullResponse := fullResponse st ++ chunk;
                   toolCallDetected := toolCallDetected st;
                   bufferedChunks := bufferedChunks st |}, [content chunk])).
  { intros st chunk. unfold onChunk. now rewrite Hround. }
  split; [exact Hstep|].
  intros stream Hok. unfold detect.
  assert (Hrun : forall chunks st,
             exists st', consume su request st chunks = (st', map content chunks)).
  { induction chunks as [|c cs IH]; intros st; simpl; [eauto|].
    rewrite Hstep. destruct (IH {| fullResponse := fullResponse st ++ c;
                                   toolCallDetected := toolCallDetected st;
                                   bufferedChunks := bufferedChunks st |})
      as [st' ->]. eauto. }
  destruct (Hrun (deltas stream) initialDetection) as [st' ->].
  rewrite Hok. unfold afterStream. rewrite Hround. reflexivity.
Qed.

End Detector.

(** ** The round loop *)

Lemma while_once {S R : Type} (fuel : nat) (cond : S -> bool) (body : S -> flow S R)
  (s : S) :
  (forall s0, exists s' r, body s0 = Exit s' r) ->
  while (Datatypes.S fuel) cond body s = while 1 cond body s.
Proof.
  intros Hexit. simpl. destruct (cond s); [|reflexivity].
  destruct (Hexit s) as (s' & r & ->). reflexivity.
Qed.

Section Rounds.
Variable this : ProxyHandler.
Variable b : Backend.
Variable request : ChatCompletionRequest.

Let su := setup this b request.
Let start := {| round := 0%Z; sent := [] |}.

(** A pass through either loop body leaves the function and does not touch
    the round counter. *)
Lemma requestRound_exits (s : Setup) (st : LoopState) :
  exists st' r, requestRound this b request s st = Exit st' r
                /\ round st' = round st.
Proof.
  unfold requestRound.
  destruct (prepareMessagesForTarget this (localMessages s)); eauto.
Qed.

Lemma streamingRound_exits (s : Setup) (st : LoopState) :
  exists st' g, streamingRound this b request s st = Exit st' g
                /\ round st' = round st.
Proof.
  unfold streamingRound.
  destruct (prepareMessagesForTarget this (localMessages s)); eauto.
Qed.

(** Both handlers in closed form, for any positive amount of fuel. *)
Lemma handleRequest_run (fuel : nat) :
  handleRequest (S fuel) this b request =
  Some
    (if underLimit this start then
       match prepareMessagesForTarget this (localMessages su) with
       | Normal payload =>
           {| locals := {| round := 0; sent := [payload] |};
              request_after := requestMessages su;
              result :=
                response <- callTargetLLM b payload request (localTools su)
                              (conversationId su) ;;
                answer this request su response |}
       | Throw err =>
           {| locals := start; request_after := requestMessages su;
              result := Throw err |}
       end
     else
       {| locals := start; request_after := requestMessages su;
          result := Throw (roundLimitExceeded this) |}).
Proof.
  unfold handleRequest. fold su. simpl while. fold start.
  destruct (underLimit this start); [|reflexivity].
  unfold requestRound.
  destruct (prepareMessagesForTarget this (localMessages su)); reflexivity.
Qed.

Lemma handleStreamingRequest_run (fuel : nat) :
  handleStreamingRequest (S fuel) this b request =
  Some
    (if underLimit this start then
       match prepareMessagesForTarget this (localMessages su) with
       | Normal payload =>
           {| locals := {| round := 0; sent := [payload] |};
              request_after := requestMessages su;
              result :=
                detect this su request
                  (streamTargetLLM b payload request (conversationId su)) |}
       | Throw err =>
           {| locals := start; request_after := requestMessages su;
              result := {| yielded := []; ending := Throw err |} |}
       end
     else
       {| locals := start; request_after := requestMessages su;
          result := {| yielded := [];
                       ending := Throw (roundLimitExceeded this) |} |}).
Proof.
  unfold handleStreamingRequest. fold su. simpl while. fold start.
  destruct (underLimit this start); [|reflexivity].
  unfold streamingRound.
  destruct (prepareMessagesForTarget this (localMessages su)); reflexivity.
Qed.

(** The injection step is skipped when there is nothing to inject or the
    conversation already holds a tool result. *)
Lemma setup_without_injection :
  shouldInjectTools su = false ->
  localMessages su = messages request /\ requestMessages su = messages request.
Proof.
  unfold su, setup; simpl. intros ->. auto.
Qed.

(** C9, as the code has it.  The loop guard is [round < maxRounds], with
    [maxRounds] the configured maximum or 10 when it is unset (or 0).  A pass
    through the body of either loop always leaves the function, by a return
    or by an error thrown out of a call, and never changes the round counter:
    so the body runs at most once, the counter is 0 throughout, at most one
    request goes to the backend, and any positive amount of fuel gives the
    same result.  When the guard fails at entry the RoundLimitExceeded error
    is thrown and nothing is sent or yielded. *)
Theorem round_loop_single_pass (fuel : nat) (cfg : ProxyConfig) (e : Entropy) :
  (maxRounds (config (new cfg e)) = Some (maxRoundsOrDefault (maxRounds cfg))
   /\ maxRoundsOrDefault None = 10%Z
   /\ maxRoundsOrDefault (Some 0%Z) = 10%Z
   /\ underLimit (new cfg e) start = (0 <? maxRoundsOrDefault (maxRounds cfg))%Z)
  /\ (forall s st, exists st' r,
         requestRound this b request s st = Exit st' r /\ round st' = round st)
  /\ (forall s st, exists st' g,
         streamingRound this b request s st = Exit st' g /\ round st' = round st)
  /\ handleRequest (S fuel) this b request = handleRequest 1 this b request
  /\ handleStreamingRequest (S fuel) this b request
     = handleStreamingRequest 1 this b request
  /\ (exists o,
         handleRequest (S fuel) this b request = Some o
         /\ round (locals o) = 0%Z
         /\ (length (sent (locals o)) <= 1)%nat
         /\ (underLimit this start = false ->
             sent (locals o) = []
             /\ result o = Throw (roundLimitExceeded this)))
  /\ (exists o,
         handleStreamingRequest (S fuel) this b request = Some o
         /\ round (locals o) = 0%Z
         /\ (length (sent (locals o)) <= 1)%nat
         /\ (underLimit this start = false ->
             sent (locals o) = []
             /\ result o = {| yielded := [];
                              ending := Throw (roundLimitExceeded this) |})).
Proof.
  split; [|split; [|split; [|split; [|split; [|split]]]]].
  - repeat split.
  - intros s st. apply requestRound_exits.
  - intros s st. apply streamingRound_exits.
  - now rewrite !handleRequest_run.
  - now rewrite !handleStreamingRequest_run.
  - rewrite handleRequest_run. eexists; split; [reflexivity|].
    destruct (underLimit this start).
    + destruct (prepareMessagesForTarget this (localMessages su)); simpl;
        repeat split; auto; discriminate.
    + simpl. repeat split; auto.
  - rewrite handleStreamingRequest_run. eexists; split; [reflexivity|].
    destruct (underLimit this start).
    + destruct (prepareMessagesForTarget this (localMessages su)); simpl;
        repeat split; auto; discriminate.
    + simpl. repeat split; auto.
Qed.

(** C6. For the empty tool list, and for a missing one, the prompt compiler
    returns the empty string; and the orchestrator, whatever its converter
    would return, skips the injection: the conversation it works on and the
    request's own messages are the ones it was given, and what goes to the
    backend is prepared from exactly those. *)
Theorem empty_tools_leave_conversation_alone :
  ToolConverter.convertToolsToSystemPrompt (Some []) = []
  /\ ToolConverter.convertToolsToSystemPrompt None = []
  /\ (tools request = None \/ tools request = Some [] ->
      shouldInjectTools su = false
      /\ localMessages su = messages request
      /\ requestMessages su = messages request
      /\ (forall fuel o,
            handleRequest fuel this b request = Some o ->
            request_after o = messages request
            /\ forall payload, In payload (sent (locals o)) ->
                 prepareMessagesForTarget this (messages request) = Normal payload)
      /\ (forall fuel o,
            handleStreamingRequest fuel this b request = Some o ->
            request_after o = messages request
            /\ forall payload, In payload (sent (locals o)) ->
                 prepareMessagesForTarget this (messages request) = Normal payload)).
Proof.
  split; [reflexivity|]. split; [reflexivity|].
  intros Hnone.
  assert (Hskip : shouldInjectTools su = false).
  { unfold su, setup; simpl. destruct Hnone as [-> | ->]; reflexivity. }
  destruct (setup_without_injection Hskip) as [Hlocal Hreq].
  split; [exact Hskip|]. split; [exact Hlocal|]. split; [exact Hreq|].
  split; intros [|fuel] o Hrun; try discriminate.
  - rewrite handleRequest_run, Hlocal, Hreq in Hrun.
    destruct (underLimit this start);
      [destruct (prepareMessagesForTarget this (messages request))|];
      injection Hrun as <-; simpl; (split; [reflexivity|]); try tauto.
    intros payload [<- | []]. reflexivity.
  - rewrite handleStreamingRequest_run, Hlocal, Hreq in Hrun.
    destruct (underLimit this start);
      [destruct (prepareMessagesForTarget this (messages request))|];
      injection Hrun as <-; simpl; (split; [reflexivity|]); try tauto.
    intros payload [<- | []]. reflexivity.
Qed.

(** A round that answers a tool result, in terms of the chunks and the
    response the handlers build. *)
Lemma finalization_round_run (fuel : nat) (n : Z) (payload : list Message) :
  existsb isTool (messages request) = true ->
  maxRounds (config this) = Some n ->
  (0 < n)%Z ->
  prepareMessagesForTarget this (messages request) = Normal payload ->
  shouldInjectTools su = false
  /\ localMessages su = messages request
  /\ requestMessages su = messages request
  /\ handleRequest (S fuel) this b request
     = Some {| locals := {| round := 0; sent := [payload] |};
               request_after := messages request;
               result :=
                 response <- callTargetLLM b payload request (localTools su)
                               (uuidv4 b) ;;
                 Normal (createCompletionResponse (uuidv4 b) response
                           (model request)) |}
  /\ (forall st chunk,
        onChunk su request st chunk
        = ({| fullResponse := fullResponse st ++ chunk;
              toolCallDetected := toolCallDetected st;
              bufferedChunks := bufferedChunks st |},
           [Content (uuidv4 b) (model request) chunk]))
  /\ (failure (streamTargetLLM b payload request (uuidv4 b)) = None ->
      handleStreamingRequest (S fuel) this b request
      = Some {| locals := {| round := 0; sent := [payload] |};
                request_after := messages request;
                result :=
                  {| yielded :=
                       map (Content (uuidv4 b) (model request))
                         (deltas (streamTargetLLM b payload request (uuidv4 b)))
                       ++ [End_ (uuidv4 b) (model request) (lit "stop")];
                     ending := Normal tt |} |}).
Proof.
  intros Htool Hmax Hpos Hprep.
  assert (Hround : hasToolResponse su = true) by exact Htool.
  assert (Hskip : shouldInjectTools su = false).
  { unfold su, setup; simpl. rewrite Htool. apply andb_false_r. }
  destruct (setup_without_injection Hskip) as [Hlocal Hreq].
  assert (Hid : conversationId su = uuidv4 b) by reflexivity.
  assert (Hunder : underLimit this start = true).
  { unfold underLimit. rewrite Hmax. simpl. now apply Z.ltb_lt. }
  destruct (finalization_passthrough this su request Hround) as [Hstep Hall].
  rewrite Hid in Hstep, Hall.
  repeat split; auto.
  - rewrite handleRequest_run, Hunder, Hlocal, Hreq, Hprep, Hid.
    unfold answer. rewrite Hround. reflexivity.
  - intros Hok.
    rewrite handleStreamingRequest_run, Hunder, Hlocal, Hreq, Hprep, Hid.
    now rewrite (Hall _ Hok).
Qed.

(** C7. When the conversation holds a tool-role message then, whatever the
    tool list and whatever the converter's prompt compiler and extractor
    would do, nothing is injected (the messages worked on, the request's
    own messages and the payload sent are those of the request).  The
    non-streaming reply comes back as a plain completion without
    extraction: its content is the reply, it carries no tool call and its
    finish reason is "stop".  In the streaming path each delta is yielded at
    once with nothing buffered: one chunk per delta, carrying that delta as
    content and no finish reason, and then one last chunk without content
    whose finish reason is "stop"; no chunk carries a tool call. *)
Theorem finalization_round_skips_tools (fuel : nat) (n : Z) (payload : list Message) :
  existsb isTool (messages request) = true ->
  maxRounds (config this) = Some n ->
  (0 < n)%Z ->
  prepareMessagesForTarget this (messages request) = Normal payload ->
  shouldInjectTools su = false
  /\ localMessages su = messages request
  /\ requestMessages su = messages request
  /\ (exists o,
        handleRequest (S fuel) this b request = Some o
        /\ locals o = {| round := 0; sent := [payload] |}
        /\ request_after o = messages request
        /\ match callTargetLLM b payload request (localTools su) (uuidv4 b) with
           | Normal reply =>
               exists r,
                 result o = Normal r
                 /\ resp_id r = uuidv4 b
                 /\ resp_model r = model request
                 /\ resp_content r = Some reply
                 /\ resp_tool_calls r = None
                 /\ resp_finish_reason r = lit "stop"
           | Throw err => result o = Throw err
           end)
  /\ (forall st chunk,
        fst (onChunk su request st chunk)
        = {| fullResponse := fullResponse st ++ chunk;
             toolCallDetected := toolCallDetected st;
             bufferedChunks := bufferedChunks st |}
        /\ map delta (snd (onChunk su request st chunk)) = [deltaOfText chunk]
        /\ map finish_reason (snd (onChunk su request st chunk)) = [None]
        /\ map chunk_id (snd (onChunk su request st chunk)) = [uuidv4 b]
        /\ map chunk_model (snd (onChunk su request st chunk)) = [model request])
  /\ (failure (streamTargetLLM b payload request (uuidv4 b)) = None ->
      exists o,
        handleStreamingRequest (S fuel) this b request = Some o
        /\ locals o = {| round := 0; sent := [payload] |}
        /\ request_after o = messages request
        /\ ending (result o) = Normal tt
        /\ map delta (yielded (result o))
           = map (fun t => deltaOfText t)
               (deltas (streamTargetLLM b payload request (uuidv4 b)))
             ++ [DeltaEmpty]
        /\ map finish_reason (yielded (result o))
           = map (fun _ => None)
               (deltas (streamTargetLLM b payload request (uuidv4 b)))
             ++ [Some (lit "stop")]
        /\ Forall (fun c => chunk_id c = uuidv4 b /\ chunk_model c = model request)
             (yielded (result o))
        /\ contentText (yielded (result o))
           = concat (deltas (streamTargetLLM b payload request (uuidv4 b)))
        /\ toolCallsOf (yielded (result o)) = []
        /\ lastFinish (yielded (result o)) = Some (lit "stop")).
Proof.
  intros Htool Hmax Hpos Hprep.
  destruct (finalization_round_run fuel Htool Hmax Hpos Hprep)
    as (Hskip & Hlocal & Hreq & Hplain & Hstep & Hstream).
  split; [exact Hskip|]. split; [exact Hlocal|]. split; [exact Hreq|].
  split; [|split].
  - rewrite Hplain. eexists. split; [reflexivity|]. cbn [locals request_after result].
    split; [reflexivity|]. split; [reflexivity|].
    destruct (callTargetLLM b payload request (localTools su) (uuidv4 b))
      as [reply|err]; cbn [bind]; [|reflexivity].
    eexists. split; [reflexivity|]. repeat split.
  - intros st chunk. rewrite Hstep. cbn [fst snd map].
    split; [reflexivity|]. repeat split. now destruct chunk.
  - intros Hok. rewrite (Hstream Hok). eexists. split; [reflexivity|].
    cbn [locals request_after result yielded ending].
    split; [reflexivity|]. split; [reflexivity|]. split; [reflexivity|].
    now apply content_run_fields.
Qed.

End Rounds.

(** ** Preparing the payload *)

Section Prepare.
Variable this : ProxyHandler.

(** A message can be rewritten for the backend unless it carries an empty
    [tool_calls] array and no content: [tool_calls[0]] is then [undefined]. *)
Lemma prepareMessage_ok (m : Message) :
  msg_tool_calls m <> Some [] ->
  exists m', prepareMessage this m = Normal m'.
Proof.
  intros Hcalls. unfold prepareMessage.
  destruct (isTool m); [eauto|].
  destruct (msg_tool_calls m) as [[|c calls]|]; [congruence| |eauto].
  destruct (truthyStr (msg_content m)); simpl; eauto.
Qed.

Lemma prepareMessagesForTarget_ok (msgs : list Message) :
  Forall (fun m => msg_tool_calls m <> Some []) msgs ->
  exists payload, prepareMessagesForTarget this msgs = Normal payload.
Proof.
  induction 1 as [|m msgs Hm _ IH]; simpl; [eauto|].
  destruct (prepareMessage_ok m Hm) as [m' ->].
  destruct IH as [payload ->]. simpl. eauto.
Qed.

Lemma amendFirstSystem_calls (msgs msgs' : list Message) (prompt : jsstring) :
  amendFirstSystem msgs prompt = Some msgs' ->
  Forall (fun m => msg_tool_calls m <> Some []) msgs ->
  Forall (fun m => msg_tool_calls m <> Some []) msgs'.
Proof.
  revert msgs'. induction msgs as [|m msgs IH]; intros msgs' H Hall; simpl in H.
  - discriminate.
  - inversion Hall as [|? ? Hm Hrest]; subst.
    destruct (isSystem m).
    + injection H as <-. constructor; auto.
    + destruct (amendFirstSystem msgs prompt) as [more'|]; [|discriminate].
      injection H as <-. constructor; auto.
Qed.

Lemma setup_prepares (b : Backend) (request : ChatCompletionRequest) :
  Forall (fun m => msg_tool_calls m <> Some []) (messages request) ->
  exists payload,
    prepareMessagesForTarget this (localMessages (setup this b request))
    = Normal payload.
Proof.
  intros Hall. apply prepareMessagesForTarget_ok.
  unfold setup; simpl.
  destruct (_ && _); [|exact Hall]. unfold injectToolSystemPrompt.
  destruct (amendFirstSystem (messages request) _) as [msgs'|] eqn:Ham; simpl.
  - eapply amendFirstSystem_calls; eauto.
  - constructor; [discriminate|exact Hall].
Qed.

End Prepare.

(** ** Claims about the streaming path *)

(** The call split over three deltas, in terms of the chunks the handler
    builds. *)
Lemma fragmented_call_run (cfg : ProxyConfig) (e : Entropy) (b : Backend)
  (request : ChatCompletionRequest) (fuel : nat) :
  existsb isTool (messages request) = false ->
  (0 < maxRoundsOrDefault (maxRounds cfg))%Z ->
  Forall (fun m => msg_tool_calls m <> Some []) (messages request) ->
  (forall payload id,
      streamTargetLLM b payload request id
      = {| deltas := Scenario.fragments; failure := None |}) ->
  exists o,
    handleStreamingRequest (S fuel) (new cfg e) b request = Some o
    /\ result o
       = {| yielded :=
              [ToolCallEvent (uuidv4 b) (model request)
                 {| tc_id := ToolConverter.freshId e;
                    tc_type := lit "function";
                    tc_function := {| fn_name := Val (JString (lit "x"));
                                      fn_arguments := lit "{}" |} |};
               End_ (uuidv4 b) (model request) (lit "tool_calls")];
            ending := Normal tt |}.
Proof.
  intros Hround Hpos Hall Hstream.
  rewrite handleStreamingRequest_run.
  assert (Hunder : underLimit (new cfg e) {| round := 0; sent := [] |} = true).
  { unfold underLimit; simpl. now apply Z.ltb_lt. }
  rewrite Hunder.
  destruct (setup_prepares (new cfg e) b request Hall) as [payload ->].
  eexists; split; [reflexivity|]. simpl result.
  rewrite Hstream.
  rewrite (@detect_call_from_first_delta (new cfg e) (setup (new cfg e) b request)
             request _ (jq "{'function")
             [jq "_call':{'name':'x',"; jq "'arguments':{}}}"]
             {| tc_id := ToolConverter.freshId e;
                tc_type := lit "function";
                tc_function := {| fn_name := Val (JString (lit "x"));
                                  fn_arguments := lit "{}" |} |}).
  - reflexivity.
  - exact Hround.
  - reflexivity.
  - reflexivity.
  - vm_compute. reflexivity.
  - vm_compute. reflexivity.
Qed.

(** C2. With no tool-role message in the conversation, a positive round
    budget and a conversation that can be sent as it is, a backend that
    streams the three deltas [{"function], [_call":{"name":"x",] and
    ["arguments":{}}}] makes the streaming handler yield exactly two chunks
    and return.  The first chunk carries one tool call, of type "function",
    with the name "x" and the arguments text "{}", and no finish reason; the
    second carries nothing and has the finish reason "tool_calls".  No chunk
    carries content. *)
Theorem fragmented_call_is_detected (cfg : ProxyConfig) (e : Entropy) (b : Backend)
  (request : ChatCompletionRequest) (fuel : nat) :
  existsb isTool (messages request) = false ->
  (0 < maxRoundsOrDefault (maxRounds cfg))%Z ->
  Forall (fun m => msg_tool_calls m <> Some []) (messages request) ->
  (forall payload id,
      streamTargetLLM b payload request id
      = {| deltas := Scenario.fragments; failure := None |}) ->
  exists o,
    handleStreamingRequest (S fuel) (new cfg e) b request = Some o
    /\ ending (result o) = Normal tt
    /\ map delta (yielded (result o))
       = [DeltaToolCalls
            [{| tc_id := ToolConverter.freshId e;
                tc_type := lit "function";
                tc_function := {| fn_name := Val (JString (lit "x"));
                                  fn_arguments := lit "{}" |} |}];
          DeltaEmpty]
    /\ map finish_reason (yielded (result o)) = [None; Some (lit "tool_calls")]
    /\ map chunk_id (yielded (result o)) = [uuidv4 b; uuidv4 b]
    /\ map chunk_model (yielded (result o)) = [model request; model request]
    /\ contentText (yielded (result o)) = []
    /\ toolCallsOf (yielded (result o))
       = [{| tc_id := ToolConverter.freshId e;
             tc_type := lit "function";
             tc_function := {| fn_name := Val (JString (lit "x"));
                               fn_arguments := lit "{}" |} |}]
    /\ lastFinish (yielded (result o)) = Some (lit "tool_calls").
Proof.
  intros Hround Hpos Hall Hstream.
  destruct (fragmented_call_run cfg e b request fuel Hround Hpos Hall Hstream)
    as (o & Hrun & Hresult).
  exists o. split; [exact Hrun|]. rewrite Hresult.
  repeat split.
Qed.

(** The replay after a false alarm, in terms of the chunks the handler
    builds. *)
Lemma false_positive_run (this : ProxyHandler) (b : Backend)
  (request : ChatCompletionRequest) (fuel : nat) (n : Z) (payload : list Message)
  (st' : DetectionState) (streamed : list StreamChunk) :
  existsb isTool (messages request) = false ->
  maxRounds (config this) = Some n ->
  (0 < n)%Z ->
  prepareMessagesForTarget this (localMessages (setup this b request))
  = Normal payload ->
  failure (streamTargetLLM b payload request (uuidv4 b)) = None ->
  consume (setup this b request) request initialDetection
    (deltas (streamTargetLLM b payload request (uuidv4 b))) = (st', streamed) ->
  extractToolCallFromResponse (toolConverter this) (fullResponse st') = Normal None ->
  fullResponse st' = concat (deltas (streamTargetLLM b payload request (uuidv4 b)))
  /\ exists passed,
       deltas (streamTargetLLM b payload request (uuidv4 b))
       = passed ++ bufferedChunks st'
       /\ streamed = map (Content (uuidv4 b) (model request)) passed
       /\ (toolCallDetected st' = true ->
           bufferedChunks st' <> []
           /\ yielded (afterStream this (setup this b request) request st')
              = map (Content (uuidv4 b) (model request)) (bufferedChunks st')
                ++ [End_ (uuidv4 b) (model request) (lit "stop")])
       /\ (toolCallDetected st' = false ->
           bufferedChunks st' = []
           /\ yielded (afterStream this (setup this b request) request st')
              = [End_ (uuidv4 b) (model request) (lit "stop")])
       /\ exists o,
            handleStreamingRequest (S fuel) this b request = Some o
            /\ yielded (result o)
               = map (Content (uuidv4 b) (model request))
                   (deltas (streamTargetLLM b payload request (uuidv4 b)))
                 ++ [End_ (uuidv4 b) (model request) (lit "stop")]
            /\ ending (result o) = Normal tt.
Proof.
  intros Hround Hmax Hpos Hprep Hok Hrun Hnone.
  assert (Hround' : hasToolResponse (setup this b request) = false) by exact Hround.
  destruct (detect_no_call this (setup this b request) request _ Hround' Hok Hrun Hnone)
    as (Hfull & (passed & Hsplit & Hstreamed) & Hdetect & Hon & Hoff).
  split; [exact Hfull|]. exists passed.
  split; [exact Hsplit|]. split; [exact Hstreamed|].
  split; [exact Hon|]. split; [exact Hoff|].
  rewrite handleStreamingRequest_run.
  assert (Hunder : underLimit this {| round := 0; sent := [] |} = true).
  { unfold underLimit. rewrite Hmax. simpl. now apply Z.ltb_lt. }
  rewrite Hunder, Hprep. eexists. split; [reflexivity|]. simpl result.
  change (conversationId (setup this b request)) with (uuidv4 b).
  rewrite Hdetect. simpl. split; [|reflexivity].
  rewrite Hstreamed.
  change (conversationId (setup this b request)) with (uuidv4 b) in *.
  destruct (toolCallDetected st').
  - destruct (Hon eq_refl) as [_ ->].
    rewrite app_assoc, <- map_app, <- Hsplit. reflexivity.
  - destruct (Hoff eq_refl) as [Hnil ->].
    rewrite Hnil, app_nil_r in Hsplit. rewrite Hsplit. reflexivity.
Qed.

(** C8. In the streaming path of a round without a tool response, when the
    stream ends and extraction over the accumulated text finds no call: the
    deltas split, in arrival order, into those streamed at once and those
    buffered, and each streamed one went out as a chunk with that delta as
    content.  If the detector entered Suspect mode, the buffer is not empty
    and, at exhaustion, every buffered delta is yielded in that order, one
    chunk each with the delta as its content and no finish reason, and then
    a chunk without content whose finish reason is "stop"; if it never left
    Passthrough, only that last chunk is yielded at exhaustion.  Either way
    the handler has yielded each delta once, in order, as content, the
    "stop" chunk last, and no tool call. *)
Theorem false_positive_replay (this : ProxyHandler) (b : Backend)
  (request : ChatCompletionRequest) (fuel : nat) (n : Z) (payload : list Message)
  (st' : DetectionState) (streamed : list StreamChunk) :
  existsb isTool (messages request) = false ->
  maxRounds (config this) = Some n ->
  (0 < n)%Z ->
  prepareMessagesForTarget this (localMessages (setup this b request))
  = Normal payload ->
  failure (streamTargetLLM b payload request (uuidv4 b)) = None ->
  consume (setup this b request) request initialDetection
    (deltas (streamTargetLLM b payload request (uuidv4 b))) = (st', streamed) ->
  extractToolCallFromResponse (toolConverter this) (fullResponse st') = Normal None ->
  fullResponse st' = concat (deltas (streamTargetLLM b payload request (uuidv4 b)))
  /\ exists passed,
       deltas (streamTargetLLM b payload request (uuidv4 b))
       = passed ++ bufferedChunks st'
       /\ map delta streamed = map (fun t => deltaOfText t) passed
       /\ map finish_reason streamed = map (fun _ => None) passed
       /\ (toolCallDetected st' = true ->
           bufferedChunks st' <> []
           /\ map delta (yielded (afterStream this (setup this b request) request st'))
              = map (fun t => deltaOfText t) (bufferedChunks st') ++ [DeltaEmpty]
           /\ map finish_reason
                (yielded (afterStream this (setup this b request) request st'))
              = map (fun _ => None) (bufferedChunks st') ++ [Some (lit "stop")]
           /\ contentText
                (yielded (afterStream this (setup this b request) request st'))
              = concat (bufferedChunks st'))
       /\ (toolCallDetected st' = false ->
           bufferedChunks st' = []
           /\ map delta (yielded (afterStream this (setup this b request) request st'))
              = [DeltaEmpty]
           /\ map finish_reason
                (yielded (afterStream this (setup this b request) request st'))
              = [Some (lit "stop")])
       /\ exists o,
            handleStreamingRequest (S fuel) this b request = Some o
            /\ ending (result o) = Normal tt
            /\ map delta (yielded (result o))
               = map (fun t => deltaOfText t)
                   (deltas (streamTargetLLM b payload request (uuidv4 b)))
                 ++ [DeltaEmpty]
            /\ map finish_reason (yielded (result o))
               = map (fun _ => None)
                   (deltas (streamTargetLLM b payload request (uuidv4 b)))
                 ++ [Some (lit "stop")]
            /\ Forall (fun c => chunk_id c = uuidv4 b
                                /\ chunk_model c = model request)
                 (yielded (result o))
            /\ contentText (yielded (result o))
               = concat (deltas (streamTargetLLM b payload request (uuidv4 b)))
            /\ toolCallsOf (yielded (result o)) = []
            /\ lastFinish (yielded (result o)) = Some (lit "stop").
Proof.
  intros Hround Hmax Hpos Hprep Hok Hrun Hnone.
  destruct (false_positive_run this b request fuel Hround Hmax Hpos Hprep Hok
              Hrun Hnone)
    as (Hfull & passed & Hsplit & Hstreamed & Hon & Hoff & o & Ho & Hyield & Hend).
  split; [exact Hfull|]. exists passed. split; [exact Hsplit|].
  split; [rewrite Hstreamed; apply delta_Content|].
  split; [rewrite Hstreamed; apply finish_Content|].
  split; [|split].
  - intros Hdet. destruct (Hon Hdet) as [Hne Hreplay].
    split; [exact Hne|].
    apply content_run_fields in Hreplay as (Hd & Hf & _ & Ht & _).
    now repeat split.
  - intros Hdet. destruct (Hoff Hdet) as [Hnil Hreplay].
    split; [exact Hnil|]. rewrite Hreplay. now split.
  - exists o. split; [exact Ho|]. split; [exact Hend|].
    now apply content_run_fields.
Qed.

Section StreamingClaims.
Variable this : ProxyHandler.
Variable su : Setup.
Variable request : ChatCompletionRequest.


End StreamingClaims.

(** ** Concrete runs *)



(** C4, counterexample.  A candidate whose [name] is the number 5 is
    accepted, and the call carries the number as its name; and a candidate
    whose [arguments] is [null] gives the arguments text "{}", not the
    serialization of [null]. *)
Lemma numeric_name_is_accepted :
  ToolConverter.extractToolCallFromResponse Scenario.entropy Scenario.numericName
  = Normal (Some {| tc_id := ToolConverter.freshId Scenario.entropy;
                    tc_type := lit "function";
                    tc_function :=
                      {| fn_name :=
                           Val (JNumber (toDouble {| negative := false;
                                                     significand := 5;
                                                     exponent := 0 |}));
                         fn_arguments := lit "{}" |} |})
  /\ ToolConverter.extractToolCallFromResponse Scenario.entropy
       Scenario.nullArguments
     = Normal (Some {| tc_id := ToolConverter.freshId Scenario.entropy;
                       tc_type := lit "function";
                       tc_function := {| fn_name := Val (JString (lit "x"));
                                         fn_arguments := lit "{}" |} |})
  /\ JSON.stringify JNull = lit "null".
Proof. repeat split; vm_compute; reflexivity. Qed.

(** Number literals in a candidate are read as doubles.  A name that is
    too small for a double is the number 0, which is falsy, and no call is
    returned; an argument beyond the largest double is Infinity and is
    written back as [null]; an integer of twenty digits comes back rounded;
    and a fraction comes back in its shortest form. *)
Example number_literals_are_rounded :
  ToolConverter.extractToolCallFromResponse Scenario.entropy
    (jq "{'function_call':{'name':1e-400}}") = Normal None
  /\ (forall literal written,
        In (literal, written)
          [(lit "1e400", lit "null");
           (lit "12345678901234567890", lit "12345678901234567000");
           (lit "0.10", lit "0.1");
           (lit "-0", lit "0");
           (lit "100e-2", lit "1");
           (lit "5e-324", lit "5e-324");
           (lit "2e-324", lit "0");
           (lit "123456789012345678901234", lit "1.2345678901234569e+23")] ->
        ToolConverter.extractToolCallFromResponse Scenario.entropy
          (jq "{'function_call':{'name':'x','arguments':" ++ literal ++ lit "}}")
        = Normal (Some {| tc_id := ToolConverter.freshId Scenario.entropy;
                          tc_type := lit "function";
                          tc_function :=
                            {| fn_name := Val (JString (lit "x"));
                               fn_arguments :=
                                 if truthy (match JSON.parse literal with
                                            | Normal v => Val v
                                            | Throw _ => Undefined
                                            end)
                                 then written else lit "{}" |} |})).
Proof.
  split; [vm_compute; reflexivity|].
  intros literal written Hin.
  repeat (destruct Hin as [[= <- <-]|Hin]; [vm_compute; reflexivity|]).
  destruct Hin.
Qed.

(** C9, counterexample.  A request answered in one round: the loop body ran
    (one request went to the backend, the answer came back) and the round
    counter is still 0 when the handler returns. *)
Lemma round_counter_stays_zero :
  exists o,
    handleRequest 1 Scenario.handler (Scenario.replying Scenario.sunny)
      Scenario.question = Some o
    /\ length (sent (locals o)) = 1%nat
    /\ result o
       = Normal (createCompletionResponse
                   (uuidv4 (Scenario.replying Scenario.sunny))
                   (lit "Sunny, 21 degrees.") (lit "llama3"))
    /\ round (locals o) = 0%Z
    /\ round (locals o) <> 1%Z.
Proof.
  eexists. split; [vm_compute; reflexivity|].
  repeat split; try (vm_compute; reflexivity). discriminate.
Qed.

(** ** The theorems at concrete inputs *)

(** C5 on the sentence with blanks around it. *)
Lemma sentinel_short_circuits_witness :
  trim Scenario.narration = ToolConverter.sentinel1
  /\ ToolConverter.extractToolCallFromResponse Scenario.entropy Scenario.narration
     = Normal None.
Proof.
  split; [vm_compute; reflexivity|].
  apply sentinel_short_circuits. left. vm_compute. reflexivity.
Defined.

(** C10 on a code block whose inside is not JSON. *)
Lemma extractor_never_throws_witness :
  ToolConverter.selectCandidate Scenario.invalidBlock
  = Some (lit "invalid json content")
  /\ JSON.parse (lit "invalid json content") = Throw SyntaxError
  /\ ToolConverter.extractToolCallFromResponse Scenario.entropy Scenario.invalidBlock
     = Normal None.
Proof.
  split; [vm_compute; reflexivity|]. split; [vm_compute; reflexivity|].
  apply (proj2 (extractor_never_throws Scenario.entropy Scenario.invalidBlock)
           (lit "invalid json content") SyntaxError);
    vm_compute; reflexivity.
Defined.

(** C4 on the get_weather call for Paris. *)
Lemma extractor_accepts_truthy_name_witness :
  ToolConverter.selectCandidate Scenario.weatherCall = Some Scenario.weatherCall
  /\ ToolConverter.extractToolCallFromResponse Scenario.entropy Scenario.weatherCall
     = Normal (Some {| tc_id := ToolConverter.freshId Scenario.entropy;
                       tc_type := lit "function";
                       tc_function :=
                         {| fn_name := Val (JString (lit "get_weather"));
                            fn_arguments := jq "{'location':'Paris'}" |} |}).
Proof.
  split; [vm_compute; reflexivity|].
  rewrite (proj1 (@extractor_accepts_truthy_name Scenario.entropy
                    Scenario.weatherCall Scenario.weatherCall
                    (JObject [(lit "function_call",
                               JObject [(lit "name", JString (lit "get_weather"));
                                        (lit "arguments",
                                         JObject [(lit "location",
                                                   JString (lit "Paris"))])])])
                    ltac:(vm_compute; reflexivity) ltac:(vm_compute; reflexivity))).
  vm_compute. reflexivity.
Defined.

(** C2 with the default configuration and a first request. *)
Lemma fragmented_call_is_detected_witness :
  exists o,
    handleStreamingRequest 1 Scenario.handler (Scenario.replying Scenario.fragments)
      Scenario.question = Some o
    /\ ending (result o) = Normal tt
    /\ map delta (yielded (result o))
       = [DeltaToolCalls
            [{| tc_id := ToolConverter.freshId Scenario.entropy;
                tc_type := lit "function";
                tc_function := {| fn_name := Val (JString (lit "x"));
                                  fn_arguments := lit "{}" |} |}];
          DeltaEmpty]
    /\ map finish_reason (yielded (result o)) = [None; Some (lit "tool_calls")]
    /\ contentText (yielded (result o)) = [].
Proof.
  destruct (fragmented_call_is_detected Scenario.defaults Scenario.entropy
              (Scenario.replying Scenario.fragments) Scenario.question 0)
    as (o & Hrun & Hend & Hdelta & Hfinish & _ & _ & Htext & _).
  - reflexivity.
  - reflexivity.
  - repeat constructor; discriminate.
  - reflexivity.
  - exists o. repeat split; assumption.
Defined.

(** C6 on a request with a system message and an empty tool list. *)
Lemma empty_tools_leave_conversation_alone_witness :
  tools Scenario.questionNoTools = Some []
  /\ localMessages (setup Scenario.handler (Scenario.replying Scenario.sunny)
                      Scenario.questionNoTools)
     = messages Scenario.questionNoTools
  /\ requestMessages (setup Scenario.handler (Scenario.replying Scenario.sunny)
                        Scenario.questionNoTools)
     = messages Scenario.questionNoTools.
Proof.
  split; [reflexivity|].
  destruct (proj2 (proj2 (empty_tools_leave_conversation_alone Scenario.handler
                            (Scenario.replying Scenario.sunny)
                            Scenario.questionNoTools))
              (or_intror eq_refl))
    as (_ & Hlocal & Hreq & _).
  split; assumption.
Defined.

(** C7 on a follow-up request whose reply is, word for word, a tool call:
    it comes back as plain content. *)
Lemma finalization_round_skips_tools_witness :
  existsb isTool (messages Scenario.followUp) = true
  /\ tools Scenario.followUp = Some [Scenario.get_weather]
  /\ (exists o r,
        handleRequest 1 Scenario.handler (Scenario.replying [Scenario.callX])
          Scenario.followUp = Some o
        /\ sent (locals o) = [Scenario.followUpPayload]
        /\ result o = Normal r
        /\ resp_content r = Some Scenario.callX
        /\ resp_tool_calls r = None
        /\ resp_finish_reason r = lit "stop")
  /\ (exists o,
        handleStreamingRequest 1 Scenario.handler
          (Scenario.replying [Scenario.callX]) Scenario.followUp = Some o
        /\ map delta (yielded (result o)) = [DeltaContent Scenario.callX; DeltaEmpty]
        /\ map finish_reason (yielded (result o)) = [None; Some (lit "stop")]
        /\ toolCallsOf (yielded (result o)) = []).
Proof.
  split; [reflexivity|]. split; [reflexivity|].
  destruct (finalization_round_skips_tools Scenario.handler
              (Scenario.replying [Scenario.callX]) Scenario.followUp 0
              (n := 10%Z) (payload := Scenario.followUpPayload))
    as (_ & _ & _ & Hplain & _ & Hstream).
  - reflexivity.
  - reflexivity.
  - reflexivity.
  - vm_compute. reflexivity.
  - split.
    + destruct Hplain as (o & Hrun & Hlocals & _ & r & Hr & _ & _ & Hc & Ht & Hf).
      exists o, r. rewrite Hlocals. repeat split; assumption.
    + destruct (Hstream eq_refl)
        as (o & Hrun & _ & _ & _ & Hd & Hf & _ & _ & Ht & _).
      exists o. repeat split; assumption.
Defined.

(** C8 on a reply that starts with a brace and is not a call. *)
Lemma false_positive_replay_witness :
  exists o,
    handleStreamingRequest 1 Scenario.handler
      (Scenario.replying Scenario.falseAlarm) Scenario.question = Some o
    /\ ending (result o) = Normal tt
    /\ map delta (yielded (result o))
       = [DeltaContent (lit "{ not"); DeltaContent (lit " a call }"); DeltaEmpty]
    /\ map finish_reason (yielded (result o)) = [None; None; Some (lit "stop")]
    /\ toolCallsOf (yielded (result o)) = [].
Proof.
  destruct (@false_positive_replay Scenario.handler
              (Scenario.replying Scenario.falseAlarm) Scenario.question 0 10%Z
              [plainMessage user (lit "What is the weather in Paris?")]
              {| fullResponse := lit "{ not a call }";
                 toolCallDetected := true;
                 bufferedChunks := Scenario.falseAlarm |}
              [])
    as (_ & passed & _ & _ & _ & _ & _ & o & Hrun & Hend & Hd & Hf & _ & _ & Ht & _);
    try reflexivity; try (vm_compute; reflexivity).
  exists o. repeat split; assumption.
Defined.


(** C9 with a round budget of -1. *)
Lemma round_loop_single_pass_witness :
  underLimit (new Scenario.negativeBudget Scenario.entropy)
    {| round := 0; sent := [] |} = false
  /\ exists o,
       handleRequest 1 (new Scenario.negativeBudget Scenario.entropy)
         (Scenario.replying Scenario.sunny) Scenario.question = Some o
       /\ sent (locals o) = []
       /\ result o
          = Throw (Error (lit "Maximum conversation rounds (-1) exceeded")).
Proof.
  split; [reflexivity|].
  destruct (round_loop_single_pass (new Scenario.negativeBudget Scenario.entropy)
              (Scenario.replying Scenario.sunny) Scenario.question 0
              Scenario.negativeBudget Scenario.entropy)
    as (_ & _ & _ & _ & _ & (o & Hrun & _ & _ & Hlimit) & _).
  exists o. split; [exact Hrun|].
  destruct (Hlimit eq_refl) as [Hsent ->]. split; [exact Hsent|].
  vm_compute. reflexivity.
Defined.

(* ================================================================== *)
(** * Further properties of the code *)
(* ================================================================== *)

(** ** The prompt compiler *)

Lemma startsWith_app (p rest : jsstring) : startsWith (p ++ rest) p = true.
Proof.
  induction p as [|x p IH]; simpl; [now destruct rest|].
  now rewrite N.eqb_refl, IH.
Qed.

Lemma includes_unfold (s p : jsstring) :
  includes s p
  = startsWith s p || match s with [] => false | _ :: s' => includes s' p end.
Proof. destruct s; reflexivity. Qed.

Lemma includes_middle (before p rest : jsstring) :
  includes (before ++ p ++ rest) p = true.
Proof.
  induction before as [|x before IH]; simpl.
  - now rewrite includes_unfold, startsWith_app.
  - rewrite IH. apply orb_true_r.
Qed.

Lemma startsWith_app_l (s p rest : jsstring) :
  startsWith s p = true -> startsWith (s ++ rest) p = true.
Proof.
  revert s. induction p as [|x p IH]; intros s H; simpl.
  - now destruct (s ++ rest).
  - destruct s as [|y s]; [discriminate|]. simpl in *.
    apply andb_true_iff in H as [-> H]. now rewrite IH.
Qed.

Lemma includes_app_r (before s p : jsstring) :
  includes s p = true -> includes (before ++ s) p = true.
Proof.
  intros H. induction before as [|x before IH]; simpl; [exact H|].
  rewrite IH. apply orb_true_r.
Qed.

Lemma includes_app_l (s rest p : jsstring) :
  includes s p = true -> includes (s ++ rest) p = true.
Proof.
  induction s as [|x s IH]; intros H.
  - rewrite includes_unfold in H. rewrite orb_false_r in H.
    rewrite includes_unfold. now rewrite (startsWith_app_l [] p rest H).
  - rewrite includes_unfold in H. apply orb_true_iff in H as [H|H].
    + rewrite includes_unfold. now rewrite (startsWith_app_l _ _ rest H).
    + simpl. rewrite (IH H). apply orb_true_r.
Qed.

Lemma includes_prefix (p rest : jsstring) : includes (p ++ rest) p = true.
Proof. now rewrite includes_unfold, startsWith_app. Qed.

Lemma describeTool_app (prompt : jsstring) (t : Tool) :
  ToolConverter.describeTool prompt t = prompt ++ ToolConverter.describeTool [] t.
Proof.
  unfold ToolConverter.describeTool.
  destruct (fd_parameters (tool_function t)) as [p|];
    [destruct (truthy (Val p))|]; cbv zeta; rewrite <- ?app_assoc; reflexivity.
Qed.

Lemma describe_all (ts : list Tool) (prompt : jsstring) :
  fold_left ToolConverter.describeTool ts prompt
  = prompt ++ concat (map (ToolConverter.describeTool []) ts).
Proof.
  revert prompt. induction ts as [|t ts IH]; intros prompt; simpl.
  - now rewrite app_nil_r.
  - rewrite IH, describeTool_app. now rewrite <- app_assoc.
Qed.

Lemma describeTool_names (t : Tool) :
  includes (ToolConverter.describeTool [] t)
    (lit "Function: " ++ fd_name (tool_function t) ++ LF
     ++ lit "Description: " ++ fd_description (tool_function t) ++ LF) = true.
Proof.
  assert (Hblock : exists tail,
             ToolConverter.describeTool [] t
             = (lit "Function: " ++ fd_name (tool_function t) ++ LF
                ++ lit "Description: " ++ fd_description (tool_function t) ++ LF)
               ++ tail).
  { unfold ToolConverter.describeTool.
    destruct (fd_parameters (tool_function t)) as [p|];
      [destruct (truthy (Val p))|]; eexists; cbv zeta;
      rewrite <- ?app_assoc; reflexivity. }
  destruct Hblock as [tail ->]. apply includes_prefix.
Qed.

(** X1. For a tool list that is not empty the compiled prompt is, in this
    order: the two header lines, one block per tool in list order, the line
    ">>>" and the format instructions.  So every tool of the list is named
    with its description, and the prompt ends with the one required JSON
    shape, which holds the marker ["function_call"]. *)
Theorem prompt_lists_every_tool (ts : list Tool) (t : Tool) :
  In t ts ->
  ToolConverter.convertToolsToSystemPrompt (Some ts)
  = lit "You are a helpful assistant. You can help me by answering my questions. You can also ask me questions."
    ++ LF ++ LF
    ++ lit "here are list of functions start with <<< end with >>>:" ++ LF
    ++ lit "<<<" ++ LF
    ++ concat (map (ToolConverter.describeTool []) ts)
    ++ lit ">>>" ++ LF
    ++ ToolConverter.formatInstructions
  /\ includes (ToolConverter.convertToolsToSystemPrompt (Some ts))
       (lit "Function: " ++ fd_name (tool_function t) ++ LF
        ++ lit "Description: " ++ fd_description (tool_function t) ++ LF) = true
  /\ includes (ToolConverter.convertToolsToSystemPrompt (Some ts))
       (jq "'function_call'") = true
  /\ ToolConverter.convertToolsToSystemPrompt (Some ts) <> [].
Proof.
  intros Hin.
  assert (Hform : ToolConverter.convertToolsToSystemPrompt (Some ts)
                  = lit "You are a helpful assistant. You can help me by answering my questions. You can also ask me questions."
                    ++ LF ++ LF
                    ++ lit "here are list of functions start with <<< end with >>>:" ++ LF
                    ++ lit "<<<" ++ LF
                    ++ concat (map (ToolConverter.describeTool []) ts)
                    ++ lit ">>>" ++ LF
                    ++ ToolConverter.formatInstructions).
  { destruct ts as [|t0 ts']; [destruct Hin|].
    unfold ToolConverter.convertToolsToSystemPrompt.
    rewrite describe_all. now rewrite <- !app_assoc. }
  split; [exact Hform|]. split; [|split].
  - rewrite Hform. do 7 apply includes_app_r. apply includes_app_l.
    apply in_split in Hin as (l1 & l2 & ->).
    rewrite map_app, concat_app. apply includes_app_r.
    simpl map. simpl concat. apply includes_app_l. apply describeTool_names.
  - rewrite Hform. do 10 apply includes_app_r. vm_compute. reflexivity.
  - rewrite Hform. discriminate.
Qed.

(** ** Injecting the prompt *)

(** [m] with the tool prompt appended to its content. *)
Lemma amendFirstSystem_spec (msgs : list Message) (toolPrompt : jsstring) :
  match amendFirstSystem msgs toolPrompt with
  | Some msgs' =>
      exists before m rest,
        msgs = before ++ m :: rest
        /\ forallb (fun x => negb (isSystem x)) before = true
        /\ isSystem m = true
        /\ msgs' = before
                   ++ {| msg_role := msg_role m;
                         msg_content :=
                           Some (orEmpty (msg_content m) ++ LF ++ LF ++ toolPrompt);
                         msg_tool_calls := msg_tool_calls m;
                         msg_tool_call_id := msg_tool_call_id m;
                         msg_name := msg_name m |} :: rest
  | None => existsb isSystem msgs = false
  end.
Proof.
  induction msgs as [|m msgs IH]; simpl; [reflexivity|].
  destruct (isSystem m) eqn:Hsys.
  - exists [], m, msgs. auto.
  - destruct (amendFirstSystem msgs toolPrompt) as [msgs'|].
    + destruct IH as (before & m0 & rest & -> & Hb & Hm & ->).
      exists (m :: before), m0, rest. simpl. rewrite Hsys. auto.
    + exact IH.
Qed.

(** X2. [injectToolSystemPrompt] touches one message at most.  When the
    conversation has a system message, the first one gets the prompt
    appended to its content after a blank line, every other message stays as
    it is and in place, and, the message objects being shared, the caller's
    [request.messages] shows the same change.  When it has none, a new system
    message holding the prompt is put in front and the caller's messages are
    left alone. *)
Theorem injection_touches_one_message (msgs : list Message) (toolPrompt : jsstring) :
  (existsb isSystem msgs = true ->
   exists before m rest,
     msgs = before ++ m :: rest
     /\ forallb (fun x => negb (isSystem x)) before = true
     /\ isSystem m = true
     /\ fst (injectToolSystemPrompt msgs toolPrompt)
        = before
          ++ {| msg_role := system;
                msg_content :=
                  Some (orEmpty (msg_content m) ++ LF ++ LF ++ toolPrompt);
                msg_tool_calls := msg_tool_calls m;
                msg_tool_call_id := msg_tool_call_id m;
                msg_name := msg_name m |} :: rest
     /\ snd (injectToolSystemPrompt msgs toolPrompt)
        = fst (injectToolSystemPrompt msgs toolPrompt)
     /\ length (fst (injectToolSystemPrompt msgs toolPrompt)) = length msgs
     /\ map msg_role (fst (injectToolSystemPrompt msgs toolPrompt))
        = map msg_role msgs)
  /\ (existsb isSystem msgs = false ->
      injectToolSystemPrompt msgs toolPrompt
      = (plainMessage system toolPrompt :: msgs, msgs)).
Proof.
  pose proof (amendFirstSystem_spec msgs toolPrompt) as Hspec.
  unfold injectToolSystemPrompt.
  destruct (amendFirstSystem msgs toolPrompt) as [msgs'|].
  - destruct Hspec as (before & m & rest & -> & Hb & Hm & ->).
    assert (Hrole : msg_role m = system).
    { unfold isSystem in Hm. destruct (msg_role m); try discriminate. reflexivity. }
    split.
    + intros _. exists before, m, rest. simpl. rewrite Hrole.
      repeat split; auto.
      * rewrite !length_app. reflexivity.
      * rewrite !map_app. simpl. now rewrite Hrole.
    + intros Hnone. rewrite existsb_app in Hnone. simpl in Hnone.
      rewrite Hm, orb_true_r in Hnone. discriminate.
  - split; [intros H; congruence|reflexivity].
Qed.

Lemma amendFirstSystem_first (before rest : list Message) (m : Message)
  (toolPrompt : jsstring) :
  forallb (fun x => negb (isSystem x)) before = true ->
  isSystem m = true ->
  amendFirstSystem (before ++ m :: rest) toolPrompt
  = Some (before
          ++ {| msg_role := msg_role m;
                msg_content :=
                  Some (orEmpty (msg_content m) ++ LF ++ LF ++ toolPrompt);
                msg_tool_calls := msg_tool_calls m;
                msg_tool_call_id := msg_tool_call_id m;
                msg_name := msg_name m |} :: rest).
Proof.
  intros Hb Hm. induction before as [|x before IH]; simpl.
  - now rewrite Hm.
  - simpl in Hb. apply andb_true_iff in Hb as [Hx Hb].
    apply negb_true_iff in Hx. rewrite Hx, (IH Hb). reflexivity.
Qed.

Lemma existsb_isTool_roles (a b : list Message) :
  map msg_role a = map msg_role b -> existsb isTool a = existsb isTool b.
Proof.
  revert b. induction a as [|x a IH]; intros [|y b] H; try discriminate; auto.
  simpl in *. injection H as Hr Hrest. unfold isTool at 1 3.
  rewrite Hr. f_equal. auto.
Qed.

(** X3. A request that carries tools, no tool-role message and a system
    message is changed by the call: whatever the handler returns,
    [request.messages] then holds the first system message with the tool
    prompt appended, which is not the message the caller passed.  Handing the
    same request to the handler again appends the prompt once more. *)
Theorem reused_request_gets_prompt_again (this : ProxyHandler) (b : Backend)
  (request : ChatCompletionRequest) (ts : list Tool)
  (before rest : list Message) (m : Message) (fuel : nat) :
  tools request = Some ts ->
  ts <> [] ->
  existsb isTool (messages request) = false ->
  messages request = before ++ m :: rest ->
  forallb (fun x => negb (isSystem x)) before = true ->
  isSystem m = true ->
  let toolPrompt := convertToolsToSystemPrompt (toolConverter this) (Some ts) in
  let amended c :=
    {| msg_role := msg_role m;
       msg_content := Some c;
       msg_tool_calls := msg_tool_calls m;
       msg_tool_call_id := msg_tool_call_id m;
       msg_name := msg_name m |} in
  let once :=
    before ++ amended (orEmpty (msg_content m) ++ LF ++ LF ++ toolPrompt) :: rest in
  once <> messages request
  /\ (exists o, handleRequest (S fuel) this b request = Some o
                /\ request_after o = once)
  /\ (exists o, handleStreamingRequest (S fuel) this b request = Some o
                /\ request_after o = once)
  /\ localMessages
       (setup this b {| model := model request; messages := once;
                        tools := tools request |})
     = before
       ++ amended ((orEmpty (msg_content m) ++ LF ++ LF ++ toolPrompt)
                   ++ LF ++ LF ++ toolPrompt) :: rest.
Proof.
  intros Htools Hne Hround Hmsgs Hb Hm toolPrompt amended once.
  assert (Hinject : (0 <? length ts)%nat = true).
  { destruct ts; [congruence|reflexivity]. }
  assert (Hreq : requestMessages (setup this b request) = once).
  { unfold setup; simpl. rewrite Htools, Hinject, Hround. simpl.
    unfold injectToolSystemPrompt. rewrite Hmsgs.
    rewrite (amendFirstSystem_first before rest m _ Hb Hm). reflexivity. }
  split; [|split; [|split]].
  - unfold once. rewrite Hmsgs. intros Heq.
    apply app_inv_head in Heq. injection Heq as Heq.
    apply (f_equal msg_content) in Heq. rename Heq into Hc.
    simpl in Hc. destruct (msg_content m) as [c|]; [|discriminate].
    injection Hc as Hc. simpl in Hc.
    apply (f_equal (@length _)) in Hc. rewrite !length_app in Hc. simpl in Hc. lia.
  - rewrite handleRequest_run. eexists. split; [reflexivity|].
    rewrite <- Hreq.
    destruct (underLimit this _); [|reflexivity].
    destruct (prepareMessagesForTarget this _); reflexivity.
  - rewrite handleStreamingRequest_run. eexists. split; [reflexivity|].
    rewrite <- Hreq.
    destruct (underLimit this _); [|reflexivity].
    destruct (prepareMessagesForTarget this _); reflexivity.
  - assert (Hroles : map msg_role once = map msg_role (messages request)).
    { unfold once. rewrite Hmsgs, !map_app. reflexivity. }
    unfold setup; simpl. rewrite Htools, Hinject.
    rewrite (existsb_isTool_roles _ _ Hroles), Hround. simpl.
    unfold injectToolSystemPrompt, once.
    rewrite (amendFirstSystem_first before rest _ _ Hb); [reflexivity|].
    exact Hm.
Qed.

(** ** The payload *)

(** X4. What goes to the backend, when it can be built from a conversation,
    has one plain message per message of the conversation, in order: no
    tool-role message (each becomes a user message
    [Function "name" returned: content], with "tool" for a missing name), no
    [tool_calls], [tool_call_id] or [name] field, and never a null content;
    the roles other than tool are kept. *)
Theorem payload_is_flat (cfg : ProxyConfig) (e : Entropy)
  (msgs payload : list Message) :
  prepareMessagesForTarget (new cfg e) msgs = Normal payload ->
  length payload = length msgs
  /\ map msg_role payload
     = map (fun m => if isTool m then user else msg_role m) msgs
  /\ Forall (fun m' => msg_role m' <> tool
                       /\ msg_tool_calls m' = None
                       /\ msg_tool_call_id m' = None
                       /\ msg_name m' = None
                       /\ msg_content m' <> None) payload
  /\ (forall i m, nth_error msgs i = Some m -> isTool m = true ->
        nth_error payload i
        = Some (plainMessage user
                  (jq "Function '" ++ orDefault (msg_name m) (lit "tool")
                   ++ jq "' returned: " ++ orEmpty (msg_content m))))
  /\ (forall i m, nth_error msgs i = Some m -> isTool m = false ->
        msg_tool_calls m = None ->
        nth_error payload i
        = Some (plainMessage (msg_role m) (orEmpty (msg_content m)))).
Proof.
  revert payload. induction msgs as [|m msgs IH]; intros payload H; simpl in H.
  - injection H as <-. repeat split; auto; intros [|i] ? ?; discriminate.
  - destruct (prepareMessage (new cfg e) m) as [m'|] eqn:Hm; [|discriminate].
    destruct (prepareMessagesForTarget (new cfg e) msgs) as [more|] eqn:Hmore;
      [|discriminate].
    simpl in H. injection H as <-.
    destruct (IH _ eq_refl) as (Hlen & Hroles & Hall & Htool & Hplain).
    assert (Hshape : msg_role m' = (if isTool m then user else msg_role m)
                     /\ msg_role m' <> tool
                     /\ msg_tool_calls m' = None
                     /\ msg_tool_call_id m' = None
                     /\ msg_name m' = None
                     /\ msg_content m' <> None
                     /\ (isTool m = true ->
                         m' = plainMessage user
                                (jq "Function '" ++ orDefault (msg_name m) (lit "tool")
                                 ++ jq "' returned: " ++ orEmpty (msg_content m)))
                     /\ (isTool m = false -> msg_tool_calls m = None ->
                         m' = plainMessage (msg_role m) (orEmpty (msg_content m)))).
    { unfold prepareMessage in Hm. destruct (isTool m) eqn:Htl.
      - injection Hm as <-. simpl. repeat split; auto; discriminate.
      - assert (Hnot : msg_role m <> tool).
        { unfold isTool in Htl. destruct (msg_role m); discriminate. }
        destruct (msg_tool_calls m) as [calls|].
        + destruct (truthyStr (msg_content m)).
          * injection Hm as <-. simpl. repeat split; auto; discriminate.
          * destruct (callingFunction calls) as [text|]; [|discriminate].
            simpl in Hm. injection Hm as <-. simpl.
            repeat split; auto; discriminate.
        + injection Hm as <-. simpl. repeat split; auto; discriminate. }
    destruct Hshape as (Hr & Hnt & Hc1 & Hc2 & Hc3 & Hc4 & Ht & Hp).
    split; [simpl; now rewrite Hlen|].
    split; [simpl; now rewrite Hr, Hroles|].
    split; [constructor; auto|].
    split.
    + intros [|i] m0 Hn Hm0; simpl in *.
      * injection Hn as <-. now rewrite (Ht Hm0).
      * eauto.
    + intros [|i] m0 Hn Hm0 Hcalls; simpl in *.
      * injection Hn as <-. now rewrite (Hp Hm0 Hcalls).
      * eauto.
Qed.

(** X5. Building the payload fails in one case only: some message that is
    not a tool message carries an empty [tool_calls] array and no content to
    send instead; [tool_calls[0]] is then undefined and a TypeError is
    thrown.  This holds for every handler. *)
Theorem payload_fails_on_empty_tool_calls (this : ProxyHandler) (msgs : list Message) :
  ((exists err, prepareMessagesForTarget this msgs = Throw err)
   <-> Exists (fun m => isTool m = false
                        /\ msg_tool_calls m = Some []
                        /\ truthyStr (msg_content m) = false) msgs)
  /\ (forall err, prepareMessagesForTarget this msgs = Throw err -> err = TypeError).
Proof.
  assert (Hone : forall m,
             (exists m', prepareMessage this m = Normal m'
                         /\ ~ (isTool m = false /\ msg_tool_calls m = Some []
                               /\ truthyStr (msg_content m) = false))
             \/ (prepareMessage this m = Throw TypeError
                 /\ isTool m = false /\ msg_tool_calls m = Some []
                 /\ truthyStr (msg_content m) = false)).
  { intros m. unfold prepareMessage. destruct (isTool m).
    - left. eexists. split; [reflexivity|]. intros (H & _). discriminate.
    - destruct (msg_tool_calls m) as [[|c calls]|].
      + destruct (truthyStr (msg_content m)).
        * left. eexists. split; [reflexivity|]. intros (_ & _ & H). discriminate.
        * right. auto.
      + left. destruct (truthyStr (msg_content m)); simpl; eexists;
          (split; [reflexivity|]); intros (_ & H & _); discriminate.
      + left. eexists. split; [reflexivity|]. intros (_ & H & _). discriminate. }
  induction msgs as [|m msgs [IHiff IHerr]]; simpl.
  - split; [split|]; [intros [err H]; discriminate|intros H; inversion H|
                      intros err H; discriminate].
  - destruct (Hone m) as [(m' & -> & Hgood) | (-> & Hbad)]; simpl.
    + destruct (prepareMessagesForTarget this msgs) as [more|err0] eqn:Hmore; simpl.
      * split; [split|].
        -- intros [err H]. discriminate.
        -- intros H. inversion H as [? ? Hb|? ? Hb]; subst; [tauto|].
           apply IHiff in Hb. destruct Hb as [err Hb]. discriminate.
        -- intros err H. discriminate.
      * split; [split|].
        -- intros _. apply Exists_cons_tl. apply IHiff. eauto.
        -- eauto.
        -- intros err H. injection H as <-. now apply IHerr.
    + split; [split|].
      * intros _. now apply Exists_cons_hd.
      * eauto.
      * intros err H. now injection H as <-.
Qed.

(** ** Where a candidate's code units come from *)

Lemma In_trimStart (x : char16) (s : jsstring) : In x (trimStart s) -> In x s.
Proof.
  induction s as [|c s IH]; simpl; [auto|].
  destruct (isWhiteSpace c); simpl; auto.
Qed.

Lemma In_trim (x : char16) (s : jsstring) : In x (trim s) -> In x s.
Proof.
  unfold trim, trimEnd. intros H.
  apply In_trimStart. apply in_rev. apply In_trimStart. now apply in_rev.
Qed.

Lemma startsWith_brace (s : jsstring) :
  startsWith s (lit "{") = true -> In 123%N s.
Proof.
  change (lit "{") with [123%N]. destruct s as [|c s]; [discriminate|].
  cbn [startsWith]. intros H. apply andb_true_iff in H as [H _].
  apply N.eqb_eq in H. subst c. now left.
Qed.

Lemma In_firstn_l (x : char16) (n : nat) (s : jsstring) :
  In x (firstn n s) -> In x s.
Proof.
  intros H. rewrite <- (firstn_skipn n s). apply in_or_app. now left.
Qed.

(** ** What the matcher preserves

    A property of matcher states that survives reading one code unit and
    recording a capture survives a whole match. *)
Section MatcherInvariant.
Variable P : RegExp.mstate -> Prop.
Variable ignoreCase : bool.

Hypothesis P_read : forall x d t,
  P x -> RegExp.rest x = d :: t ->
  P {| RegExp.rest := t; RegExp.endIndex := S (RegExp.endIndex x);
       RegExp.captures := RegExp.captures x |}.

Hypothesis P_capture : forall x y i,
  P x -> P y ->
  P {| RegExp.rest := RegExp.rest y; RegExp.endIndex := RegExp.endIndex y;
       RegExp.captures :=
         (i, firstn (RegExp.endIndex y - RegExp.endIndex x) (RegExp.rest x))
         :: RegExp.captures y |}.

Lemma m_preserves (r : RegExp.node) :
  forall k x y,
    (forall x' y', P x' -> k x' = Some y' -> P y') ->
    P x ->
    RegExp.m ignoreCase r k x = Some y ->
    P y.
Proof.
  induction r as [|c|p|a IHa b' IHb|greedy a IHa|i a IHa]; intros k x y Hk Hx H; simpl in H.
  - eauto.
  - destruct (RegExp.rest x) as [|d t] eqn:Hrest; [discriminate|].
    destruct (N.eqb _ _); [|discriminate]. eauto.
  - destruct (RegExp.rest x) as [|d t] eqn:Hrest; [discriminate|].
    destruct (p d); [|discriminate]. eauto.
  - apply (IHa (fun y0 => RegExp.m ignoreCase b' k y0) x y); auto.
    intros x' y' Hx' H'. eapply IHb; eauto.
  - match type of H with
    | context [?f (Datatypes.length (RegExp.rest x))] => pose (loop := f)
    end.
    assert (Hloop : forall fuel x0 y0, P x0 -> loop fuel x0 = Some y0 -> P y0).
    { induction fuel as [|fuel IHf]; intros x0 y0 Hx0 H0;
        unfold loop in H0; simpl in H0.
      - destruct greedy; [eauto|].
        destruct (k x0) eqn:Hkx; [|discriminate]. injection H0 as <-. eauto.
      - assert (Hcont : forall x' y',
                   P x' ->
                   (if Nat.eqb (RegExp.endIndex x') (RegExp.endIndex x0) then None
                    else loop fuel x') = Some y' ->
                   P y').
        { intros x' y' Hx' H'.
          destruct (Nat.eqb _ _); [discriminate|]. eapply IHf; eauto. }
        destruct greedy.
        + match type of H0 with
          | match ?it with _ => _ end = _ => destruct it eqn:Hit
          end.
          * injection H0 as <-. eapply IHa; [exact Hcont|exact Hx0|exact Hit].
          * eauto.
        + destruct (k x0) eqn:Hkx.
          * injection H0 as <-. eauto.
          * eapply IHa; [exact Hcont|exact Hx0|exact H0]. }
    apply (Hloop (S (length (RegExp.rest x))) x y Hx). exact H.
  - eapply IHa; [|exact Hx|exact H].
    intros x' y' Hx' H'. simpl in H'. eapply Hk; [|exact H']. now apply P_capture.
Qed.
End MatcherInvariant.

(** The matcher only ever looks at the input: what is left to read and every
    capture are made of its code units. *)
Lemma m_within (input : jsstring) (ignoreCase : bool) (r : RegExp.node)
      (x y : RegExp.mstate) :
  within input x ->
  RegExp.m ignoreCase r Some x = Some y ->
  within input y.
Proof.
  intros Hx H.
  apply (@m_preserves (within input) ignoreCase) with (r := r) (k := Some) (x := x);
    auto.
  - intros x0 d t [Hr Hc] Hrest. split; simpl; [|exact Hc].
    intros ch Hch. apply Hr. rewrite Hrest. now right.
  - intros x0 y0 i [Hr Hc] [Hr' Hc']. split; simpl; [exact Hr'|].
    intros g ch [<- | Hg] Hch; simpl in *; [|eauto].
    apply Hr. eapply In_firstn_l; eauto.
  - now intros x' y' Hx' [= <-].
Qed.

(** The matcher reads forward: what it has consumed and what is left make up
    the input it started on, and [endIndex] counts the former. *)
Lemma m_position (input : jsstring) (start : nat) (ignoreCase : bool) (r : RegExp.node)
      (x y : RegExp.mstate) :
  position input start x ->
  RegExp.m ignoreCase r Some x = Some y ->
  position input start y.
Proof.
  intros Hx H.
  apply (@m_preserves (position input start) ignoreCase)
    with (r := r) (k := Some) (x := x); auto.
  - intros x0 d t (pre & Hin & Hidx) Hrest. exists (pre ++ [d]). simpl. split.
    + rewrite <- app_assoc. simpl. now rewrite <- Hrest.
    + rewrite length_app. simpl. lia.
  - now intros x' y' Hx' [= <-].
Qed.

Lemma exec_from_groups (re : RegExp.regex) (s : jsstring) :
  forall i mt,
    RegExp.exec_from re s i = Some mt ->
    forall g ch, In g (RegExp.groups mt) -> In ch (snd g) -> In ch s.
Proof.
  induction s as [|c s IH]; intros i mt; simpl;
    destruct (RegExp.m _ _ _ _) as [y|] eqn:Hm; try discriminate.
  - intros [= <-] g ch Hg Hch; simpl in Hg.
    apply (@m_within []) in Hm; [destruct Hm as [_ Hc]; exact (Hc _ _ Hg Hch)|].
    split; simpl; intros; contradiction.
  - intros [= <-] g ch Hg Hch; simpl in Hg.
    apply (@m_within (c :: s)) in Hm; [destruct Hm as [_ Hc]; exact (Hc _ _ Hg Hch)|].
    split; simpl; [auto|intros; contradiction].
  - intros H g ch Hg Hch. right. eapply IH; eauto.
Qed.

(** A match is a stretch of the subject: [index] code units come before it. *)
Lemma exec_from_span (re : RegExp.regex) (s : jsstring) :
  forall i mt,
    RegExp.exec_from re s i = Some mt ->
    exists skipped after,
      s = skipped ++ RegExp.matched mt ++ after
      /\ RegExp.index mt = (i + length skipped)%nat.
Proof.
  assert (Hhit : forall s i y,
             RegExp.m (RegExp.ignoreCase re) (RegExp.pattern re) Some
               {| RegExp.rest := s; RegExp.endIndex := i; RegExp.captures := [] |}
             = Some y ->
             exists after, s = firstn (RegExp.endIndex y - i) s ++ after).
  { intros s0 i y Hm. apply (@m_position s0 i) in Hm.
    - destruct Hm as (pre & Hin & Hidx). exists (RegExp.rest y).
      rewrite Hidx. replace (i + length pre - i)%nat with (length pre) by lia.
      rewrite Hin at 1 2.
      rewrite firstn_app, firstn_all, Nat.sub_diag, firstn_O, app_nil_r.
      reflexivity.
    - exists []. simpl. split; [reflexivity|lia]. }
  induction s as [|c s IH]; intros i mt; simpl;
    destruct (RegExp.m _ _ _ _) as [y|] eqn:Hm; try discriminate.
  - intros [= <-]. simpl. apply Hhit in Hm as (after & Hafter).
    exists [], after. simpl. split; [exact Hafter|lia].
  - intros [= <-]. simpl. apply Hhit in Hm as (after & Hafter).
    exists [], after. simpl. split; [exact Hafter|lia].
  - intros H. apply IH in H as (skipped & after & Hs & Hidx).
    exists (c :: skipped), after. simpl. split; [now rewrite Hs at 1|lia].
Qed.

Lemma group_within (s : jsstring) (re : RegExp.regex) (mt : RegExp.MatchResult) (i : nat) :
  match_ s re = Some mt ->
  forall ch, In ch (RegExp.group mt i) -> In ch s.
Proof.
  unfold match_, RegExp.group. intros H ch.
  destruct (find _ _) as [g|] eqn:Hfind; [|contradiction].
  apply find_some in Hfind as [Hg _]. eapply exec_from_groups; eauto.
Qed.

Lemma codeBlockContent_within (response : jsstring) (patterns : list RegExp.regex) :
  forall c,
    ToolConverter.codeBlockContent response patterns = Some c ->
    forall ch, In ch c -> In ch response.
Proof.
  induction patterns as [|p more IH]; simpl; [discriminate|].
  intros c. destruct (match_ response p) as [mt|] eqn:Hm; [|apply IH].
  intros [= <-] ch Hch. apply In_trim in Hch. eapply group_within; eauto.
Qed.

(** Whatever text the extractor settles on is made of code units of the
    response. *)
Lemma selectCandidate_within (response c : jsstring) :
  ToolConverter.selectCandidate response = Some c ->
  forall ch, In ch c -> In ch response.
Proof.
  unfold ToolConverter.selectCandidate.
  destruct (startsWith _ _ && endsWith _ _).
  - cbn [truthyStr]. destruct (nonEmpty (trim response)); cbn [negb].
    + intros [= <-] ch. apply In_trim.
    + apply codeBlockContent_within.
  - destruct (ToolConverter.braceScan response) as [b|] eqn:Hb; cbn [truthyStr negb].
    + destruct (nonEmpty b); cbn [negb]; [|apply codeBlockContent_within].
      intros [= <-] ch Hch.
      apply braceScan_first_brace in Hb as (before & rest & after & -> & _ & _).
      apply in_or_app. right. apply in_or_app. now left.
    + apply codeBlockContent_within.
Qed.

(** ** JSON text without an opening brace holds no object *)

Lemma scanDefault_brace (c : char16) (md : JSON.mode) (ts : list JSON.token) :
  JSON.scanDefault c = Some (md, ts) ->
  keywordMode md /\ (In JSON.TLBrace ts -> c = 123%N).
Proof.
  unfold JSON.scanDefault.
  repeat match goal with
         | |- context [if ?b then _ else _] => destruct b eqn:?
         end;
    intros [= <- <-]; split; simpl; try easy;
    try (intros [H|[]]; discriminate).
  intros _. now apply N.eqb_eq.
Qed.

Lemma scan_brace (md md' : JSON.mode) (c : char16) (ts : list JSON.token) :
  keywordMode md ->
  JSON.scan md c = Some (md', ts) ->
  keywordMode md' /\ (In JSON.TLBrace ts -> c = 123%N).
Proof.
  intros Hmd. destruct md as [|acc|acc|acc seen value|st a|expected t]; simpl.
  - apply scanDefault_brace.
  - repeat match goal with
           | |- context [if ?b then _ else _] => destruct b eqn:?
           end; intros [= <- <-]; split; simpl; try easy;
      intros [H|[]]; discriminate.
  - unfold JSON.scanEscape.
    repeat match goal with
           | |- context [if ?b then _ else _] => destruct b eqn:?
           end; intros [= <- <-]; split; simpl; easy.
  - destruct (JSON.hexValue c); [|discriminate].
    destruct (Nat.eqb seen 3); intros [= <- <-]; split; simpl; easy.
  - assert (Hfin : JSON.finishNumber a c = Some (md', ts) ->
                   keywordMode md' /\ (In JSON.TLBrace ts -> c = 123%N)).
    { unfold JSON.finishNumber.
      destruct (JSON.scanDefault c) as [[md0 ts0]|] eqn:Hd; [|discriminate].
      intros [= <- <-]. apply scanDefault_brace in Hd as [Hk Hin].
      split; [exact Hk|]. intros [H|H]; [discriminate|auto]. }
    destruct st; simpl;
      repeat match goal with
             | |- context [if ?b then _ else _] => destruct b eqn:?
             end; try exact Hfin; intros [= <- <-]; split; simpl; easy.
  - destruct expected as [|e more]; [discriminate|].
    destruct (N.eqb c e); [|discriminate].
    destruct more; intros [= <- <-]; split; simpl; try easy.
    intros [H|[]]. now subst t.
Qed.

Lemma scanEnd_brace (md : JSON.mode) (ts : list JSON.token) :
  JSON.scanEnd md = Some ts -> ~ In JSON.TLBrace ts.
Proof.
  destruct md as [| | | |st a|]; simpl; try discriminate.
  - now intros [= <-].
  - destruct st; try discriminate; intros [= <-] [H|[]]; discriminate.
Qed.

Lemma tokenize_brace (input : jsstring) :
  forall md ts,
    keywordMode md ->
    JSON.tokenize md input = Some ts ->
    In JSON.TLBrace ts -> In 123%N input.
Proof.
  induction input as [|c more IH]; intros md ts Hmd; simpl.
  - intros H Hin. now apply scanEnd_brace in H.
  - destruct (JSON.scan md c) as [[md' ts0]|] eqn:Hscan; [|discriminate].
    destruct (JSON.tokenize md' more) as [rest|] eqn:Hrest; [|discriminate].
    intros [= <-] Hin. apply scan_brace in Hscan as [Hmd' Hc]; [|exact Hmd].
    apply in_app_or in Hin as [Hin|Hin].
    + left. auto.
    + right. eapply IH; eauto.
Qed.

Lemma deliver_plain (v : json) (stack stack' : list JSON.frame) (st' : JSON.pstate) :
  notObject v -> Forall arrayFrame stack ->
  JSON.deliver v stack = Some (st', stack') ->
  plainState st' /\ Forall arrayFrame stack'.
Proof.
  intros Hv Hs. destruct stack as [|[items|props key] up]; simpl.
  - intros [= <- <-]. now split.
  - intros [= <- <-]. split; [exact I|].
    inversion Hs; subst. now constructor.
  - inversion Hs; subst. contradiction.
Qed.

Lemma closeArray_plain (stack stack' : list JSON.frame) (st' : JSON.pstate) :
  Forall arrayFrame stack ->
  JSON.closeArray stack = Some (st', stack') ->
  plainState st' /\ Forall arrayFrame stack'.
Proof.
  intros Hs. destruct stack as [|[items|props key] up]; simpl; try discriminate.
  inversion Hs; subst. now apply deliver_plain.
Qed.

Lemma closeObject_plain (stack : list JSON.frame) :
  Forall arrayFrame stack -> JSON.closeObject stack = None.
Proof.
  intros Hs. destruct stack as [|[items|props key] up]; simpl; try reflexivity.
  inversion Hs; subst. contradiction.
Qed.

Lemma startValue_plain (t : JSON.token) (stack stack' : list JSON.frame)
      (st' : JSON.pstate) :
  t <> JSON.TLBrace -> Forall arrayFrame stack ->
  JSON.startValue t stack = Some (st', stack') ->
  plainState st' /\ Forall arrayFrame stack'.
Proof.
  intros Ht Hs. destruct t; simpl; try discriminate; try contradiction;
    try (now apply deliver_plain).
  intros [= <- <-]. split; [exact I|]. now constructor.
Qed.

Lemma parseStep_plain (st st' : JSON.pstate) (stack stack' : list JSON.frame)
      (t : JSON.token) :
  t <> JSON.TLBrace -> Forall arrayFrame stack ->
  JSON.parseStep st stack t = Some (st', stack') ->
  plainState st' /\ Forall arrayFrame stack'.
Proof.
  intros Ht Hs. destruct st; simpl.
  - now apply startValue_plain.
  - destruct t; try (now apply startValue_plain); try contradiction.
    now apply closeArray_plain.
  - destruct t; try discriminate.
    + now rewrite closeObject_plain.
    + destruct stack as [|[|? [|]] ?]; simpl; try discriminate.
      inversion Hs; subst. contradiction.
  - destruct t; try discriminate.
    destruct stack as [|[|? [|]] ?]; simpl; try discriminate.
    inversion Hs; subst. contradiction.
  - destruct t; try discriminate. intros [= <- <-]. now split.
  - destruct t; try discriminate; try contradiction.
    + now rewrite closeObject_plain.
    + now apply closeArray_plain.
    + destruct stack as [|[|? [|]] ?]; try discriminate.
      * intros [= <- <-]. now split.
      * inversion Hs; subst. contradiction.
  - discriminate.
Qed.

Lemma parseTokens_plain (ts : list JSON.token) :
  forall st stack v,
    ~ In JSON.TLBrace ts -> plainState st -> Forall arrayFrame stack ->
    JSON.parseTokens st stack ts = Some v ->
    notObject v.
Proof.
  induction ts as [|t more IH]; intros st stack v Hts Hst Hs; simpl.
  - destruct st; try discriminate. now intros [= <-].
  - destruct (JSON.parseStep st stack t) as [[st' stack']|] eqn:Hstep; [|discriminate].
    apply parseStep_plain in Hstep as [Hst' Hs']; [| |exact Hs].
    + apply IH; auto. intros Hin. apply Hts. now right.
    + intros ->. apply Hts. now left.
Qed.

(** [JSON.parse] gives an object only for a text with an opening brace. *)
Lemma parse_object_has_brace (text : jsstring) (props : list (jsstring * json)) :
  JSON.parse text = Normal (JObject props) -> In 123%N text.
Proof.
  unfold JSON.parse.
  destruct (JSON.tokenize JSON.Default text) as [ts|] eqn:Htok; [|discriminate].
  destruct (JSON.parseTokens JSON.PValue [] ts) as [v|] eqn:Hparse; [|discriminate].
  intros [= ->].
  destruct (existsb isLBrace ts) eqn:Hb.
  - apply existsb_exists in Hb as (t & Hin & Ht).
    destruct t; try discriminate. eapply tokenize_brace; eauto. exact I.
  - apply parseTokens_plain in Hparse; auto; [contradiction| |exact I].
    intros Hin. assert (existsb isLBrace ts = true); [|congruence].
    apply existsb_exists. now exists JSON.TLBrace.
Qed.

(** ** What a returned call says about the response *)

Lemma validate_closed (e : Entropy) (c : jsstring) (parsed : json) :
  JSON.parse c = Normal parsed ->
  ToolConverter.validate e c
  = match parsed with
    | JNull => Throw TypeError
    | _ =>
        match field parsed (lit "function_call") with
        | Val fc =>
            if truthy (Val fc) && truthy (field fc (lit "name"))
            then Normal
                   (Some {| tc_id := ToolConverter.freshId e;
                            tc_type := lit "function";
                            tc_function :=
                              {| fn_name := field fc (lit "name");
                                 fn_arguments :=
                                   JSON.stringify
                                     (ToolConverter.orEmptyObject
                                        (field fc (lit "arguments"))) |} |})
            else Normal None
        | Undefined => Normal None
        end
    end.
Proof.
  intros Hp. unfold ToolConverter.validate. rewrite Hp. simpl bind.
  destruct parsed as [| | | | |props]; try reflexivity.
  simpl Get. simpl bind. simpl field.
  destruct (lookup props (lit "function_call")) as [|fc]; [reflexivity|].
  destruct fc as [|flag|n|text|items|props']; simpl; try reflexivity;
    solve [ destruct flag; reflexivity
          | destruct n; reflexivity
          | destruct text; reflexivity
          | destruct (truthy (lookup props' (lit "name"))); reflexivity ].
Qed.

Lemma extract_inversion (e : Entropy) (response : jsstring) (call : ToolCall) :
  ToolConverter.extractToolCallFromResponse e response = Normal (Some call) ->
  exists c props fc,
    ToolConverter.selectCandidate response = Some c
    /\ JSON.parse c = Normal (JObject props)
    /\ lookup props (lit "function_call") = Val fc
    /\ truthy (field fc (lit "name")) = true
    /\ call = {| tc_id := ToolConverter.freshId e;
                 tc_type := lit "function";
                 tc_function :=
                   {| fn_name := field fc (lit "name");
                      fn_arguments :=
                        JSON.stringify
                          (ToolConverter.orEmptyObject
                             (field fc (lit "arguments"))) |} |}.
Proof.
  unfold ToolConverter.extractToolCallFromResponse.
  destruct (_ || _); [discriminate|].
  destruct (ToolConverter.selectCandidate response) as [c|] eqn:Hc;
    [|discriminate].
  destruct (negb _); [discriminate|]. simpl orEmpty.
  destruct (JSON.parse c) as [parsed|err] eqn:Hp.
  - rewrite (validate_closed e c Hp).
    destruct parsed as [| | | | |props]; try discriminate.
    simpl field.
    destruct (lookup props (lit "function_call")) as [|fc] eqn:Hfc; [discriminate|].
    destruct (truthy (Val fc) && truthy (field fc (lit "name"))) eqn:Hn;
      [|discriminate].
    apply andb_true_iff in Hn as [_ Hn]. simpl. intros [= <-].
    exists c, props, fc. auto.
  - unfold ToolConverter.validate. rewrite Hp. discriminate.
Qed.

Lemma orEmptyObject_truthy (args : jsval) :
  truthy (Val (ToolConverter.orEmptyObject args)) = true.
Proof.
  unfold ToolConverter.orEmptyObject, or_.
  destruct (truthy args) eqn:Ha; [|reflexivity].
  destruct args; [discriminate|exact Ha].
Qed.

Lemma extract_without_brace (e : Entropy) (response : jsstring) :
  ~ In 123%N response ->
  ToolConverter.extractToolCallFromResponse e response = Normal None.
Proof.
  intros Hno.
  destruct (ToolConverter.extractToolCallFromResponse e response) as [[call|]|err]
    eqn:Hx; [|reflexivity|].
  - apply extract_inversion in Hx as (c & props & fc & Hc & Hp & _).
    apply parse_object_has_brace in Hp.
    exfalso. apply Hno. eapply selectCandidate_within; eauto.
  - unfold ToolConverter.extractToolCallFromResponse in Hx.
    destruct (_ || _); [discriminate|].
    destruct (negb _); [discriminate|].
    destruct (try_catch_normal (ToolConverter.validate e
                (orEmpty (ToolConverter.selectCandidate response)))) as [r Hr].
    congruence.
Qed.

(** X6. A response that holds no opening brace never yields a tool call,
    fenced block or not: every candidate is made of code units of the
    response, and JSON text without an opening brace holds no object.  The
    candidate of such a response, if there is one, comes from a fenced
    block. *)
Theorem no_brace_no_call (e : Entropy) (response : jsstring) :
  ~ In 123%N response ->
  ToolConverter.extractToolCallFromResponse e response = Normal None
  /\ ToolConverter.braceScan response = None
  /\ ToolConverter.selectCandidate response
     = ToolConverter.codeBlockContent response ToolConverter.codeBlockPatterns
  /\ (forall c, ToolConverter.selectCandidate response = Some c -> ~ In 123%N c).
Proof.
  intros Hno.
  assert (Hscan : ToolConverter.braceScan response = None).
  { destruct (ToolConverter.braceScan response) as [c|] eqn:Hb; [|reflexivity].
    apply braceScan_first_brace in Hb as (before & rest & after & -> & _ & ->).
    exfalso. apply Hno. apply in_or_app. right. now left. }
  split; [now apply extract_without_brace|]. split; [exact Hscan|]. split.
  - unfold ToolConverter.selectCandidate. rewrite Hscan.
    destruct (startsWith (trim response) (lit "{")) eqn:Hs; [|reflexivity].
    exfalso. apply Hno. apply In_trim. now apply startsWith_brace.
  - intros c Hc Hin. apply Hno. eapply selectCandidate_within; eauto.
Qed.

(** X7. Every call the extractor returns has the same make: a fresh id, the
    type "function", a truthy name read from an object under the key
    [function_call] of a candidate that parsed to an object, and as arguments
    the JSON text of a truthy value.  The response then holds an opening
    brace. *)
Theorem returned_call_shape (e : Entropy) (response : jsstring) (call : ToolCall) :
  ToolConverter.extractToolCallFromResponse e response = Normal (Some call) ->
  tc_id call = ToolConverter.freshId e
  /\ tc_type call = lit "function"
  /\ truthy (fn_name (tc_function call)) = true
  /\ (exists v, fn_arguments (tc_function call) = JSON.stringify v
                /\ truthy (Val v) = true)
  /\ (exists c props fc,
         ToolConverter.selectCandidate response = Some c
         /\ JSON.parse c = Normal (JObject props)
         /\ lookup props (lit "function_call") = Val fc
         /\ fn_name (tc_function call) = field fc (lit "name"))
  /\ ToolConverter.isJustMention response = false
  /\ In 123%N response.
Proof.
  intros Hx. pose proof Hx as Hinv.
  apply extract_inversion in Hinv as (c & props & fc & Hc & Hp & Hfc & Hn & ->).
  simpl. repeat split; auto.
  - eexists. split; [reflexivity|apply orEmptyObject_truthy].
  - exists c, props, fc. auto.
  - unfold ToolConverter.extractToolCallFromResponse in Hx.
    unfold ToolConverter.isJustMention.
    destruct (_ || _); [discriminate|reflexivity].
  - apply parse_object_has_brace in Hp. eapply selectCandidate_within; eauto.
Qed.

(** ** The text around a block *)

Lemma substring_prefix (a b : jsstring) :
  substring (a ++ b) 0 (Z.of_nat (length a)) = a.
Proof. exact (substring_middle [] a b). Qed.

Lemma substring_from_suffix (a b : jsstring) :
  substring_from (a ++ b) (Z.of_nat (length a)) = b.
Proof.
  unfold substring_from. rewrite length_app.
  pose proof (substring_middle a b []) as H. now rewrite app_nil_r in H.
Qed.

(** A pattern that starts with a literal code unit only matches where that
    code unit stands. *)
Lemma exec_from_leading (re : RegExp.regex) (c : char16) (p : RegExp.node)
      (s : jsstring) :
  RegExp.ignoreCase re = false ->
  RegExp.pattern re = RegExp.Seq (RegExp.Char c) p
  \/ (exists a, RegExp.pattern re = RegExp.Seq (RegExp.Seq (RegExp.Char c) a) p) ->
  forall i mt, RegExp.exec_from re s i = Some mt -> In c s.
Proof.
  intros Hic Hpat.
  assert (Hhit : forall s0 i y,
             RegExp.m (RegExp.ignoreCase re) (RegExp.pattern re) Some
               {| RegExp.rest := s0; RegExp.endIndex := i; RegExp.captures := [] |}
             = Some y -> In c s0).
  { intros s0 i y. rewrite Hic.
    destruct Hpat as [-> | [a ->]]; simpl;
      (destruct s0 as [|d t]; [discriminate|]);
      unfold RegExp.canonicalize; simpl andb; cbv iota;
      (destruct (N.eqb c d) eqn:Hcd; [|discriminate]);
      apply N.eqb_eq in Hcd; subst d; intros _; now left. }
  induction s as [|d s IH]; intros i mt; simpl;
    destruct (RegExp.m _ _ _ _) as [y|] eqn:Hm; try discriminate.
  - intros _. now apply Hhit in Hm.
  - intros _. now apply Hhit in Hm.
  - intros H. right. eapply IH; eauto.
Qed.

Lemma codeBlock_needs_backtick (response : jsstring) (mt : RegExp.MatchResult) :
  match_ response ToolConverter.codeBlockRegex = Some mt -> In 96%N response.
Proof.
  apply (@exec_from_leading ToolConverter.codeBlockRegex 96%N
           (RegExp.Seq (RegExp.Star false RegExp.any)
              (RegExp.Seq ToolConverter.fence RegExp.Empty)));
    [reflexivity|]. right. eexists. reflexivity.
Qed.

Lemma rawJson_needs_brace (response : jsstring) (mt : RegExp.MatchResult) :
  match_ response ToolConverter.rawJsonRegex = Some mt -> In 123%N response.
Proof.
  apply (@exec_from_leading ToolConverter.rawJsonRegex 123%N
           (RegExp.Seq (RegExp.Star false RegExp.any)
              (RegExp.Seq (RegExp.Lit (jq "'function_call'"))
                 (RegExp.Seq (RegExp.Star false RegExp.any)
                    (RegExp.Seq (RegExp.Char 125%N) RegExp.Empty)))));
    [reflexivity|]. left. reflexivity.
Qed.

Lemma match_span (response : jsstring) (re : RegExp.regex) (mt : RegExp.MatchResult) :
  match_ response re = Some mt ->
  exists before after,
    response = before ++ RegExp.matched mt ++ after
    /\ RegExp.index mt = length before.
Proof.
  intros H. apply exec_from_span in H as (before & after & Hs & Hidx).
  now exists before, after.
Qed.

(** X8. The two text helpers cut the response around the first match of the
    fence pattern: the text before is the trimmed part in front of the match,
    the text after the trimmed part behind it, and the three parts make up
    the response.  Without a fenced block nothing counts as text after, and
    the text before is cut at the first raw JSON match, or is the response
    as it stands, untrimmed, when there is none. *)
Theorem text_around_block (response : jsstring) :
  match match_ response ToolConverter.codeBlockRegex with
  | Some mt =>
      exists before after,
        response = before ++ RegExp.matched mt ++ after
        /\ RegExp.index mt = length before
        /\ ToolConverter.extractTextBeforeToolCall response = trim before
        /\ ToolConverter.extractTextAfterToolCall response = trim after
  | None =>
      ToolConverter.extractTextAfterToolCall response = []
      /\ match match_ response ToolConverter.rawJsonRegex with
         | Some jsonMatch =>
             exists before after,
               response = before ++ RegExp.matched jsonMatch ++ after
               /\ RegExp.index jsonMatch = length before
               /\ ToolConverter.extractTextBeforeToolCall response = trim before
         | None => ToolConverter.extractTextBeforeToolCall response = response
         end
  end.
Proof.
  unfold ToolConverter.extractTextBeforeToolCall, ToolConverter.extractTextAfterToolCall.
  destruct (match_ response ToolConverter.codeBlockRegex) as [mt|] eqn:Hm.
  - destruct (match_span _ _ Hm) as (before & after & Hs & Hidx).
    exists before, after. repeat split; auto.
    + rewrite Hidx, Hs at 1. now rewrite substring_prefix.
    + rewrite Hidx, <- length_app. rewrite Hs at 1.
      rewrite app_assoc. now rewrite substring_from_suffix.
  - split; [reflexivity|].
    destruct (match_ response ToolConverter.rawJsonRegex) as [jm|] eqn:Hj;
      [|reflexivity].
    destruct (match_span _ _ Hj) as (before & after & Hs & Hidx).
    exists before, after. repeat split; auto.
    rewrite Hidx, Hs at 1. now rewrite substring_prefix.
Qed.

(** X9. A response with neither a backtick nor an opening brace is plain
    text for the two text helpers: no pattern matches it, the text before is
    the response itself, untrimmed, and the text after is empty. *)
Theorem plain_text_is_untouched (response : jsstring) :
  ~ In 96%N response -> ~ In 123%N response ->
  match_ response ToolConverter.codeBlockRegex = None
  /\ match_ response ToolConverter.rawJsonRegex = None
  /\ ToolConverter.extractTextBeforeToolCall response = response
  /\ ToolConverter.extractTextAfterToolCall response = [].
Proof.
  intros Htick Hbrace.
  assert (Hm : match_ response ToolConverter.codeBlockRegex = None).
  { destruct (match_ response ToolConverter.codeBlockRegex) eqn:Hm; [|reflexivity].
    now apply codeBlock_needs_backtick in Hm. }
  assert (Hj : match_ response ToolConverter.rawJsonRegex = None).
  { destruct (match_ response ToolConverter.rawJsonRegex) eqn:Hj; [|reflexivity].
    now apply rawJson_needs_brace in Hj. }
  unfold ToolConverter.extractTextBeforeToolCall, ToolConverter.extractTextAfterToolCall.
  rewrite Hm, Hj. repeat split.
Qed.

(** ** Buffers: UTF-8 written and read back *)

Section Utf8.
Local Open Scope N_scope.

Lemma leb_true (a b : N) : a <= b -> (a <=? b) = true.
Proof. apply N.leb_le. Qed.

Lemma ltb_false (a b : N) : b <= a -> (a <? b) = false.
Proof. apply N.ltb_ge. Qed.

Lemma decode1 (b0 : N) (rest : list N) :
  b0 < 128 -> utf8Decode (b0 :: rest) = b0 :: utf8Decode rest.
Proof. intros H. cbn [utf8Decode]. apply N.ltb_lt in H. now rewrite H. Qed.

Lemma decode2 (b0 b1 : N) (rest : list N) :
  194 <= b0 <= 223 -> 128 <= b1 <= 191 ->
  utf8Decode (b0 :: b1 :: rest) = ((b0 - 192) * 64 + (b1 - 128)) :: utf8Decode rest.
Proof.
  intros [H0 H0'] [H1 H1']. cbn [utf8Decode]. unfold isContinuation.
  rewrite (@ltb_false b0 128) by lia.
  now rewrite !leb_true by assumption.
Qed.

Lemma decode3 (b0 b1 b2 : N) (rest : list N) :
  224 <= b0 <= 239 ->
  (if b0 =? 224 then 160 else 128) <= b1 ->
  b1 <= (if b0 =? 237 then 159 else 191) ->
  128 <= b2 <= 191 ->
  utf8Decode (b0 :: b1 :: b2 :: rest)
  = ((b0 - 224) * 4096 + (b1 - 128) * 64 + (b2 - 128)) :: utf8Decode rest.
Proof.
  intros [H0 H0'] H1 H1' [H2 H2']. cbn [utf8Decode]. unfold isContinuation.
  rewrite (@ltb_false b0 128) by lia.
  replace (194 <=? b0) with true by (symmetry; apply N.leb_le; lia).
  replace (b0 <=? 223) with false by (symmetry; apply N.leb_gt; lia).
  cbn [andb].
  now rewrite !leb_true by assumption.
Qed.

Lemma decode4 (b0 b1 b2 b3 : N) (rest : list N) :
  240 <= b0 <= 244 ->
  (if b0 =? 240 then 144 else 128) <= b1 ->
  b1 <= (if b0 =? 244 then 143 else 191) ->
  128 <= b2 <= 191 ->
  128 <= b3 <= 191 ->
  utf8Decode (b0 :: b1 :: b2 :: b3 :: rest)
  = unitsOf ((b0 - 240) * 262144 + (b1 - 128) * 4096 + (b2 - 128) * 64 + (b3 - 128))
    ++ utf8Decode rest.
Proof.
  intros [H0 H0'] H1 H1' [H2 H2'] [H3 H3']. cbn [utf8Decode]. unfold isContinuation.
  rewrite (@ltb_false b0 128) by lia.
  replace (194 <=? b0) with true by (symmetry; apply N.leb_le; lia).
  replace (b0 <=? 223) with false by (symmetry; apply N.leb_gt; lia).
  replace (224 <=? b0) with true by (symmetry; apply N.leb_le; lia).
  replace (b0 <=? 239) with false by (symmetry; apply N.leb_gt; lia).
  cbn [andb].
  now rewrite !leb_true by assumption.
Qed.

(** [cp = 64 * (cp / 64) + cp mod 64] and so on. *)
Lemma sextets (cp : N) :
  exists q1 r1 q2 r2 q3 r3,
    cp / 64 = q1 /\ cp mod 64 = r1
    /\ cp / 4096 = q2 /\ (cp / 64) mod 64 = r2
    /\ cp / 262144 = q3 /\ (cp / 4096) mod 64 = r3
    /\ cp = 64 * q1 + r1 /\ r1 < 64
    /\ q1 = 64 * q2 + r2 /\ r2 < 64
    /\ q2 = 64 * q3 + r3 /\ r3 < 64.
Proof.
  assert (H64 : 64 <> 0) by discriminate.
  exists (cp / 64), (cp mod 64), (cp / 4096), ((cp / 64) mod 64),
    (cp / 262144), ((cp / 4096) mod 64).
  replace (cp / 4096) with (cp / 64 / 64) by (now rewrite N.Div0.div_div).
  replace (cp / 262144) with (cp / 64 / 64 / 64) by (now rewrite !N.Div0.div_div).
  repeat split; try (apply N.div_mod'); now apply N.mod_lt.
Qed.

Lemma decode_bytesOf (cp : N) (rest : list N) :
  cp < 1114112 -> (cp < 55296 \/ 57343 < cp) ->
  utf8Decode (bytesOf cp ++ rest) = unitsOf cp ++ utf8Decode rest.
Proof.
  intros Hmax Hscalar. unfold bytesOf.
  destruct (sextets cp)
    as (q1 & r1 & q2 & r2 & q3 & r3 & -> & -> & -> & -> & -> & ->
        & D1 & M1 & D2 & M2 & D3 & M3).
  destruct (N.ltb_spec cp 128) as [H1|H1].
  - cbn [app]. rewrite decode1 by exact H1. unfold unitsOf.
    now replace (cp <? 65536) with true by (symmetry; apply N.ltb_lt; lia).
  - destruct (N.ltb_spec cp 2048) as [H2|H2].
    + cbn [app]. rewrite decode2 by lia. unfold unitsOf.
      replace (cp <? 65536) with true by (symmetry; apply N.ltb_lt; lia).
      cbn [app]. f_equal. lia.
    + destruct (N.ltb_spec cp 65536) as [H3|H3].
      * cbn [app]. rewrite decode3.
        -- unfold unitsOf.
           replace (cp <? 65536) with true by (symmetry; apply N.ltb_lt; lia).
           cbn [app]. f_equal. lia.
        -- lia.
        -- destruct (N.eqb_spec (224 + q2) 224); lia.
        -- destruct (N.eqb_spec (224 + q2) 237); lia.
        -- lia.
      * cbn [app]. rewrite decode4.
        -- do 2 f_equal. lia.
        -- lia.
        -- destruct (N.eqb_spec (240 + q3) 240); lia.
        -- destruct (N.eqb_spec (240 + q3) 244); lia.
        -- lia.
        -- lia.
Qed.

Lemma bytesOf_small (cp : N) :
  cp < 1114112 -> Forall (fun b => b < 256) (bytesOf cp).
Proof.
  intros Hmax. unfold bytesOf.
  destruct (sextets cp)
    as (q1 & r1 & q2 & r2 & q3 & r3 & -> & -> & -> & -> & -> & ->
        & D1 & M1 & D2 & M2 & D3 & M3).
  destruct (N.ltb_spec cp 128); [repeat constructor; lia|].
  destruct (N.ltb_spec cp 2048); [repeat constructor; lia|].
  destruct (N.ltb_spec cp 65536); repeat constructor; lia.
Qed.

Lemma unitsOf_pair (c d : N) :
  55296 <= c <= 56319 -> 56320 <= d <= 57343 ->
  unitsOf (65536 + (c - 55296) * 1024 + (d - 56320)) = [c; d].
Proof.
  intros Hc Hd. unfold unitsOf.
  replace (_ <? 65536) with false by (symmetry; apply N.ltb_ge; lia).
  replace (65536 + (c - 55296) * 1024 + (d - 56320) - 65536)
    with ((d - 56320) + (c - 55296) * 1024) by lia.
  rewrite N.div_add by discriminate.
  rewrite N.Div0.mod_add.
  rewrite N.div_small, N.mod_small by lia.
  f_equal; [lia|]. f_equal. lia.
Qed.

Lemma surrogate_bounds (c : N) :
  (JSON.isLeadingSurrogate c = true <-> 55296 <= c <= 56319)
  /\ (JSON.isTrailingSurrogate c = true <-> 56320 <= c <= 57343).
Proof.
  unfold JSON.isLeadingSurrogate, JSON.isTrailingSurrogate.
  rewrite !andb_true_iff, !N.leb_le. tauto.
Qed.

(** Decoding what was encoded gives the text back, when no surrogate of the
    text stands on its own. *)
Lemma decode_encode (n : nat) :
  forall s rest,
    (length s <= n)%nat -> wide s -> wellFormed s = true ->
    utf8Decode (utf8Encode s ++ rest) = s ++ utf8Decode rest.
Proof.
  induction n as [|n IH]; intros s rest Hlen Hw Hwf.
  - destruct s; [reflexivity|simpl in Hlen; lia].
  - destruct s as [|c t]; [reflexivity|].
    inversion Hw as [|? ? Hc Ht]; subst.
    cbn [utf8Encode wellFormed] in *.
    destruct (JSON.isLeadingSurrogate c) eqn:Hlead.
    + destruct t as [|d t']; [discriminate|].
      apply andb_true_iff in Hwf as [Htrail Hwf].
      rewrite Htrail. inversion Ht as [|? ? Hd Ht']; subst.
      apply surrogate_bounds in Hlead. apply surrogate_bounds in Htrail.
      rewrite <- app_assoc, decode_bytesOf by lia.
      rewrite unitsOf_pair by assumption.
      rewrite IH; [reflexivity| |exact Ht'|exact Hwf].
      simpl in Hlen. lia.
    + apply andb_true_iff in Hwf as [Htrail Hwf].
      apply negb_true_iff in Htrail. rewrite Htrail.
      assert (Hscalar : c < 55296 \/ 57343 < c).
      { destruct (surrogate_bounds c) as [Hl Hr].
        destruct (N.ltb_spec c 55296); [now left|]. right.
        destruct (N.leb_spec c 56319).
        - assert (JSON.isLeadingSurrogate c = true) by (apply Hl; lia). congruence.
        - destruct (N.leb_spec c 57343); [|assumption].
          assert (JSON.isTrailingSurrogate c = true) by (apply Hr; lia). congruence. }
      rewrite <- app_assoc, decode_bytesOf by lia.
      unfold unitsOf. replace (c <? 65536) with true by (symmetry; apply N.ltb_lt; lia).
      rewrite IH; [reflexivity| |exact Ht|exact Hwf].
      simpl in Hlen. lia.
Qed.

Lemma utf8Encode_small (n : nat) :
  forall s, (length s <= n)%nat -> wide s -> Forall (fun b => b < 256) (utf8Encode s).
Proof.
  induction n as [|n IH]; intros s Hlen Hw.
  - destruct s; [constructor|simpl in Hlen; lia].
  - destruct s as [|c t]; [constructor|].
    inversion Hw as [|? ? Hc Ht]; subst. cbn [utf8Encode].
    assert (Hrep : Forall (fun b => b < 256) (bytesOf replacement))
      by (apply bytesOf_small; reflexivity).
    assert (Htail : Forall (fun b => b < 256) (utf8Encode t))
      by (apply IH; [simpl in Hlen; lia|exact Ht]).
    destruct (JSON.isLeadingSurrogate c) eqn:Hlead.
    + destruct t as [|d t']; [exact Hrep|].
      inversion Ht as [|? ? Hd Ht']; subst.
      destruct (JSON.isTrailingSurrogate d) eqn:Htrail.
      * apply Forall_app. split.
        -- apply bytesOf_small.
           apply surrogate_bounds in Hlead. apply surrogate_bounds in Htrail. lia.
        -- apply IH; [simpl in Hlen; lia|exact Ht'].
      * apply Forall_app. now split.
    + destruct (JSON.isTrailingSurrogate c); apply Forall_app; split; auto.
      apply bytesOf_small. lia.
Qed.

Lemma to_N_byteOf (n : N) : n < 256 -> Byte.to_N (byteOf n) = n.
Proof.
  intros H. unfold byteOf.
  destruct (Byte.of_N n) as [b|] eqn:Hb.
  - now apply Byte.to_of_N.
  - apply Byte.of_N_None_iff in Hb. lia.
Qed.

Lemma to_N_bytes (l : list N) :
  Forall (fun b => b < 256) l -> map Byte.to_N (map byteOf l) = l.
Proof.
  induction 1 as [|b l Hb _ IH]; [reflexivity|].
  simpl. now rewrite to_N_byteOf, IH.
Qed.

(** A text written and read back. *)
Lemma toString_bufferFrom (s : jsstring) :
  wide s -> wellFormed s = true -> toString (bufferFrom s) = s.
Proof.
  intros Hw Hwf. unfold toString, bufferFrom.
  rewrite to_N_bytes by (apply (utf8Encode_small (n := length s)); auto).
  rewrite <- (app_nil_r (utf8Encode s)).
  rewrite (decode_encode (n := length s)) by auto.
  apply app_nil_r.
Qed.

End Utf8.

(** ** StreamHandler *)

Lemma splitLines_nonempty (s : jsstring) : splitLines s <> [].
Proof.
  destruct s as [|c t]; simpl; [discriminate|].
  destruct (N.eqb c 10); [discriminate|].
  destruct (splitLines t); discriminate.
Qed.

(** Splitting a text that arrives in two parts: the lines of the first part
    but the last, then the lines of that last one continued by the second
    part. *)
Lemma splitLines_app (x y : jsstring) :
  splitLines (x ++ y)
  = removelast (splitLines x) ++ splitLines (last (splitLines x) [] ++ y).
Proof.
  induction x as [|c t IH]; [reflexivity|].
  change ((c :: t) ++ y) with (c :: (t ++ y)).
  cbn [splitLines]. rewrite IH.
  pose proof (splitLines_nonempty t) as Hne.
  destruct (N.eqb c 10) eqn:Hc.
  - destruct (splitLines t) as [|l ls] eqn:Ht; [contradiction|].
    reflexivity.
  - destruct (splitLines t) as [|l ls] eqn:Ht; [contradiction|].
    destruct ls as [|l' ls'].
    + cbn [removelast last app]. cbn [splitLines]. rewrite Hc. reflexivity.
    + reflexivity.
Qed.

Lemma contents_app (a b : list jsstring) :
  StreamHandler.contents (a ++ b)
  = StreamHandler.contents a ++ StreamHandler.contents b.
Proof. unfold StreamHandler.contents. now rewrite map_app, filter_app. Qed.

Lemma splitLines_plain (s : jsstring) :
  ~ In 10%N s -> splitLines s = [s].
Proof.
  induction s as [|c t IH]; intros H; [reflexivity|].
  cbn [splitLines]. destruct (N.eqb c 10) eqn:Hc.
  - apply N.eqb_eq in Hc. subst c. exfalso. apply H. now left.
  - rewrite IH; [reflexivity|]. intros Hin. apply H. now right.
Qed.

Lemma splitLines_last (s : jsstring) : ~ In 10%N (last (splitLines s) []).
Proof.
  induction s as [|c t IH]; [simpl; tauto|].
  cbn [splitLines]. pose proof (splitLines_nonempty t) as Hne.
  destruct (N.eqb c 10) eqn:Hc.
  - destruct (splitLines t) as [|l ls]; [contradiction|]. exact IH.
  - destruct (splitLines t) as [|l ls]; [contradiction|].
    destruct ls as [|l' ls']; [|exact IH].
    simpl in *. intros [H|H]; [|tauto].
    subst c. discriminate.
Qed.

Lemma last_app_r {A} (a b : list A) (d : A) :
  b <> [] -> last (a ++ b) d = last b d.
Proof.
  intros Hb. induction a as [|x a IH]; [reflexivity|].
  simpl. rewrite IH. destruct (a ++ b) eqn:Hab; [|reflexivity].
  apply app_eq_nil in Hab as [_ ->]. contradiction.
Qed.

Lemma feed_lines (chunks : list (list Byte.byte)) :
  forall buffer : jsstring,
    ~ In 10%N buffer ->
    StreamHandler.feed buffer chunks
    = (last (splitLines (buffer ++ concat (map toString chunks))) [],
       StreamHandler.contents
         (removelast (splitLines (buffer ++ concat (map toString chunks))))).
Proof.
  induction chunks as [|chunk more IH]; intros buffer Hbuf.
  - simpl. rewrite app_nil_r, (splitLines_plain _ Hbuf). reflexivity.
  - cbn [StreamHandler.feed StreamHandler.onData concat map].
    rewrite IH by apply splitLines_last.
    rewrite app_assoc,
      (splitLines_app (buffer ++ toString chunk) (concat (map toString more))).
    pose proof (splitLines_nonempty
                  (last (splitLines (buffer ++ toString chunk)) []
                   ++ concat (map toString more))) as Hne.
    rewrite last_app_r by exact Hne. f_equal.
    rewrite removelast_app by exact Hne. now rewrite contents_app.
Qed.

Lemma contents_blank : StreamHandler.contents [[]] = [].
Proof. reflexivity. Qed.

(** [parseStream] on the lines of the text its chunks decode to. *)
Lemma parseStream_lines (chunks : list (list Byte.byte)) :
  StreamHandler.parseStream chunks
  = StreamHandler.contents (splitLines (concat (map toString chunks))).
Proof.
  unfold StreamHandler.parseStream.
  rewrite feed_lines by (simpl; tauto). simpl app.
  pose proof (splitLines_nonempty (concat (map toString chunks))) as Hne.
  transitivity (StreamHandler.contents
                  (removelast (splitLines (concat (map toString chunks)))
                   ++ [last (splitLines (concat (map toString chunks))) []])).
  - rewrite contents_app. f_equal.
    destruct (last (splitLines (concat (map toString chunks))) []); reflexivity.
  - now rewrite <- app_removelast_last.
Qed.

(** Pieces of a text, each written as UTF-8 and decoded on its own, give
    the text back. *)
Lemma pieces_read_back (pieces : list jsstring) :
  Forall (fun p => wide p /\ wellFormed p = true) pieces ->
  concat (map toString (map bufferFrom pieces)) = concat pieces.
Proof.
  induction 1 as [|p more [Hw Hwf] _ IH]; [reflexivity|].
  cbn [map concat]. now rewrite IH, toString_bufferFrom.
Qed.


(** The whole line of a data event is never JSON. *)
Lemma parse_data_line (trimmed : jsstring) :
  startsWith trimmed StreamHandler.dataPrefix = true ->
  JSON.parse trimmed = Throw SyntaxError.
Proof.
  destruct trimmed as [|c t]; [discriminate|].
  change StreamHandler.dataPrefix with (100%N :: lit "ata: ").
  cbn [startsWith]. intros H. apply andb_true_iff in H as [H _].
  apply N.eqb_eq in H. subst c. reflexivity.
Qed.

(** X13. A line that starts with the data prefix is settled by its payload
    alone: the second parse, of the whole line, always fails, so the line
    gives what the first block returned, and null when that block returned
    nothing or threw.  A blank line and the end marker give null. *)
Theorem data_line_is_settled_by_payload (line : jsstring) :
  (startsWith (trim line) StreamHandler.dataPrefix = true ->
   StreamHandler.extractContent line
   = if string_eqb (trim line) StreamHandler.done then Val JNull
     else match StreamHandler.fromDataPayload (slice (trim line) 6) with
          | Normal (Some v) => v
          | _ => Val JNull
          end)
  /\ (trim line = [] \/ trim line = StreamHandler.done ->
      StreamHandler.extractContent line = Val JNull).
Proof.
  unfold StreamHandler.extractContent. split.
  - intros Hdata. rewrite Hdata.
    destruct (trim line) as [|c t] eqn:Ht; [discriminate|].
    cbn [nonEmpty negb orb].
    destruct (string_eqb (c :: t) StreamHandler.done); [reflexivity|].
    unfold StreamHandler.fromBareLine. rewrite (parse_data_line _ Hdata).
    destruct (StreamHandler.fromDataPayload _) as [[v|]|err]; reflexivity.
  - intros [-> | ->]; reflexivity.
Qed.

(** ** callTargetLLM: the reply text *)



(** ** ToolExecutor *)

Section Executor.
Variable messageOf : JSError -> jsstring.

Lemma get_registerTool (r : ToolExecutor.Registry) (name : jsstring)
      (f : ToolExecutor.Implementation) :
  ToolExecutor.get (ToolExecutor.registerTool r name f) name = Some f
  /\ (forall other, other <> name ->
        ToolExecutor.get (ToolExecutor.registerTool r name f) other
        = ToolExecutor.get r other).
Proof.
  induction r as [|[k g] more [IHsame IHother]]; simpl.
  - rewrite string_eqb_refl. split; [reflexivity|].
    intros other Hne. destruct (string_eqb name other) eqn:Heq; [|reflexivity].
    apply string_eqb_eq in Heq. congruence.
  - destruct (string_eqb k name) eqn:Hk; simpl.
    + rewrite Hk. split; [reflexivity|].
      intros other Hne. apply string_eqb_eq in Hk. subst k.
      destruct (string_eqb name other) eqn:Heq; [|reflexivity].
      apply string_eqb_eq in Heq. congruence.
    + rewrite Hk. split; [exact IHsame|].
      intros other Hne. destruct (string_eqb k other); [reflexivity|].
      now apply IHother.
Qed.

(** X15. The executor runs nothing that the request did not offer: a call
    whose name no available tool carries gets the "not found" object,
    whatever the registry holds; so does every call whose name is not a
    string, which the extractor can return.  A tool that is offered but has
    no registered implementation is left to the client. *)
Theorem executor_runs_offered_tools_only (r : ToolExecutor.Registry)
        (toolCall : ToolCall) (availableTools : list Tool) :
  let toolName := fn_name (tc_function toolCall) in
  ((forall t, In t availableTools ->
      toolName <> Val (JString (fd_name (tool_function t)))) ->
   ToolExecutor.executeToolCall messageOf r toolCall availableTools
   = Val (ToolExecutor.notFound toolName))
  /\ ((forall s, toolName <> Val (JString s)) ->
      ToolExecutor.executeToolCall messageOf r toolCall availableTools
      = Val (ToolExecutor.notFound toolName))
  /\ (forall s t,
        toolName = Val (JString s) ->
        In t availableTools -> fd_name (tool_function t) = s ->
        ToolExecutor.get r s = None ->
        ToolExecutor.executeToolCall messageOf r toolCall availableTools
        = Val (ToolExecutor.clientTool toolName)).
Proof.
  intros toolName. unfold ToolExecutor.executeToolCall. fold toolName.
  assert (Hnone : (forall t, In t availableTools ->
                     toolName <> Val (JString (fd_name (tool_function t)))) ->
                  find (ToolExecutor.named toolName) availableTools = None).
  { intros Hno. destruct (find _ _) as [t|] eqn:Hfind; [|reflexivity].
    apply find_some in Hfind as [Hin Hnamed]. exfalso. apply (Hno t Hin).
    unfold ToolExecutor.named in Hnamed.
    destruct toolName as [|[| | |s| |]]; try discriminate.
    apply string_eqb_eq in Hnamed. now rewrite Hnamed. }
  split; [|split].
  - intros Hno. now rewrite Hnone.
  - intros Hno. rewrite Hnone; [reflexivity|]. intros t _. apply Hno.
  - intros s t Hname Hin Ht Hget.
    destruct (find _ _) as [t'|] eqn:Hfind.
    + unfold ToolExecutor.lookupTool. rewrite Hname, Hget. reflexivity.
    + exfalso. apply (find_none _ _ Hfind) in Hin.
      unfold ToolExecutor.named in Hin. rewrite Hname, Ht in Hin.
      now rewrite string_eqb_refl in Hin.
Qed.

(** X16. Registering an implementation under a name makes it the one that
    runs for an offered tool of that name, in place of any earlier one, and
    changes nothing for other names.  Its result comes back as it is; what
    it throws, and arguments that are not JSON, come back as an error
    object, so the executor itself never throws. *)
Theorem registered_implementation_runs (r : ToolExecutor.Registry)
        (name : jsstring) (f : ToolExecutor.Implementation)
        (toolCall : ToolCall) (availableTools : list Tool) (t : Tool) :
  fn_name (tc_function toolCall) = Val (JString name) ->
  In t availableTools -> fd_name (tool_function t) = name ->
  ToolExecutor.executeToolCall messageOf (ToolExecutor.registerTool r name f)
    toolCall availableTools
  = match JSON.parse (fn_arguments (tc_function toolCall)) with
    | Normal args =>
        match f args with
        | Normal result => result
        | Throw err => Val (ToolExecutor.failed messageOf (Val (JString name)) err)
        end
    | Throw err => Val (ToolExecutor.failed messageOf (Val (JString name)) err)
    end
  /\ (forall other toolCall',
        other <> name ->
        fn_name (tc_function toolCall') = Val (JString other) ->
        ToolExecutor.executeToolCall messageOf (ToolExecutor.registerTool r name f)
          toolCall' availableTools
        = ToolExecutor.executeToolCall messageOf r toolCall' availableTools).
Proof.
  intros Hname Hin Ht. destruct (get_registerTool r name f) as [Hsame Hother].
  split.
  - unfold ToolExecutor.executeToolCall. rewrite Hname.
    destruct (find _ _) as [t'|] eqn:Hfind.
    + unfold ToolExecutor.lookupTool. rewrite Hsame.
      destruct (JSON.parse _) as [args|err]; [|reflexivity].
      simpl bind. destruct (f args); reflexivity.
    + exfalso. apply (find_none _ _ Hfind) in Hin.
      unfold ToolExecutor.named in Hin. rewrite Ht in Hin.
      now rewrite string_eqb_refl in Hin.
  - intros other toolCall' Hne Hname'.
    unfold ToolExecutor.executeToolCall. rewrite Hname'.
    unfold ToolExecutor.lookupTool. now rewrite Hother.
Qed.

End Executor.

(** ** RequestLogger *)

Lemma replaceProperty_present (h : list (jsstring * json)) (k : jsstring) (v : json) :
  lookup h k <> Undefined ->
  exists h',
    JSON.replaceProperty h k v = Some h'
    /\ map fst h' = map fst h
    /\ lookup h' k = Val v
    /\ (forall other, other <> k -> lookup h' other = lookup h other).
Proof.
  induction h as [|[k' v'] t IH]; simpl; [congruence|].
  destruct (string_eqb k' k) eqn:Hk; intros Hl.
  - apply string_eqb_eq in Hk. subst k'.
    eexists. split; [reflexivity|]. simpl. rewrite string_eqb_refl.
    repeat split. intros other Hne.
    destruct (string_eqb k other) eqn:Heq; [|reflexivity].
    apply string_eqb_eq in Heq. congruence.
  - destruct (IH Hl) as (t' & -> & Hkeys & Hsame & Hother).
    eexists. split; [reflexivity|]. simpl. rewrite Hk, Hkeys.
    repeat split; [exact Hsame|].
    intros other Hne. destruct (string_eqb k' other); [reflexivity|].
    now apply Hother.
Qed.

Lemma assign_present (h : RequestLogger.Headers) (k : jsstring) (v : json) :
  truthy (lookup h k) = true ->
  map fst (RequestLogger.assign h k v) = map fst h
  /\ lookup (RequestLogger.assign h k v) k = Val v
  /\ (forall other, other <> k ->
        lookup (RequestLogger.assign h k v) other = lookup h other).
Proof.
  intros Ht. unfold RequestLogger.assign, JSON.defineProperty.
  destruct (@replaceProperty_present h k v) as (h' & -> & H); [|exact H].
  intros Hu. now rewrite Hu in Ht.
Qed.

Lemma substring_short (s : jsstring) (n : nat) :
  substring s 0 (Z.of_nat n) = firstn n s.
Proof.
  unfold substring, clamp.
  rewrite Z.max_id, Z.min_l by lia. simpl Z.to_nat.
  rewrite Nat.min_0_l, Nat.max_0_l, Nat.sub_0_r. simpl skipn.
  rewrite Z.max_l by lia.
  destruct (Z.le_ge_cases (Z.of_nat n) (Z.of_nat (length s))) as [Hle|Hge].
  - rewrite Z.min_l by lia. now rewrite Nat2Z.id.
  - rewrite Z.min_r by lia. rewrite Nat2Z.id.
    rewrite firstn_all. symmetry. apply firstn_all2. lia.
Qed.

Lemma truncate_spec (h h' : RequestLogger.Headers) (k : jsstring) :
  RequestLogger.truncate h k = Normal h' ->
  map fst h' = map fst h
  /\ (forall other, other <> k -> lookup h' other = lookup h other)
  /\ (truthy (lookup h k) = false -> lookup h' k = lookup h k)
  /\ (truthy (lookup h k) = true ->
      exists s, lookup h k = Val (JString s)
                /\ lookup h' k = Val (JString (firstn 20 s ++ lit "..."))).
Proof.
  unfold RequestLogger.truncate.
  destruct (truthy (lookup h k)) eqn:Ht.
  - destruct (lookup h k) as [|[| | |s| |]] eqn:Hl; try discriminate.
    intros [= <-].
    rewrite <- Hl in Ht.
    destruct (assign_present h k (JString (substring s 0 20 ++ lit "...")) Ht)
      as (Hkeys & Hsame & Hother).
    repeat split; auto; [discriminate|].
    intros _. exists s. split; [reflexivity|].
    rewrite Hsame. now rewrite <- (substring_short s 20).
  - intros [= <-]. repeat split; auto. discriminate.
Qed.

(** X17. What [sanitizeHeaders] gives back when it returns: the same header
    names in the same order; under [authorization] and [Authorization] a
    truthy value cut to its first twenty code units followed by three dots,
    so at most twenty-three code units; under [api-key] three stars in place
    of any truthy value; and every other header as it was.  It throws, a
    TypeError, exactly when one of the two authorization headers holds a
    truthy value that is not a string. *)
Theorem sanitized_headers_hide_secrets (headers : RequestLogger.Headers) :
  match RequestLogger.sanitizeHeaders headers with
  | Normal out =>
      map fst out = map fst headers
      /\ (forall k, k = lit "authorization" \/ k = lit "Authorization" ->
            if truthy (lookup headers k)
            then exists s, lookup headers k = Val (JString s)
                           /\ lookup out k = Val (JString (firstn 20 s ++ lit "..."))
                           /\ (length (firstn 20 s ++ lit "...") <= 23)%nat
            else lookup out k = lookup headers k)
      /\ lookup out (lit "api-key")
         = (if truthy (lookup headers (lit "api-key"))
            then Val (JString (lit "***"))
            else lookup headers (lit "api-key"))
      /\ (forall k, k <> lit "authorization" -> k <> lit "Authorization" ->
            k <> lit "api-key" -> lookup out k = lookup headers k)
  | Throw err =>
      err = TypeError
      /\ exists k v,
           (k = lit "authorization" \/ k = lit "Authorization")
           /\ lookup headers k = Val v
           /\ truthy (Val v) = true
           /\ (forall s, v <> JString s)
  end.
Proof.
  unfold RequestLogger.sanitizeHeaders.
  destruct (RequestLogger.truncate headers (lit "authorization")) as [h1|err1] eqn:H1.
  - simpl bind.
    destruct (truncate_spec _ _ H1) as (Hk1 & Ho1 & Hf1 & Ht1).
    destruct (RequestLogger.truncate h1 (lit "Authorization")) as [h2|err2] eqn:H2.
    + simpl bind.
      destruct (truncate_spec _ _ H2) as (Hk2 & Ho2 & Hf2 & Ht2).
      assert (Hne12 : lit "Authorization" <> lit "authorization") by discriminate.
      assert (Hne21 : lit "authorization" <> lit "Authorization") by discriminate.
      assert (Hne13 : lit "api-key" <> lit "authorization") by discriminate.
      assert (Hne23 : lit "api-key" <> lit "Authorization") by discriminate.
      assert (Hkey : lookup h2 (lit "api-key") = lookup headers (lit "api-key")).
      { rewrite Ho2, Ho1; auto. }
      assert (Hlen : forall s : jsstring,
                 (length (firstn 20 s ++ lit "...") <= 23)%nat).
      { intros s. rewrite length_app, length_firstn.
        change (length (lit "...")) with 3%nat.
        pose proof (Nat.le_min_l 20 (length s)). lia. }
      unfold RequestLogger.mask. rewrite Hkey.
      destruct (truthy (lookup headers (lit "api-key"))) eqn:Hapi.
      * rewrite <- Hkey in Hapi.
        destruct (assign_present h2 (lit "api-key") (JString (lit "***")) Hapi)
          as (Hk3 & Hs3 & Ho3).
        repeat split.
        -- now rewrite Hk3, Hk2, Hk1.
        -- intros k [-> | ->].
           ++ rewrite Ho3, Ho2 by auto.
              destruct (truthy (lookup headers (lit "authorization"))) eqn:Ha.
              ** destruct (Ht1 eq_refl) as (s & Hs & Hs').
                 exists s. repeat split; auto.
              ** now apply Hf1.
           ++ rewrite Ho3 by auto. rewrite <- (Ho1 (lit "Authorization")) by auto.
              destruct (truthy (lookup h1 (lit "Authorization"))) eqn:Ha.
              ** destruct (Ht2 eq_refl) as (s & Hs & Hs').
                 exists s. repeat split; auto.
              ** now apply Hf2.
        -- exact Hs3.
        -- intros k Hka HkA Hkk. rewrite Ho3, Ho2, Ho1; auto.
      * repeat split.
        -- now rewrite Hk2, Hk1.
        -- intros k [-> | ->].
           ++ rewrite Ho2 by auto.
              destruct (truthy (lookup headers (lit "authorization"))) eqn:Ha.
              ** destruct (Ht1 eq_refl) as (s & Hs & Hs').
                 exists s. repeat split; auto.
              ** now apply Hf1.
           ++ rewrite <- (Ho1 (lit "Authorization")) by auto.
              destruct (truthy (lookup h1 (lit "Authorization"))) eqn:Ha.
              ** destruct (Ht2 eq_refl) as (s & Hs & Hs').
                 exists s. repeat split; auto.
              ** now apply Hf2.
        -- exact Hkey.
        -- intros k Hka HkA Hkk. rewrite Ho2, Ho1; auto.
    + simpl bind. unfold RequestLogger.truncate in H2.
      destruct (truthy (lookup h1 (lit "Authorization"))) eqn:Ht; [|discriminate].
      rewrite Ho1 in Ht, H2 by discriminate.
      destruct (lookup headers (lit "Authorization")) as [|v] eqn:Hl; [discriminate|].
      destruct v; try discriminate; injection H2 as <-;
        (split; [reflexivity|]);
        exists (lit "Authorization"); eexists;
        (repeat split; [now right|exact Hl|exact Ht|discriminate]).
  - simpl bind. unfold RequestLogger.truncate in H1.
    destruct (truthy (lookup headers (lit "authorization"))) eqn:Ht; [|discriminate].
    destruct (lookup headers (lit "authorization")) as [|v] eqn:Hl; [discriminate|].
    destruct v; try discriminate; injection H1 as <-;
      (split; [reflexivity|]);
      exists (lit "authorization"); eexists;
      (repeat split; [now left|exact Hl|exact Ht|discriminate]).
Qed.

(** ** Guards that never fire *)

Lemma In_trimStart_inv (x : char16) (s : jsstring) :
  In x s -> In x (trimStart s) \/ isWhiteSpace x = true.
Proof.
  induction s as [|c s IH]; simpl; [tauto|].
  destruct (isWhiteSpace c) eqn:Hc.
  - intros [<- | H]; [now right|auto].
  - intros H. now left.
Qed.

Lemma In_trim_inv (x : char16) (s : jsstring) :
  In x s -> In x (trim s) \/ isWhiteSpace x = true.
Proof.
  intros H. apply In_trimStart_inv in H as [H|H]; [|now right].
  unfold trim, trimEnd. apply in_rev in H.
  apply In_trimStart_inv in H as [H|H]; [|now right].
  left. now apply in_rev in H.
Qed.

Lemma startsWith_In (s p : jsstring) (x : char16) :
  startsWith s p = true -> In x p -> In x s.
Proof.
  revert s. induction p as [|c p IH]; intros s; [contradiction|].
  destruct s as [|d s]; [discriminate|]. cbn [startsWith].
  intros H [<- | Hx]; apply andb_true_iff in H as [Hcd Hs].
  - apply N.eqb_eq in Hcd. now left.
  - right. now apply IH.
Qed.

Lemma includes_In (s p : jsstring) (x : char16) :
  includes s p = true -> In x p -> In x s.
Proof.
  induction s as [|d s IH]; cbn [includes]; intros H Hx;
    apply orb_true_iff in H as [H|H]; try discriminate.
  - eapply startsWith_In; eauto.
  - eapply startsWith_In; eauto.
  - right. auto.
Qed.

(** X19. The "just a mention" guard of [shouldAttemptToolExtraction] never
    changes its answer: a response that trims to one of the two sentences
    holds neither an underscore nor a double quote, so it shows none of the
    signs the function looks for.  The function is the test for the signs
    alone. *)
Theorem mention_guard_is_redundant (response : jsstring) :
  ToolConverter.shouldAttemptToolExtraction response
  = includes response (lit "function_call")
    || (includes response (jq "'name'") && includes response (jq "'arguments'")).
Proof.
  unfold ToolConverter.shouldAttemptToolExtraction.
  destruct (ToolConverter.isJustMention response) eqn:Hm;
    [|now rewrite andb_true_r].
  rewrite andb_false_r. symmetry.
  assert (Hchars : forall x, In x response ->
                     In x ToolConverter.sentinel1 \/ isWhiteSpace x = true).
  { intros x Hx. apply In_trim_inv in Hx as [Hx|Hx]; [|now right]. left.
    unfold ToolConverter.isJustMention in Hm.
    apply orb_true_iff in Hm as [Hm|Hm]; apply string_eqb_eq in Hm;
      rewrite Hm in Hx; [exact Hx|].
    unfold ToolConverter.sentinel1, ToolConverter.sentinel2 in *.
    vm_compute in Hx |- *. tauto. }
  assert (Hfc : includes response (lit "function_call") = false).
  { destruct (includes response (lit "function_call")) eqn:Hi; [|reflexivity].
    assert (Hx : In 95%N response).
    { eapply includes_In; [exact Hi|]. vm_compute. tauto. }
    apply Hchars in Hx as [Hx|Hx]; [|discriminate].
    vm_compute in Hx. repeat (destruct Hx as [Hx|Hx]; [discriminate|]).
    contradiction. }
  assert (Hname : includes response (jq "'name'") = false).
  { destruct (includes response (jq "'name'")) eqn:Hi; [|reflexivity].
    assert (Hx : In 34%N response).
    { eapply includes_In; [exact Hi|]. vm_compute. tauto. }
    apply Hchars in Hx as [Hx|Hx]; [|discriminate].
    vm_compute in Hx. repeat (destruct Hx as [Hx|Hx]; [discriminate|]).
    contradiction. }
  now rewrite Hfc, Hname.
Qed.

Lemma trimStart_head (s t : jsstring) (c : char16) :
  trimStart s = c :: t -> isWhiteSpace c = false.
Proof.
  induction s as [|d s IH]; simpl; [discriminate|].
  destruct (isWhiteSpace d) eqn:Hd; [exact IH|].
  now intros [= <- <-].
Qed.

Lemma trimStart_snoc (l : jsstring) (c : char16) :
  isWhiteSpace c = false -> exists l', trimStart (l ++ [c]) = l' ++ [c].
Proof.
  intros Hc. induction l as [|d l IH]; simpl.
  - rewrite Hc. now exists [].
  - destruct (isWhiteSpace d); [exact IH|]. now exists (d :: l).
Qed.

(** What [trim] leaves starts with a code unit that is not white space. *)
Lemma trim_head (s t : jsstring) (c : char16) :
  trim s = c :: t -> isWhiteSpace c = false.
Proof.
  unfold trim, trimEnd.
  destruct (trimStart s) as [|d u] eqn:Hs; [discriminate|].
  pose proof (trimStart_head _ Hs) as Hd.
  simpl rev. destruct (trimStart_snoc (rev u) d Hd) as (l' & ->).
  rewrite rev_app_distr. simpl. now intros [= <- _].
Qed.

(** X20. In the streaming detector the test for a text that starts with a
    line feed and a brace never fires, since it is made on the trimmed text:
    a response looks like a tool call exactly when, trimmed, it starts with
    a brace or holds the quoted key. *)
Theorem newline_brace_test_is_dead (fullResponse : jsstring) :
  startsWith (trim fullResponse) (LF ++ lit "{") = false
  /\ looksLikeToolCall fullResponse
     = startsWith (trim fullResponse) (lit "{")
       || includes (trim fullResponse) (jq "'function_call'").
Proof.
  assert (H : startsWith (trim fullResponse) (LF ++ lit "{") = false).
  { destruct (trim fullResponse) as [|c t] eqn:Ht; [reflexivity|].
    apply trim_head in Ht.
    change (LF ++ lit "{") with [10%N; 123%N]. cbn [startsWith].
    destruct (N.eqb 10 c) eqn:Hc; [|reflexivity].
    apply N.eqb_eq in Hc. subst c. discriminate. }
  split; [exact H|].
  unfold looksLikeToolCall. rewrite H. now rewrite orb_false_r.
Qed.

(** ** Streaming against non-streaming *)

Section Agreement.
Variable this : ProxyHandler.
Variable su : Setup.
Variable request : ChatCompletionRequest.

(** A stream that ends normally and holds no call, or that answers a tool
    result: every delta goes out as content, then the stop chunk. *)
Lemma detect_plain (stream : Stream) :
  failure stream = None ->
  hasToolResponse su = true
  \/ extractToolCallFromResponse (toolConverter this) (concat (deltas stream))
     = Normal None ->
  ending (detect this su request stream) = Normal tt
  /\ contentText (yielded (detect this su request stream)) = concat (deltas stream)
  /\ toolCallsOf (yielded (detect this su request stream)) = []
  /\ lastFinish (yielded (detect this su request stream)) = Some (lit "stop").
Proof.
  intros Hfail Hcase.
  destruct (hasToolResponse su) eqn:Htool.
  - destruct (finalization_passthrough this su request Htool) as [_ Hd].
    rewrite (Hd stream Hfail). simpl. repeat split.
    + rewrite contentText_app, contentText_Content, contentText_End.
      apply app_nil_r.
    + rewrite toolCallsOf_app, toolCallsOf_Content. reflexivity.
    + apply lastFinish_snoc.
  - destruct Hcase as [Hcase|Hnone]; [discriminate|].
    pose proof (detect_no_call_content this su request stream Htool Hfail Hnone)
      as Hcontent.
    destruct (consume su request initialDetection (deltas stream))
      as [st' streamed] eqn:Hrun.
    destruct (consume_split su request Htool _ _ Hrun)
      as (passed & held & Hsplit & Hstreamed & Hbuf & Hfull & _).
    simpl in Hfull. rewrite <- Hfull in Hnone.
    destruct (detect_no_call this su request stream Htool Hfail Hrun Hnone)
      as (_ & (passed' & Hd' & Hs') & Hdetect & Hyes & Hno).
    rewrite Hdetect in *. simpl in *. split; [reflexivity|].
    split; [exact Hcontent|].
    destruct (toolCallDetected st') eqn:Hdet.
    + destruct (Hyes eq_refl) as [_ ->]. rewrite Hs'. split.
      * rewrite !toolCallsOf_app, !toolCallsOf_Content. reflexivity.
      * rewrite app_assoc. apply lastFinish_snoc.
    + destruct (Hno eq_refl) as [_ ->]. rewrite Hs'. split.
      * rewrite toolCallsOf_app, toolCallsOf_Content. reflexivity.
      * apply lastFinish_snoc.
Qed.

(** X11. The two handlers agree on a reply.  When the backend streams, and
    the stream ends normally, the very text it would have returned in one
    piece, then the chunks carry the content, the tool calls and the finish
    reason of the non-streaming response, provided the reply holds no call,
    or answers a tool result, or its first delta already looks like a call. *)
Theorem modes_agree (stream : Stream) (resp : ChatCompletionResponse) :
  failure stream = None ->
  answer this request su (concat (deltas stream)) = Normal resp ->
  hasToolResponse su = true
  \/ resp_tool_calls resp = None
  \/ (exists first more,
         deltas stream = first :: more /\ looksLikeToolCall first = true) ->
  ending (detect this su request stream) = Normal tt
  /\ contentText (yielded (detect this su request stream))
     = orEmpty (resp_content resp)
  /\ toolCallsOf (yielded (detect this su request stream))
     = match resp_tool_calls resp with
       | Some calls => calls
       | None => []
       end
  /\ lastFinish (yielded (detect this su request stream))
     = Some (resp_finish_reason resp).
Proof.
  intros Hfail Hanswer Hcase. unfold answer in Hanswer.
  destruct (hasToolResponse su) eqn:Htool; simpl negb in Hanswer; cbv iota in Hanswer.
  - injection Hanswer as <-.
    destruct (detect_plain stream Hfail) as (He & Hc & Ht & Hf); [now left|].
    simpl. auto.
  - destruct (extractToolCallFromResponse (toolConverter this)
                (concat (deltas stream))) as [[call|]|err] eqn:Hx;
      simpl bind in Hanswer; [| |discriminate].
    + injection Hanswer as <-.
      destruct Hcase as [Hcase|[Hcase|(first & more & Hd & Hlooks)]];
        try discriminate.
      rewrite (detect_call_from_first_delta this su request stream Htool Hfail Hd Hlooks Hx).
      simpl. split; [reflexivity|].
      destruct (meaningful _) eqn:Hm.
      * unfold meaningful in Hm. apply andb_true_iff in Hm as [Hm _]. rewrite Hm.
        simpl. unfold contentText, toolCallsOf, lastFinish. simpl.
        unfold contentOf, Content, createStreamChunk. simpl. rewrite Hm. simpl.
        rewrite app_nil_r. repeat split.
      * simpl. repeat split.
    + injection Hanswer as <-.
      destruct (detect_plain stream Hfail) as (He & Hc & Ht & Hf); [now right|].
      simpl. auto.
Qed.

End Agreement.

Lemma underLimit_new (cfg : ProxyConfig) (e : Entropy) (sent0 : list (list Message)) :
  (0 < maxRoundsOrDefault (maxRounds cfg))%Z ->
  underLimit (new cfg e) {| round := 0; sent := sent0 |} = true.
Proof. intros H. unfold underLimit. simpl. now apply Z.ltb_lt. Qed.

(** X10. A reply without an opening brace goes through both handlers as it
    is.  The non-streaming handler returns it as the content of a completion
    that stops; the streaming handler passes on content that adds up to the
    reply, no tool call, and ends with the stop chunk. *)
Theorem plain_reply_is_forwarded (cfg : ProxyConfig) (e : Entropy) (b : Backend)
        (request : ChatCompletionRequest) (fuel : nat) (reply : jsstring)
        (payload : list Message) :
  ~ In 123%N reply ->
  (0 < maxRoundsOrDefault (maxRounds cfg))%Z ->
  prepareMessagesForTarget (new cfg e)
    (localMessages (setup (new cfg e) b request)) = Normal payload ->
  (callTargetLLM b payload request (localTools (setup (new cfg e) b request))
     (uuidv4 b) = Normal reply ->
   exists o r,
     handleRequest (S fuel) (new cfg e) b request = Some o
     /\ sent (locals o) = [payload]
     /\ result o = Normal r
     /\ resp_id r = uuidv4 b
     /\ resp_model r = model request
     /\ resp_content r = Some reply
     /\ resp_tool_calls r = None
     /\ resp_finish_reason r = lit "stop")
  /\ (forall ds,
        streamTargetLLM b payload request (uuidv4 b)
        = {| deltas := ds; failure := None |} ->
        concat ds = reply ->
        exists o,
          handleStreamingRequest (S fuel) (new cfg e) b request = Some o
          /\ sent (locals o) = [payload]
          /\ ending (result o) = Normal tt
          /\ contentText (yielded (result o)) = reply
          /\ toolCallsOf (yielded (result o)) = []
          /\ lastFinish (yielded (result o)) = Some (lit "stop")).
Proof.
  intros Hno Hlimit Hprep. split.
  - intros Hcall.
    assert (Hanswer : answer (new cfg e) request (setup (new cfg e) b request) reply
                      = Normal (createCompletionResponse (uuidv4 b) reply
                                  (model request))).
    { unfold answer.
      destruct (hasToolResponse _); [reflexivity|]. simpl negb. cbv iota.
      change (extractToolCallFromResponse (toolConverter (new cfg e)) reply)
        with (ToolConverter.extractToolCallFromResponse e reply).
      now rewrite (extract_without_brace e reply Hno). }
    eexists. eexists. rewrite handleRequest_run.
    rewrite (underLimit_new cfg e [] Hlimit), Hprep. split; [reflexivity|].
    split; [reflexivity|]. cbn [result].
    change (conversationId (setup (new cfg e) b request)) with (uuidv4 b).
    rewrite Hcall. simpl bind. rewrite Hanswer.
    split; [reflexivity|]. repeat split.
  - intros ds Hstream Hds. eexists. rewrite handleStreamingRequest_run.
    rewrite (underLimit_new cfg e [] Hlimit), Hprep. split; [reflexivity|].
    split; [reflexivity|]. cbn [result].
    change (conversationId (setup (new cfg e) b request)) with (uuidv4 b).
    rewrite Hstream.
    destruct (@detect_plain (new cfg e) (setup (new cfg e) b request) request
                {| deltas := ds; failure := None |} eq_refl)
      as (He & Hc & Ht & Hf).
    + right. simpl deltas. rewrite Hds.
      exact (extract_without_brace e reply Hno).
    + simpl deltas in Hc. rewrite Hds in Hc. auto.
Qed.

(** ** Messages the converter builds *)

Lemma prepareMessagesForTarget_app (this : ProxyHandler) (a b pa pb : list Message) :
  prepareMessagesForTarget this a = Normal pa ->
  prepareMessagesForTarget this b = Normal pb ->
  prepareMessagesForTarget this (a ++ b) = Normal (pa ++ pb).
Proof.
  revert pa. induction a as [|m a IH]; intros pa Ha Hb; simpl in *.
  - now injection Ha as <-.
  - destruct (prepareMessage this m) as [m'|]; [|discriminate]. simpl in *.
    destruct (prepareMessagesForTarget this a) as [pa'|]; [|discriminate].
    simpl in Ha. injection Ha as <-.
    now rewrite (IH pa' eq_refl Hb).
Qed.

(** X18. The messages the converter builds for a tool exchange always go
    through: the assistant message of a call is sent with its text, or with
    "Calling function: name" when it has none, and never makes the payload
    fail; the tool message of a result is sent as a user message that quotes
    the function name ("tool" when the name is empty) and the result text.
    Appended to a conversation that can be sent, they give a conversation
    that can be sent. *)
Theorem tool_exchange_is_sendable (cfg : ProxyConfig) (e : Entropy)
        (toolCall : ToolCall) (textBefore : option jsstring)
        (toolCallId functionName : jsstring) (result : jsval) :
  let callMessage := ToolConverter.createToolCallMessage toolCall textBefore in
  let resultMessage :=
    ToolConverter.formatToolResponse toolCallId functionName result in
  let sentCall :=
    plainMessage assistant
      (if truthyStr textBefore then orEmpty textBefore
       else lit "Calling function: " ++ ToString (fn_name (tc_function toolCall))) in
  let sentResult :=
    plainMessage user
      (jq "Function '" ++ (if nonEmpty functionName then functionName else lit "tool")
       ++ jq "' returned: " ++ orEmpty (ToolConverter.resultText result)) in
  prepareMessage (new cfg e) callMessage = Normal sentCall
  /\ prepareMessage (new cfg e) resultMessage = Normal sentResult
  /\ (forall history payload,
        prepareMessagesForTarget (new cfg e) history = Normal payload ->
        prepareMessagesForTarget (new cfg e) (history ++ [callMessage; resultMessage])
        = Normal (payload ++ [sentCall; sentResult])).
Proof.
  intros callMessage resultMessage sentCall sentResult.
  assert (Hcall : prepareMessage (new cfg e) callMessage = Normal sentCall).
  { unfold prepareMessage, callMessage, sentCall. simpl.
    unfold orDefault. destruct textBefore as [[|c t]|]; reflexivity. }
  assert (Hresult : prepareMessage (new cfg e) resultMessage = Normal sentResult).
  { unfold prepareMessage, resultMessage, sentResult. simpl.
    unfold ToolConverter.convertToolMessageToUserMessage, orDefault. simpl.
    destruct functionName; reflexivity. }
  split; [exact Hcall|]. split; [exact Hresult|].
  intros history payload Hh. apply prepareMessagesForTarget_app; [exact Hh|].
  cbn [prepareMessagesForTarget]. rewrite Hcall, Hresult. reflexivity.
Qed.

(** ** Quoted strings read back *)

Lemma scanAll_app (a b : jsstring) :
  forall md,
    scanAll md (a ++ b)
    = match scanAll md a with
      | Some (md', ts) =>
          match scanAll md' b with
          | Some (md'', rest) => Some (md'', ts ++ rest)
          | None => None
          end
      | None => None
      end.
Proof.
  induction a as [|c a IH]; intros md; simpl.
  - destruct (scanAll md b) as [[md' ts]|]; reflexivity.
  - destruct (JSON.scan md c) as [[md1 ts1]|]; [|reflexivity].
    rewrite IH. destruct (scanAll md1 a) as [[md2 ts2]|]; [|reflexivity].
    destruct (scanAll md2 b) as [[md3 ts3]|]; [|reflexivity].
    now rewrite app_assoc.
Qed.

Lemma tokenize_scanAll (text : jsstring) :
  forall md,
    JSON.tokenize md text
    = match scanAll md text with
      | Some (md', ts) =>
          match JSON.scanEnd md' with
          | Some rest => Some (ts ++ rest)
          | None => None
          end
      | None => None
      end.
Proof.
  induction text as [|c more IH]; intros md; simpl.
  - destruct (JSON.scanEnd md); reflexivity.
  - destruct (JSON.scan md c) as [[md1 ts1]|]; [|reflexivity].
    rewrite IH. destruct (scanAll md1 more) as [[md2 ts2]|]; [|reflexivity].
    destruct (JSON.scanEnd md2); [|reflexivity]. now rewrite app_assoc.
Qed.

Lemma hexValue_hexDigit (k : N) :
  (k < 16)%N -> JSON.hexValue (JSON.hexDigit k) = Some k.
Proof.
  intros Hk.
  assert (H : In k (map N.of_nat (seq 0 16))).
  { apply in_map_iff. exists (N.to_nat k). split; [apply N2Nat.id|].
    apply in_seq. lia. }
  simpl in H.
  repeat (destruct H as [<- | H]; [reflexivity|]). contradiction.
Qed.

Lemma unicode_value (c : char16) :
  (c < 65536)%N ->
  ((((0 * 16 + c / 4096 mod 16) * 16 + c / 256 mod 16) * 16 + c / 16 mod 16) * 16
   + c mod 16 = c)%N.
Proof.
  intros Hc.
  assert (H3 : (c / 4096 mod 16 = c / 4096)%N).
  { apply N.mod_small. apply N.Div0.div_lt_upper_bound. lia. }
  rewrite H3.
  pose proof (N.div_mod c 16 ltac:(lia)) as E0.
  pose proof (N.div_mod (c / 16) 16 ltac:(lia)) as E1.
  pose proof (N.div_mod (c / 256) 16 ltac:(lia)) as E2.
  assert (Ha : (c / 16 / 16 = c / 256)%N) by now rewrite N.Div0.div_div.
  assert (Hb : (c / 256 / 16 = c / 4096)%N) by now rewrite N.Div0.div_div.
  rewrite Ha in E1. rewrite Hb in E2. lia.
Qed.

Lemma scanAll_quoteUnit (c : char16) (acc : jsstring) :
  (c < 65536)%N ->
  scanAll (JSON.InString acc) (JSON.quoteUnit c)
  = Some (JSON.InString (c :: acc), []).
Proof.
  intros Hc. unfold JSON.quoteUnit.
  destruct (N.eqb c 8) eqn:H8; [apply N.eqb_eq in H8; now subst c|].
  destruct (N.eqb c 9) eqn:H9; [apply N.eqb_eq in H9; now subst c|].
  destruct (N.eqb c 10) eqn:H10; [apply N.eqb_eq in H10; now subst c|].
  destruct (N.eqb c 12) eqn:H12; [apply N.eqb_eq in H12; now subst c|].
  destruct (N.eqb c 13) eqn:H13; [apply N.eqb_eq in H13; now subst c|].
  destruct (N.eqb c 34) eqn:H34; [apply N.eqb_eq in H34; now subst c|].
  destruct (N.eqb c 92) eqn:H92; [apply N.eqb_eq in H92; now subst c|].
  destruct (N.ltb c 32 || JSON.isLeadingSurrogate c || JSON.isTrailingSurrogate c)
    eqn:Hesc.
  - unfold JSON.unicodeEscape.
    do 4 (cbn [scanAll JSON.scan JSON.scanEscape N.eqb Pos.eqb Nat.eqb app];
          rewrite ?hexValue_hexDigit by (apply N.mod_lt; discriminate)).
    cbn [scanAll JSON.scan Nat.eqb app].
    match goal with
    | |- Some (JSON.InString (?v :: _), _) = _ =>
        replace v with c; [reflexivity|symmetry; exact (unicode_value Hc)]
    end.
  - apply orb_false_iff in Hesc as [Hesc _].
    apply orb_false_iff in Hesc as [Hlt _].
    cbn [scanAll JSON.scan]. now rewrite H34, H92, Hlt.
Qed.

Lemma scanAll_surrogate (c : char16) (acc : jsstring) :
  JSON.isLeadingSurrogate c = true \/ JSON.isTrailingSurrogate c = true ->
  JSON.scan (JSON.InString acc) c = Some (JSON.InString (c :: acc), []).
Proof.
  intros H.
  assert (Hc : (55296 <= c)%N).
  { destruct H as [H|H]; apply andb_true_iff in H as [H _];
      apply N.leb_le in H; lia. }
  cbn [JSON.scan].
  destruct (N.eqb c 34) eqn:H34; [apply N.eqb_eq in H34; lia|].
  destruct (N.eqb c 92) eqn:H92; [apply N.eqb_eq in H92; lia|].
  destruct (N.ltb c 32) eqn:Hlt; [apply N.ltb_lt in Hlt; lia|].
  reflexivity.
Qed.

Lemma quoteBody_pair (c d : char16) (t : jsstring) :
  JSON.quoteBody (c :: d :: t)
  = if JSON.isLeadingSurrogate c && JSON.isTrailingSurrogate d
    then c :: d :: JSON.quoteBody t
    else JSON.quoteUnit c ++ JSON.quoteBody (d :: t).
Proof. reflexivity. Qed.

Lemma scanAll_quoteBody (n : nat) :
  forall s acc,
    (length s <= n)%nat ->
    Forall (fun c => (c < 65536)%N) s ->
    scanAll (JSON.InString acc) (JSON.quoteBody s)
    = Some (JSON.InString (rev s ++ acc), []).
Proof.
  induction n as [|n IH]; intros s acc Hlen Hs.
  - destruct s; [reflexivity|simpl in Hlen; lia].
  - destruct s as [|c [|d t]]; [reflexivity| |].
    + inversion Hs; subst. simpl JSON.quoteBody. now apply scanAll_quoteUnit.
    + inversion Hs as [|? ? Hc Hs']; subst.
      inversion Hs' as [|? ? Hd Ht]; subst.
      rewrite quoteBody_pair.
      destruct (JSON.isLeadingSurrogate c && JSON.isTrailingSurrogate d) eqn:Hpair.
      * apply andb_true_iff in Hpair as [Hlead Htrail].
        cbn [scanAll].
        rewrite scanAll_surrogate by now left. cbn [scanAll].
        rewrite scanAll_surrogate by now right. cbv beta iota.
        rewrite IH; [|simpl in Hlen; lia|exact Ht].
        simpl. now rewrite <- !app_assoc.
      * rewrite scanAll_app, (scanAll_quoteUnit acc Hc). cbv beta iota.
        rewrite IH; [|simpl in *; lia|exact Hs'].
        simpl. now rewrite <- !app_assoc.
Qed.

(** A quoted string scans back to the string it quotes. *)
Lemma scanAll_quote (s : jsstring) :
  Forall (fun c => (c < 65536)%N) s ->
  scanAll JSON.Default (JSON.quote s) = Some (JSON.Default, [JSON.TString s]).
Proof.
  intros Hs. unfold JSON.quote.
  change ([34%N] ++ JSON.quoteBody s ++ [34%N])
    with (34%N :: (JSON.quoteBody s ++ [34%N])).
  cbn [scanAll]. change (JSON.scan JSON.Default 34%N)
    with (Some (JSON.InString [], @nil JSON.token)).
  cbv iota beta. rewrite scanAll_app.
  rewrite (@scanAll_quoteBody (length s) s [] (le_n _) Hs).
  cbn. now rewrite app_nil_r, rev_involutive.
Qed.

Lemma hexDigit_printable (k : N) : (32 <= JSON.hexDigit k)%N.
Proof. unfold JSON.hexDigit. destruct (N.ltb k 10); lia. Qed.

(** Quoted text holds no control character: no line feed in particular. *)
Lemma quoteUnit_printable (c x : char16) :
  In x (JSON.quoteUnit c) -> (32 <= x)%N.
Proof.
  unfold JSON.quoteUnit.
  repeat match goal with
         | |- context [if N.eqb c ?k then _ else _] =>
             destruct (N.eqb c k);
             [simpl; intros H; repeat (destruct H as [<- | H]; [lia|]); contradiction|]
         end.
  destruct (N.ltb c 32 || JSON.isLeadingSurrogate c || JSON.isTrailingSurrogate c)
    eqn:Hesc.
  - unfold JSON.unicodeEscape.
    intros [<-|[<-|[<-|[<-|[<-|[<-|[]]]]]]]; try lia; apply hexDigit_printable.
  - apply orb_false_iff in Hesc as [Hesc _].
    apply orb_false_iff in Hesc as [Hlt _]. apply N.ltb_ge in Hlt.
    intros [<- | []]. exact Hlt.
Qed.

Lemma quoteBody_printable (n : nat) :
  forall s x, (length s <= n)%nat -> In x (JSON.quoteBody s) -> (32 <= x)%N.
Proof.
  induction n as [|n IH]; intros s x Hlen.
  - destruct s; [contradiction|simpl in Hlen; lia].
  - destruct s as [|c [|d t]]; [contradiction| |].
    + apply quoteUnit_printable.
    + rewrite quoteBody_pair.
      destruct (JSON.isLeadingSurrogate c && JSON.isTrailingSurrogate d) eqn:Hpair.
      * apply andb_true_iff in Hpair as [Hlead Htrail].
        apply andb_true_iff in Hlead as [Hlead _]. apply N.leb_le in Hlead.
        apply andb_true_iff in Htrail as [Htrail _]. apply N.leb_le in Htrail.
        intros [<- | [<- | H]]; [lia|lia|].
        apply (IH t); [simpl in Hlen; lia|exact H].
      * intros H. apply in_app_or in H as [H|H].
        -- eapply quoteUnit_printable; eauto.
        -- apply (IH (d :: t)); [simpl in *; lia|exact H].
Qed.

Lemma quote_printable (s : jsstring) (x : char16) :
  In x (JSON.quote s) -> (32 <= x)%N.
Proof.
  unfold JSON.quote. intros H.
  apply in_app_or in H as [[<- | []]|H]; [lia|].
  apply in_app_or in H as [H|[<- | []]]; [|lia].
  eapply quoteBody_printable; [apply le_n|exact H].
Qed.

Lemma scanAll_text_then (p rest : jsstring) (ts : list JSON.token) :
  scanAll JSON.Default p = Some (JSON.Default, ts) ->
  scanAll JSON.Default (p ++ rest)
  = match scanAll JSON.Default rest with
    | Some (md, more) => Some (md, ts ++ more)
    | None => None
    end.
Proof. intros H. now rewrite scanAll_app, H. Qed.

Lemma scanAll_quote_then (s rest : jsstring) :
  wide s ->
  scanAll JSON.Default (JSON.quote s ++ rest)
  = match scanAll JSON.Default rest with
    | Some (md, more) => Some (md, JSON.TString s :: more)
    | None => None
    end.
Proof. intros H. now rewrite scanAll_app, (scanAll_quote H). Qed.

Lemma startsWith_nil (s : jsstring) : startsWith s [] = true.
Proof. now destruct s. Qed.

(** ** Text that [trim] leaves alone *)

Lemma trimStart_fixed (s : jsstring) :
  isWhiteSpace (hd 0%N s) = false -> trimStart s = s.
Proof. destruct s as [|c t]; simpl; [reflexivity|]. now intros ->. Qed.

Lemma trim_fixed (s : jsstring) :
  isWhiteSpace (hd 0%N s) = false ->
  isWhiteSpace (hd 0%N (rev s)) = false ->
  trim s = s.
Proof.
  intros Hhead Hlast. unfold trim, trimEnd.
  rewrite (trimStart_fixed s Hhead), (trimStart_fixed (rev s) Hlast).
  apply rev_involutive.
Qed.

(** ** A call written as JSON is read back *)

Lemma parse_callTokens (name key value : jsstring) :
  JSON.parseTokens JSON.PValue [] (callTokens name key value)
  = Some (callObject name key value).
Proof.
  unfold callTokens, callObject. cbn.
  unfold JSON.defineProperty. cbn.
  destruct (JSON.arrayIndex key); reflexivity.
Qed.

Lemma extract_of_tokens (e : Entropy) (body name key value : jsstring) :
  scanAll JSON.Default (123%N :: body ++ [125%N])
  = Some (JSON.Default, callTokens name key value) ->
  name <> [] ->
  ToolConverter.extractToolCallFromResponse e (123%N :: body ++ [125%N])
  = Normal (Some {| tc_id := ToolConverter.freshId e;
                    tc_type := lit "function";
                    tc_function :=
                      {| fn_name := Val (JString name);
                         fn_arguments :=
                           JSON.stringify (JObject [(key, JString value)]) |} |}).
Proof.
  intros Hscan Hname.
  set (reply := 123%N :: body ++ [125%N]) in *.
  assert (Htrim : trim reply = reply).
  { apply trim_fixed; [reflexivity|].
    unfold reply. simpl rev. now rewrite rev_app_distr. }
  assert (Hparse : JSON.parse reply = Normal (callObject name key value)).
  { unfold JSON.parse. rewrite tokenize_scanAll, Hscan. cbn [JSON.scanEnd].
    now rewrite app_nil_r, parse_callTokens. }
  assert (Hcandidate : ToolConverter.selectCandidate reply = Some reply).
  { unfold ToolConverter.selectCandidate. rewrite Htrim.
    assert (Hs : startsWith reply (lit "{") = true).
    { unfold reply. change (lit "{") with [123%N]. cbn [startsWith].
      now rewrite N.eqb_refl, startsWith_nil. }
    assert (He : endsWith reply (lit "}") = true).
    { unfold endsWith, reply. simpl rev. rewrite rev_app_distr.
      change (rev [125%N] ++ rev body) with (125%N :: rev body).
      cbn [app startsWith]. now rewrite N.eqb_refl, startsWith_nil. }
    rewrite Hs, He. reflexivity. }
  unfold ToolConverter.extractToolCallFromResponse. rewrite Htrim, Hcandidate.
  assert (Hm : string_eqb reply ToolConverter.sentinel1
               || string_eqb reply ToolConverter.sentinel2 = false) by reflexivity.
  rewrite Hm. cbn [truthyStr nonEmpty negb orEmpty reply].
  fold reply. rewrite (validate_closed e reply Hparse).
  unfold callObject. cbn.
  destruct name; [contradiction|reflexivity].
Qed.

Lemma compact_scan (name key value : jsstring) :
  wide name -> wide key -> wide value ->
  scanAll JSON.Default (JSON.stringify (callObject name key value))
  = Some (JSON.Default, callTokens name key value).
Proof.
  intros Hn Hk Hv.
  assert (Hform : JSON.stringify (callObject name key value)
                  = jq "{'function_call':{'name':" ++ JSON.quote name
                    ++ jq ",'arguments':{" ++ JSON.quote key ++ lit ":"
                    ++ JSON.quote value ++ lit "}}}").
  { unfold JSON.stringify, callObject.
    cbn [JSON.serialize map fst snd JSON.wrap nonEmpty JSON.join].
    unfold JSON.quote. rewrite <- !app_assoc. reflexivity. }
  rewrite Hform.
  erewrite scanAll_text_then by (vm_compute; reflexivity).
  rewrite scanAll_quote_then by exact Hn.
  erewrite scanAll_text_then by (vm_compute; reflexivity).
  rewrite scanAll_quote_then by exact Hk.
  erewrite scanAll_text_then by (vm_compute; reflexivity).
  rewrite scanAll_quote_then by exact Hv.
  reflexivity.
Qed.

Lemma indented_scan (name key value : jsstring) :
  wide name -> wide key -> wide value ->
  scanAll JSON.Default (JSON.stringify2 (callObject name key value))
  = Some (JSON.Default, callTokens name key value).
Proof.
  intros Hn Hk Hv.
  assert (Hform : JSON.stringify2 (callObject name key value)
                  = (lit "{" ++ LF ++ jq "  'function_call': {" ++ LF
                     ++ jq "    'name': ")
                    ++ JSON.quote name
                    ++ (lit "," ++ LF ++ jq "    'arguments': {" ++ LF
                        ++ lit "      ")
                    ++ JSON.quote key ++ lit ": " ++ JSON.quote value
                    ++ (LF ++ lit "    }" ++ LF ++ lit "  }" ++ LF ++ lit "}")).
  { unfold JSON.stringify2, callObject.
    cbn [JSON.serialize map fst snd JSON.wrap nonEmpty JSON.join lit
         list_ascii_of_string].
    unfold JSON.quote. rewrite <- !app_assoc. reflexivity. }
  rewrite Hform.
  erewrite scanAll_text_then by (vm_compute; reflexivity).
  rewrite scanAll_quote_then by exact Hn.
  erewrite scanAll_text_then by (vm_compute; reflexivity).
  rewrite scanAll_quote_then by exact Hk.
  erewrite scanAll_text_then by (vm_compute; reflexivity).
  rewrite scanAll_quote_then by exact Hv.
  reflexivity.
Qed.

Lemma braced (gap : jsstring) (name key value : jsstring) :
  exists body,
    JSON.serialize gap [] (callObject name key value) = 123%N :: body ++ [125%N].
Proof.
  unfold callObject. cbn [JSON.serialize map JSON.wrap].
  destruct (nonEmpty gap); eexists;
    change (lit "{") with [123%N]; change (lit "}") with [125%N];
    cbn [app]; f_equal; rewrite ?app_assoc; reflexivity.
Qed.

(** ** A streamed reply is read back *)

Lemma splitLines_line (l rest : jsstring) :
  ~ In 10%N l -> splitLines (l ++ 10%N :: rest) = l :: splitLines rest.
Proof.
  induction l as [|c l IH]; intros Hl; [reflexivity|].
  change ((c :: l) ++ 10%N :: rest) with (c :: (l ++ 10%N :: rest)).
  cbn [splitLines]. destruct (N.eqb c 10) eqn:Hc.
  - apply N.eqb_eq in Hc. subst c. exfalso. apply Hl. now left.
  - rewrite IH; [reflexivity|]. intros Hin. apply Hl. now right.
Qed.

Lemma printable_no_LF (s : jsstring) :
  (forall x, In x s -> (32 <= x)%N) -> ~ In 10%N s.
Proof. intros H Hin. apply H in Hin. lia. Qed.

Lemma printable_app (a b : jsstring) :
  (forall x, In x a -> (32 <= x)%N) ->
  (forall x, In x b -> (32 <= x)%N) ->
  forall x, In x (a ++ b) -> (32 <= x)%N.
Proof. intros Ha Hb x H. apply in_app_or in H as [H|H]; auto. Qed.

Lemma printable_text (s : jsstring) :
  forallb (N.leb 32) s = true -> forall x, In x s -> (32 <= x)%N.
Proof.
  intros H x Hx. apply (proj1 (forallb_forall _ _) H) in Hx. now apply N.leb_le.
Qed.

Lemma dataLine_form (s : jsstring) :
  dataLine s
  = lit "data: " ++ jq "{'choices':[{'delta':{'content':" ++ JSON.quote s
    ++ lit "}}]}".
Proof.
  unfold dataLine, JSON.stringify, deltaPayload.
  cbn [JSON.serialize map fst snd JSON.wrap nonEmpty JSON.join].
  unfold JSON.quote. rewrite <- !app_assoc. reflexivity.
Qed.

Lemma responseLine_form (s : jsstring) :
  responseLine s = jq "{'response':" ++ JSON.quote s ++ jq ",'done':false}".
Proof.
  unfold responseLine, JSON.stringify.
  cbn [JSON.serialize map fst snd JSON.wrap nonEmpty JSON.join].
  unfold JSON.quote. rewrite <- !app_assoc. reflexivity.
Qed.

Lemma dataLine_no_LF (s : jsstring) : ~ In 10%N (dataLine s).
Proof.
  apply printable_no_LF. rewrite dataLine_form.
  repeat apply printable_app;
    try (apply printable_text; reflexivity).
  intros x Hx. eapply quoteBody_printable; [apply le_n|exact Hx].
Qed.

Lemma responseLine_no_LF (s : jsstring) : ~ In 10%N (responseLine s).
Proof.
  apply printable_no_LF. rewrite responseLine_form.
  repeat apply printable_app;
    try (apply printable_text; reflexivity).
  intros x Hx. eapply quoteBody_printable; [apply le_n|exact Hx].
Qed.

Lemma parse_deltaPayload (s : jsstring) :
  wide s ->
  JSON.parse (JSON.stringify (deltaPayload s)) = Normal (deltaPayload s).
Proof.
  intros Hs. unfold JSON.parse. rewrite tokenize_scanAll.
  assert (Hform : JSON.stringify (deltaPayload s)
                  = jq "{'choices':[{'delta':{'content':" ++ JSON.quote s
                    ++ lit "}}]}").
  { unfold JSON.stringify, deltaPayload.
    cbn [JSON.serialize map fst snd JSON.wrap nonEmpty JSON.join].
    unfold JSON.quote. rewrite <- !app_assoc. reflexivity. }
  rewrite Hform.
  erewrite scanAll_text_then by (vm_compute; reflexivity).
  rewrite scanAll_quote_then by exact Hs.
  reflexivity.
Qed.

Lemma parse_responseLine (s : jsstring) :
  wide s ->
  JSON.parse (responseLine s)
  = Normal (JObject [(lit "response", JString s); (lit "done", JBool false)]).
Proof.
  intros Hs. unfold JSON.parse. rewrite tokenize_scanAll, responseLine_form.
  erewrite scanAll_text_then by (vm_compute; reflexivity).
  rewrite scanAll_quote_then by exact Hs.
  reflexivity.
Qed.

Lemma extractContent_dataLine (s : jsstring) :
  wide s ->
  StreamHandler.extractContent (dataLine s)
  = if nonEmpty s then Val (JString s) else Val JNull.
Proof.
  intros Hs.
  assert (Htrim : trim (dataLine s) = dataLine s).
  { apply trim_fixed; rewrite dataLine_form; [reflexivity|].
    rewrite !rev_app_distr. reflexivity. }
  unfold StreamHandler.extractContent. rewrite Htrim.
  assert (Hne : nonEmpty (dataLine s) = true) by now rewrite dataLine_form.
  assert (Hdone : string_eqb (dataLine s) StreamHandler.done = false)
    by now rewrite dataLine_form.
  assert (Hdata : startsWith (dataLine s) StreamHandler.dataPrefix = true)
    by now rewrite dataLine_form.
  assert (Hslice : slice (dataLine s) 6 = JSON.stringify (deltaPayload s))
    by reflexivity.
  rewrite Hne, Hdone, Hdata, Hslice. cbn [negb orb].
  unfold StreamHandler.fromDataPayload. rewrite (parse_deltaPayload Hs).
  cbn. destruct s; [vm_compute|]; reflexivity.
Qed.

Lemma extractContent_responseLine (s : jsstring) :
  wide s ->
  StreamHandler.extractContent (responseLine s) = Val (JString s).
Proof.
  intros Hs.
  assert (Htrim : trim (responseLine s) = responseLine s).
  { apply trim_fixed; rewrite responseLine_form; [reflexivity|].
    rewrite !rev_app_distr. reflexivity. }
  unfold StreamHandler.extractContent. rewrite Htrim.
  assert (Hne : nonEmpty (responseLine s) = true) by now rewrite responseLine_form.
  assert (Hdone : string_eqb (responseLine s) StreamHandler.done = false)
    by now rewrite responseLine_form.
  assert (Hdata : startsWith (responseLine s) StreamHandler.dataPrefix = false)
    by now rewrite responseLine_form.
  rewrite Hne, Hdone, Hdata. cbn [negb orb].
  unfold StreamHandler.fromBareLine. rewrite (parse_responseLine Hs).
  reflexivity.
Qed.

(** X21. A call written the way the prompt asks for, as the JSON text of an
    object with [function_call.name] and one string argument, compact or
    indented by two blanks, is read back as that call: the name as it was,
    whatever code units it holds (quotes, backslashes, control characters,
    surrogates), and the arguments as compact JSON text. *)
Theorem call_round_trip (e : Entropy) (name key value reply : jsstring) :
  wide name -> wide key -> wide value ->
  name <> [] ->
  reply = JSON.stringify (callObject name key value)
  \/ reply = JSON.stringify2 (callObject name key value) ->
  JSON.parse reply = Normal (callObject name key value)
  /\ ToolConverter.extractToolCallFromResponse e reply
     = Normal (Some {| tc_id := ToolConverter.freshId e;
                       tc_type := lit "function";
                       tc_function :=
                         {| fn_name := Val (JString name);
                            fn_arguments :=
                              JSON.stringify (JObject [(key, JString value)]) |} |}).
Proof.
  intros Hn Hk Hv Hname Hreply.
  assert (Hscan : scanAll JSON.Default reply
                  = Some (JSON.Default, callTokens name key value)).
  { destruct Hreply as [-> | ->]; [now apply compact_scan|now apply indented_scan]. }
  assert (Hbraced : exists body, reply = 123%N :: body ++ [125%N]).
  { destruct Hreply as [-> | ->]; apply braced. }
  destruct Hbraced as (body & ->). split.
  - unfold JSON.parse. rewrite tokenize_scanAll, Hscan. cbn [JSON.scanEnd].
    now rewrite app_nil_r, parse_callTokens.
  - now apply extract_of_tokens.
Qed.

Lemma contents_cons (l : jsstring) (ls : list jsstring) :
  StreamHandler.contents (l :: ls)
  = (if truthy (StreamHandler.extractContent l)
     then [StreamHandler.extractContent l] else [])
    ++ StreamHandler.contents ls.
Proof.
  unfold StreamHandler.contents. simpl.
  now destruct (truthy (StreamHandler.extractContent l)).
Qed.

Lemma contents_eventStream (deltas : list jsstring) :
  Forall wide deltas ->
  StreamHandler.contents (splitLines (eventStream deltas)) = texts deltas.
Proof.
  unfold eventStream, texts.
  induction deltas as [|s more IH]; intros Hw; [reflexivity|].
  inversion Hw as [|? ? Hs Hmore]; subst.
  cbn [map concat]. rewrite <- !app_assoc.
  change (LF ++ LF ++ concat (map (fun s0 => dataLine s0 ++ LF ++ LF) more)
          ++ lit "data: [DONE]" ++ LF ++ LF)
    with (10%N :: [] ++ 10%N
          :: concat (map (fun s0 => dataLine s0 ++ LF ++ LF) more)
             ++ lit "data: [DONE]" ++ LF ++ LF).
  rewrite splitLines_line by apply dataLine_no_LF.
  rewrite splitLines_line by (simpl; tauto).
  rewrite !contents_cons, (extractContent_dataLine Hs), (IH Hmore).
  cbn [filter]. destruct (nonEmpty s) eqn:Hne.
  - destruct s; [discriminate|]. reflexivity.
  - reflexivity.
Qed.

Lemma contents_lineStream (deltas : list jsstring) :
  Forall wide deltas ->
  StreamHandler.contents (splitLines (lineStream deltas)) = texts deltas.
Proof.
  unfold lineStream, texts.
  induction deltas as [|s more IH]; intros Hw; [reflexivity|].
  inversion Hw as [|? ? Hs Hmore]; subst.
  cbn [map concat]. rewrite <- !app_assoc.
  change (LF ++ concat (map (fun s0 => responseLine s0 ++ LF) more))
    with (10%N :: concat (map (fun s0 => responseLine s0 ++ LF) more)).
  rewrite splitLines_line by apply responseLine_no_LF.
  rewrite contents_cons, (extractContent_responseLine Hs), (IH Hmore).
  cbn [filter truthy]. now destruct (nonEmpty s).
Qed.

(** X22. A reply streamed in either wire format is read back delta by
    delta.  When the chunks, each decoded on its own, make up a stream of
    OpenAI-style events closed by the end marker, or a stream of
    Ollama-style lines, [parseStream] yields the contents in order, leaving
    out the empty ones.  That is so, in particular, when the chunks are the
    UTF-8 bytes of pieces of such a stream, however the stream was cut
    between characters. *)
Theorem streamed_deltas_are_read_back (chunks : list (list Byte.byte))
        (deltas : list jsstring) :
  Forall wide deltas ->
  (concat (map toString chunks) = eventStream deltas ->
   StreamHandler.parseStream chunks = texts deltas)
  /\ (concat (map toString chunks) = lineStream deltas ->
      StreamHandler.parseStream chunks = texts deltas)
  /\ (forall pieces,
        chunks = map bufferFrom pieces ->
        Forall (fun p => wide p /\ wellFormed p = true) pieces ->
        concat pieces = eventStream deltas \/ concat pieces = lineStream deltas ->
        StreamHandler.parseStream chunks = texts deltas).
Proof.
  intros Hw.
  assert (Hevent : concat (map toString chunks) = eventStream deltas ->
                   StreamHandler.parseStream chunks = texts deltas).
  { intros Htext. rewrite parseStream_lines, Htext.
    now apply contents_eventStream. }
  assert (Hline : concat (map toString chunks) = lineStream deltas ->
                  StreamHandler.parseStream chunks = texts deltas).
  { intros Htext. rewrite parseStream_lines, Htext.
    now apply contents_lineStream. }
  split; [exact Hevent|]. split; [exact Hline|].
  intros pieces -> Hpieces [Htext | Htext].
  - apply Hevent. now rewrite pieces_read_back.
  - apply Hline. now rewrite pieces_read_back.
Qed.

(** ** The fence pattern, step by step *)

Lemma m_Seq (ignoreCase : bool) (a b : RegExp.node) (k : RegExp.continuation)
      (x : RegExp.mstate) :
  RegExp.m ignoreCase (RegExp.Seq a b) k x
  = RegExp.m ignoreCase a (fun y => RegExp.m ignoreCase b k y) x.
Proof. reflexivity. Qed.

(** A literal, without the [i] flag, matches where the input starts with it. *)
Lemma m_Lit (p : jsstring) :
  forall k x,
    RegExp.m false (RegExp.Lit p) k x
    = if startsWith (RegExp.rest x) p
      then k {| RegExp.rest := skipn (length p) (RegExp.rest x);
                RegExp.endIndex := (RegExp.endIndex x + length p)%nat;
                RegExp.captures := RegExp.captures x |}
      else None.
Proof.
  induction p as [|c p IH]; intros k x.
  - cbn [RegExp.Lit RegExp.m length skipn]. rewrite startsWith_nil, Nat.add_0_r.
    now destruct x.
  - cbn [RegExp.Lit RegExp.m]. destruct (RegExp.rest x) as [|d t] eqn:Hrest.
    + reflexivity.
    + unfold RegExp.canonicalize. cbn [andb startsWith].
      destruct (N.eqb c d); [|reflexivity].
      rewrite IH. cbn [RegExp.rest RegExp.endIndex RegExp.captures andb length skipn].
      now rewrite Nat.add_succ_comm.
Qed.

(** A lazy [[\s\S]*?] tries its continuation at every position in turn. *)
Lemma m_lazy_any (k : RegExp.continuation) (x : RegExp.mstate) :
  RegExp.m false (RegExp.Star false RegExp.any) k x
  = lazySkip k (RegExp.rest x) (RegExp.endIndex x) (RegExp.captures x).
Proof.
  destruct x as [rest e caps]. cbn [RegExp.rest RegExp.endIndex RegExp.captures].
  cbn [RegExp.m RegExp.rest].
  match goal with
  | |- context [?f (Datatypes.length rest)] => pose (loop := f)
  end.
  assert (Hsucc : forall n, Nat.eqb (S n) n = false)
    by (intros n; apply Nat.eqb_neq; lia).
  assert (Hloop : forall rest0 fuel e0,
             (length rest0 <= fuel)%nat ->
             loop fuel {| RegExp.rest := rest0; RegExp.endIndex := e0;
                          RegExp.captures := caps |}
             = lazySkip k rest0 e0 caps).
  { induction rest0 as [|d t IHt]; intros fuel e0 Hfuel.
    - destruct fuel; simpl; destruct (k _); reflexivity.
    - destruct fuel as [|fuel]; [simpl in Hfuel; lia|].
      simpl. destruct (k _); [reflexivity|].
      change (match e0 with 0%nat => false | S m' => Nat.eqb e0 m' end)
        with (Nat.eqb (S e0) e0).
      rewrite Hsucc. destruct (isWhiteSpace d); simpl;
        apply IHt; simpl in Hfuel; lia. }
  exact (Hloop rest (S (length rest)) e (Nat.le_succ_diag_r _)).
Qed.

Lemma lazySkip_ext (k k' : RegExp.continuation) :
  (forall z, k z = k' z) ->
  forall rest e caps, lazySkip k rest e caps = lazySkip k' rest e caps.
Proof.
  intros Hk. induction rest as [|d t IH]; intros e caps; simpl; rewrite Hk;
    destruct (k' _); auto.
Qed.

(** The fence pattern from one start position. *)
Lemma codeBlock_at (s : jsstring) (i : nat) :
  RegExp.m false (RegExp.pattern ToolConverter.codeBlockRegex) Some
    {| RegExp.rest := s; RegExp.endIndex := i; RegExp.captures := [] |}
  = if startsWith s (lit "```")
    then lazySkip closingFence (skipn 3 s) (i + 3)%nat []
    else None.
Proof.
  change (RegExp.pattern ToolConverter.codeBlockRegex)
    with (RegExp.Seq (RegExp.Lit (lit "```"))
            (RegExp.Seq (RegExp.Star false RegExp.any)
               (RegExp.Seq (RegExp.Lit (lit "```")) RegExp.Empty))).
  rewrite m_Seq, m_Lit. cbn [RegExp.rest RegExp.endIndex RegExp.captures].
  destruct (startsWith s (lit "```")); [|reflexivity].
  rewrite m_Seq, m_lazy_any. cbn [RegExp.rest RegExp.endIndex RegExp.captures].
  apply lazySkip_ext. intros z. rewrite m_Seq, m_Lit. reflexivity.
Qed.

(** Where the fence does not occur. *)
Lemma no_fence_here (before rest : jsstring) :
  before <> [] ->
  includes (before ++ [96; 96]%N) (lit "```") = false ->
  startsWith (before ++ lit "```" ++ rest) (lit "```") = false.
Proof.
  intros Hne Hno. destruct before as [|a before]; [contradiction|].
  change ((a :: before) ++ [96; 96]%N) with (a :: (before ++ [96; 96]%N)) in Hno.
  cbn [includes] in Hno. apply orb_false_iff in Hno as [Hno _].
  change (lit "```") with [96; 96; 96]%N in *.
  destruct before as [|b [|c t]]; cbn [app startsWith] in *;
    rewrite ?startsWith_nil in *; rewrite ?N.eqb_refl in *;
    rewrite ?andb_true_r in *;
    repeat match goal with
           | |- context [N.eqb 96 ?d] =>
               destruct (N.eqb 96 d); cbn [andb] in *
           end; try reflexivity; try discriminate.
Qed.

Lemma includes_tail (c : char16) (s p : jsstring) :
  includes (c :: s) p = false -> includes s p = false.
Proof. cbn [includes]. intros H. now apply orb_false_iff in H as [_ H]. Qed.

Lemma lazySkip_to_fence (inner after : jsstring) :
  forall e caps,
    includes (inner ++ [96; 96]%N) (lit "```") = false ->
    lazySkip closingFence (inner ++ lit "```" ++ after) e caps
    = Some {| RegExp.rest := after;
              RegExp.endIndex := (e + length inner + 3)%nat;
              RegExp.captures := caps |}.
Proof.
  induction inner as [|c t IH]; intros e caps Hno.
  - change ([] ++ lit "```" ++ after) with (96%N :: 96%N :: 96%N :: after).
    cbn [lazySkip]. unfold closingFence.
    cbn [RegExp.rest RegExp.endIndex RegExp.captures].
    change (lit "```") with [96; 96; 96]%N.
    cbn [startsWith N.eqb Pos.eqb andb]. rewrite startsWith_nil.
    cbn [skipn length]. now rewrite Nat.add_0_r.
  - pose proof (@no_fence_here (c :: t) after ltac:(discriminate) Hno) as Hhere.
    change ((c :: t) ++ lit "```" ++ after) with (c :: (t ++ lit "```" ++ after))
      in *.
    cbn [lazySkip]. unfold closingFence at 1. cbn [RegExp.rest]. rewrite Hhere.
    rewrite IH by (eapply includes_tail; exact Hno).
    cbn [length]. f_equal. f_equal. lia.
Qed.

Lemma firstn_exact {A} (a b : list A) : firstn (length a) (a ++ b) = a.
Proof.
  rewrite firstn_app, firstn_all, Nat.sub_diag, firstn_O. apply app_nil_r.
Qed.

Lemma exec_codeBlock (before inner after : jsstring) :
  forall i,
    includes (before ++ [96; 96]%N) (lit "```") = false ->
    includes (inner ++ [96; 96]%N) (lit "```") = false ->
    RegExp.exec_from ToolConverter.codeBlockRegex
      (before ++ lit "```" ++ inner ++ lit "```" ++ after) i
    = Some {| RegExp.index := (i + length before)%nat;
              RegExp.matched := lit "```" ++ inner ++ lit "```";
              RegExp.groups := [] |}.
Proof.
  induction before as [|c t IH]; intros i Hbefore Hinner.
  - cbn [app]. 
    assert (Hm : RegExp.m (RegExp.ignoreCase ToolConverter.codeBlockRegex)
                   (RegExp.pattern ToolConverter.codeBlockRegex) Some
                   {| RegExp.rest := lit "```" ++ inner ++ lit "```" ++ after;
                      RegExp.endIndex := i; RegExp.captures := [] |}
                 = Some {| RegExp.rest := after;
                           RegExp.endIndex := (i + 3 + length inner + 3)%nat;
                           RegExp.captures := [] |}).
    { change (RegExp.ignoreCase ToolConverter.codeBlockRegex) with false.
      rewrite codeBlock_at.
      change (startsWith (lit "```" ++ inner ++ lit "```" ++ after) (lit "```"))
        with (startsWith (inner ++ lit "```" ++ after) []).
      rewrite startsWith_nil.
      change (skipn 3 (lit "```" ++ inner ++ lit "```" ++ after))
        with (inner ++ lit "```" ++ after).
      now apply lazySkip_to_fence. }
    destruct (lit "```" ++ inner ++ lit "```" ++ after) as [|d s] eqn:Hs;
      [discriminate|].
    cbn [RegExp.exec_from]. rewrite Hm. cbn [RegExp.endIndex RegExp.captures].
    rewrite Nat.add_0_r. f_equal. f_equal. rewrite <- Hs.
    replace (i + 3 + length inner + 3 - i)%nat
      with (length (lit "```" ++ inner ++ lit "```"))
      by (rewrite !length_app; simpl; lia).
    replace (lit "```" ++ inner ++ lit "```" ++ after)
      with ((lit "```" ++ inner ++ lit "```") ++ after)
      by (now rewrite <- !app_assoc).
    apply firstn_exact.
  - change ((c :: t) ++ lit "```" ++ inner ++ lit "```" ++ after)
      with (c :: (t ++ lit "```" ++ inner ++ lit "```" ++ after)).
    cbn [RegExp.exec_from].
    change (RegExp.ignoreCase ToolConverter.codeBlockRegex) with false.
    rewrite codeBlock_at.
    change (c :: (t ++ lit "```" ++ inner ++ lit "```" ++ after))
      with ((c :: t) ++ lit "```" ++ inner ++ lit "```" ++ after).
    rewrite (@no_fence_here (c :: t) _ ltac:(discriminate) Hbefore).
    rewrite IH; [|eapply includes_tail; exact Hbefore|exact Hinner].
    cbn [length]. f_equal. f_equal. lia.
Qed.

(** ** The brace scan, in full *)

Lemma balance_app (a b : jsstring) : balance (a ++ b) = (balance a + balance b)%Z.
Proof. induction a as [|c a IH]; simpl; [reflexivity|]. rewrite IH. lia. Qed.

Lemma first_brace_unique (before before' x x' : jsstring) :
  before ++ 123%N :: x = before' ++ 123%N :: x' ->
  Forall (fun c => c <> 123%N) before ->
  Forall (fun c => c <> 123%N) before' ->
  before = before' /\ x = x'.
Proof.
  revert before'. induction before as [|c t IH]; intros [|c' t'] Heq Hb Hb'.
  - now injection Heq as <-.
  - injection Heq as <- _. inversion Hb'; subst. contradiction.
  - injection Heq as -> _. inversion Hb; subst. contradiction.
  - injection Heq as <- Heq. inversion Hb; inversion Hb'; subst.
    destruct (IH t' Heq) as [<- <-]; auto.
Qed.

Lemma substring_middle_at (before mid rest : jsstring) (n : nat) :
  n = (length before + length mid)%nat ->
  substring (before ++ mid ++ rest) (Z.of_nat (length before)) (Z.of_nat n) = mid.
Proof. intros ->. apply substring_middle. Qed.

Lemma scanLoop_spec (response : jsstring) :
  forall todo seen st,
    response = seen ++ todo ->
    ToolConverter.jsonContent st = None ->
    ToolConverter.braceCount st = balance seen ->
    (ToolConverter.startIdx st = (-1)%Z /\ Forall (fun x => x <> 123%N) seen)
    \/ (exists before rest,
           seen = before ++ 123%N :: rest
           /\ Forall (fun x => x <> 123%N) before
           /\ ToolConverter.startIdx st = Z.of_nat (length before)) ->
    match ToolConverter.jsonContent
            (ToolConverter.scanLoop response (Z.of_nat (length seen)) todo st) with
    | Some c =>
        exists mid after,
          todo = mid ++ 125%N :: after
          /\ candidateAt (seen ++ mid ++ [125%N]) c
          /\ (forall mid' rest' c',
                mid = mid' ++ 125%N :: rest' ->
                ~ candidateAt (seen ++ mid' ++ [125%N]) c')
    | None =>
        forall mid after c',
          todo = mid ++ 125%N :: after ->
          ~ candidateAt (seen ++ mid ++ [125%N]) c'
    end.
Proof.
  induction todo as [|x more IH]; intros seen st Hresp Hnone Hcount Hstart.
  - simpl. rewrite Hnone. intros [|? ?] after c' H; discriminate.
  - assert (Hnext : (Z.of_nat (length seen) + 1
                     = Z.of_nat (length (seen ++ [x])))%Z).
    { rewrite length_app. simpl. lia. }
    assert (Hresp' : response = (seen ++ [x]) ++ more).
    { rewrite <- app_assoc. exact Hresp. }
    (* what the rest of the loop gives, once this turn has not stopped *)
    assert (Hgo : forall st',
               ToolConverter.jsonContent st' = None ->
               ToolConverter.braceCount st' = balance (seen ++ [x]) ->
               (ToolConverter.startIdx st' = (-1)%Z
                /\ Forall (fun x => x <> 123%N) (seen ++ [x]))
               \/ (exists before rest,
                      seen ++ [x] = before ++ 123%N :: rest
                      /\ Forall (fun x => x <> 123%N) before
                      /\ ToolConverter.startIdx st' = Z.of_nat (length before)) ->
               (x = 125%N -> forall c', ~ candidateAt (seen ++ [125%N]) c') ->
               match ToolConverter.jsonContent
                       (ToolConverter.scanLoop response
                          (Z.of_nat (length seen) + 1) more st') with
               | Some c =>
                   exists mid after,
                     x :: more = mid ++ 125%N :: after
                     /\ candidateAt (seen ++ mid ++ [125%N]) c
                     /\ (forall mid' rest' c',
                           mid = mid' ++ 125%N :: rest' ->
                           ~ candidateAt (seen ++ mid' ++ [125%N]) c')
               | None =>
                   forall mid after c',
                     x :: more = mid ++ 125%N :: after ->
                     ~ candidateAt (seen ++ mid ++ [125%N]) c'
               end).
    { intros st' Hnone' Hcount' Hstart' Hcur. rewrite Hnext.
      specialize (IH (seen ++ [x]) st' Hresp' Hnone' Hcount' Hstart').
      destruct (ToolConverter.jsonContent _) as [c|].
      - destruct IH as (mid & after & Hmore & Hcand & Hmin).
        exists (x :: mid), after. split; [simpl; now rewrite Hmore|]. split.
        + rewrite <- app_assoc in Hcand. exact Hcand.
        + intros [|y mid'] rest' c' Hmid.
          * injection Hmid as -> _. now apply Hcur.
          * injection Hmid as <- Hmid.
            specialize (Hmin mid' rest' c' Hmid).
            now rewrite <- app_assoc in Hmin.
      - intros [|y mid] after c' Htodo.
        + injection Htodo as -> _. now apply Hcur.
        + injection Htodo as <- Htodo.
          specialize (IH mid after c' Htodo).
          now rewrite <- app_assoc in IH. }
    simpl ToolConverter.scanLoop. unfold ToolConverter.scanStep.
    destruct (N.eqb x 123) eqn:Hopen.
    + apply N.eqb_eq in Hopen. subst x. apply Hgo; simpl.
      * exact Hnone.
      * rewrite balance_app, Hcount. simpl. lia.
      * right. destruct Hstart as [[Hs Hall] | (before & rest & Hd & Hall & Hs)].
        -- exists seen, []. rewrite Hs. simpl. auto.
        -- exists before, (rest ++ [123%N]). rewrite Hs.
           destruct (Z.of_nat (length before) =? -1)%Z eqn:Hneg; [lia|].
           subst seen. rewrite <- app_assoc. auto.
      * discriminate.
    + assert (Hx : x <> 123%N) by (now apply N.eqb_neq).
      assert (Hkeep :
                (ToolConverter.startIdx st = (-1)%Z
                 /\ Forall (fun x => x <> 123%N) (seen ++ [x]))
                \/ (exists before rest,
                       seen ++ [x] = before ++ 123%N :: rest
                       /\ Forall (fun x => x <> 123%N) before
                       /\ ToolConverter.startIdx st = Z.of_nat (length before))).
      { destruct Hstart as [[Hs0 Hall] | (before & rest & Hd & Hall & Hs0)].
        - left. split; [exact Hs0|]. apply Forall_app. auto.
        - right. exists before, (rest ++ [x]). subst seen.
          rewrite <- app_assoc. auto. }
      destruct (N.eqb x 125) eqn:Hclose.
      * apply N.eqb_eq in Hclose. subst x.
        assert (Hbal : balance (seen ++ [125%N])
                       = (ToolConverter.braceCount st - 1)%Z).
        { rewrite balance_app, Hcount. simpl. lia. }
        destruct ((ToolConverter.braceCount st - 1 =? 0)%Z
                  && negb (ToolConverter.startIdx st =? -1)%Z) eqn:Hzero.
        -- apply andb_true_iff in Hzero as [Hz Hset].
           apply Z.eqb_eq in Hz.
           apply negb_true_iff, Z.eqb_neq in Hset.
           destruct Hstart as [[Hs0 _] | (before & rest & Hd & Hall & Hs0)];
             [congruence|].
           assert (Hsplit : response
                            = before ++ (123%N :: rest ++ [125%N]) ++ more).
           { rewrite Hresp, Hd. rewrite <- app_assoc. f_equal. simpl. f_equal.
             rewrite <- app_assoc. reflexivity. }
           assert (Hc : substring response (ToolConverter.startIdx st)
                          (Z.of_nat (length seen) + 1)
                        = 123%N :: rest ++ [125%N]).
           { rewrite Hs0, Hnext. rewrite Hsplit at 1.
             apply substring_middle_at.
             rewrite Hd, !length_app. cbn [length]. rewrite length_app.
             cbn [length]. unfold char16. lia. }
           rewrite Hc.
           destruct (includes (123%N :: rest ++ [125%N]) (lit "function_call"))
             eqn:Hmark.
           ++ simpl. exists [], more. split; [reflexivity|]. split.
              ** exists before, rest. simpl. repeat split; auto.
                 --- rewrite Hd. symmetry. apply (app_assoc before (123%N :: rest)).
                 --- rewrite Hbal. exact Hz.
              ** intros [|? ?] rest' c' H; discriminate.
           ++ apply Hgo; [exact Hnone|symmetry; exact Hbal|exact Hkeep|].
              intros _ c' (before' & body' & Hp & Hall' & -> & _ & Hmark').
              assert (Hseen : seen = before' ++ 123%N :: body').
              { apply (app_inj_tail seen (before' ++ 123%N :: body') 125%N 125%N).
                etransitivity; [exact Hp|].
                apply (app_assoc before' (123%N :: body') [125%N]). }
              rewrite Hd in Hseen.
              destruct (@first_brace_unique _ _ _ _ Hseen Hall Hall') as [_ <-].
              congruence.
        -- apply Hgo; [exact Hnone|symmetry; exact Hbal|exact Hkeep|].
           intros _ c' (before' & body' & Hp & Hall' & -> & Hzero' & _).
           assert (Hseen : seen = before' ++ 123%N :: body').
           { apply (app_inj_tail seen (before' ++ 123%N :: body') 125%N 125%N).
             etransitivity; [exact Hp|].
             apply (app_assoc before' (123%N :: body') [125%N]). }
           rewrite Hbal in Hzero'.
           apply andb_false_iff in Hzero as [Hz|Hset].
           ++ apply Z.eqb_neq in Hz. contradiction.
           ++ apply negb_false_iff, Z.eqb_eq in Hset.
              destruct Hstart as [[_ Hall] | (before & rest & _ & _ & Hs0)]; [|lia].
              rewrite Hseen in Hall. apply Forall_app in Hall as [_ Hall].
              inversion Hall; subst. contradiction.
      * apply Hgo; [exact Hnone| |exact Hkeep|].
        -- rewrite balance_app, Hcount. simpl. rewrite Hopen, Hclose. lia.
        -- intros ->. discriminate.
Qed.

Lemma candidateAt_ends (prefix c : jsstring) :
  candidateAt prefix c -> exists front, prefix = front ++ [125%N].
Proof.
  intros (before & body & -> & _). exists (before ++ 123%N :: body).
  now rewrite <- app_assoc.
Qed.

(** X24. The brace scan in full.  When it returns a candidate, some prefix of
    the response ends with a closing brace that brings the count of opening
    minus closing braces, taken from the start of the response, back to
    zero; the candidate is that prefix from its first opening brace on; it
    holds the marker; and no shorter prefix qualifies.  When it returns
    nothing, no prefix of the response qualifies. *)
Theorem brace_scan_in_full (response : jsstring) :
  match ToolConverter.braceScan response with
  | Some c =>
      exists prefix after,
        response = prefix ++ after
        /\ candidateAt prefix c
        /\ (forall shorter rest c',
              prefix = shorter ++ rest -> rest <> [] ->
              ~ candidateAt shorter c')
  | None =>
      forall prefix after c',
        response = prefix ++ after -> ~ candidateAt prefix c'
  end.
Proof.
  unfold ToolConverter.braceScan.
  pose proof (@scanLoop_spec response response []
                {| ToolConverter.braceCount := 0; ToolConverter.startIdx := -1;
                   ToolConverter.endIdx := -1; ToolConverter.jsonContent := None |}
                eq_refl eq_refl eq_refl (or_introl (conj eq_refl (Forall_nil _))))
    as H.
  simpl length in H. simpl Z.of_nat in H.
  destruct (ToolConverter.jsonContent _) as [c|].
  - destruct H as (mid & after & Hresp & Hcand & Hmin). simpl in Hcand.
    exists (mid ++ [125%N]), after. split; [now rewrite <- app_assoc|].
    split; [exact Hcand|].
    intros shorter rest c' Hsplit Hrest Hshort.
    destruct (candidateAt_ends Hshort) as (front & ->).
    destruct (exists_last Hrest) as (rest0 & z & ->).
    assert (Hmid : mid = front ++ 125%N :: rest0).
    { apply (app_inj_tail mid (front ++ 125%N :: rest0) 125%N z).
      rewrite Hsplit. now rewrite <- !app_assoc. }
    apply (Hmin front rest0 c' Hmid). exact Hshort.
  - intros prefix after c' Hresp Hcand.
    destruct (candidateAt_ends Hcand) as (front & ->).
    apply (H front after c'); [|exact Hcand].
    now rewrite Hresp, <- app_assoc.
Qed.

(** X23. The two text helpers on a response with a fenced block.  Let the
    response be some text, a fence, an inside, a fence and some more text,
    where the first fence is the first one of the response and the second
    the first one after it.  Then the fence pattern matches at the first
    fence and takes the block up to the second fence, no further; the text
    before is the trimmed text in front of the block and the text after is
    the trimmed text behind it. *)
Theorem fenced_block_is_cut_out (before inner after : jsstring) :
  includes (before ++ [96; 96]%N) (lit "```") = false ->
  includes (inner ++ [96; 96]%N) (lit "```") = false ->
  let response := before ++ lit "```" ++ inner ++ lit "```" ++ after in
  match_ response ToolConverter.codeBlockRegex
  = Some {| RegExp.index := length before;
            RegExp.matched := lit "```" ++ inner ++ lit "```";
            RegExp.groups := [] |}
  /\ ToolConverter.extractTextBeforeToolCall response = trim before
  /\ ToolConverter.extractTextAfterToolCall response = trim after.
Proof.
  intros Hbefore Hinner response.
  assert (Hm : match_ response ToolConverter.codeBlockRegex
               = Some {| RegExp.index := length before;
                         RegExp.matched := lit "```" ++ inner ++ lit "```";
                         RegExp.groups := [] |}).
  { unfold match_, response. now rewrite exec_codeBlock. }
  split; [exact Hm|].
  unfold ToolConverter.extractTextBeforeToolCall,
    ToolConverter.extractTextAfterToolCall.
  rewrite Hm. cbn [RegExp.index RegExp.matched]. split.
  - unfold response. now rewrite substring_prefix.
  - rewrite <- length_app.
    replace response with ((before ++ lit "```" ++ inner ++ lit "```") ++ after)
      by (unfold response; now rewrite <- !app_assoc).
    now rewrite substring_from_suffix.
Qed.

(** ** The configuration store *)

Section Store.
Import ConfigurationManager.

Lemma findIndex_some {A} (p : A -> bool) (l : list A) (i : nat) :
  findIndex p l = Some i ->
  exists before x after,
    l = before ++ x :: after
    /\ length before = i
    /\ p x = true
    /\ (forall y, In y before -> p y = false).
Proof.
  revert i. induction l as [|a l IH]; intros i; simpl; [discriminate|].
  destruct (p a) eqn:Hp.
  - intros [= <-]. exists [], a, l. repeat split; auto. intros y [].
  - destruct (findIndex p l) as [j|]; [|discriminate]. intros [= <-].
    destruct (IH j eq_refl) as (before & x & after & -> & Hlen & Hx & Hbefore).
    exists (a :: before), x, after. repeat split; auto.
    + simpl. now rewrite Hlen.
    + intros y [<- | Hy]; auto.
Qed.

Lemma findIndex_none {A} (p : A -> bool) (l : list A) :
  findIndex p l = None -> forall y, In y l -> p y = false.
Proof.
  induction l as [|a l IH]; simpl; [intros _ y []|].
  destruct (p a) eqn:Hp; [discriminate|].
  destruct (findIndex p l); [discriminate|].
  intros _ y [<- | Hy]; auto.
Qed.

Lemma findIndex_first {A} (p : A -> bool) (before after : list A) (x : A) :
  p x = true -> (forall y, In y before -> p y = false) ->
  findIndex p (before ++ x :: after) = Some (length before).
Proof.
  intros Hx. induction before as [|a before IH]; intros Hb; simpl.
  - now rewrite Hx.
  - rewrite (Hb a (or_introl eq_refl)), IH; auto. intros y Hy. apply Hb. now right.
Qed.

Lemma nth_error_middle {A} (before after : list A) (x : A) :
  nth_error (before ++ x :: after) (length before) = Some x.
Proof. induction before; simpl; auto. Qed.

Lemma setAt_middle {A} (before after : list A) (x v : A) :
  setAt (before ++ x :: after) (length before) v = before ++ v :: after.
Proof. induction before as [|a before IH]; simpl; [reflexivity|]. now rewrite IH. Qed.

Lemma removeAt_middle {A} (before after : list A) (x : A) :
  removeAt (before ++ x :: after) (length before) = before ++ after.
Proof. induction before as [|a before IH]; simpl; [reflexivity|]. now rewrite IH. Qed.

Lemma find_first {A} (p : A -> bool) (before after : list A) (x : A) :
  p x = true -> (forall y, In y before -> p y = false) ->
  find p (before ++ x :: after) = Some x.
Proof.
  intros Hx. induction before as [|a before IH]; intros Hb; simpl.
  - now rewrite Hx.
  - rewrite (Hb a (or_introl eq_refl)). apply IH. intros y Hy. apply Hb. now right.
Qed.

(** The head of the sorted list is the first target of least priority. *)
Lemma sorted_head (l : list LLMTarget) :
  match hd_error (sortByPriority l) with
  | Some t =>
      exists before after,
        l = before ++ t :: after
        /\ (forall x, In x before -> (priority t < priority x)%Z)
        /\ (forall x, In x after -> (priority t <= priority x)%Z)
  | None => l = []
  end.
Proof.
  induction l as [|a l IH]; [reflexivity|].
  simpl sortByPriority. fold (sortByPriority l).
  destruct (sortByPriority l) as [|b s] eqn:Hs; simpl in *.
  - subst l. exists [], []. repeat split; intros x [].
  - destruct IH as (before & after & -> & Hbefore & Hafter).
    destruct (priority a - priority b <=? 0)%Z eqn:Hle; simpl.
    + apply Z.leb_le in Hle. exists [], (before ++ b :: after).
      repeat split; [intros x []|].
      intros x Hx. apply in_app_or in Hx as [Hx|[<- | Hx]].
      * specialize (Hbefore x Hx). lia.
      * lia.
      * specialize (Hafter x Hx). lia.
    + apply Z.leb_gt in Hle. exists (a :: before), after.
      repeat split; auto.
      intros x [<- | Hx]; [lia|auto].
Qed.

(** The first enabled target of least priority, or that there is none. *)
Lemma first_enabled (l : list LLMTarget) :
  match hd_error (sortByPriority (filter enabled l)) with
  | Some t =>
      In t l /\ enabled t = true
      /\ exists before after,
           filter enabled l = before ++ t :: after
           /\ (forall x, In x before -> (priority t < priority x)%Z)
           /\ (forall x, In x after -> (priority t <= priority x)%Z)
  | None => forall x, In x l -> enabled x = false
  end.
Proof.
  pose proof (sorted_head (filter enabled l)) as H.
  destruct (hd_error _) as [t|].
  - destruct H as (before & after & Hl & Hb & Ha).
    assert (Hin : In t (filter enabled l)).
    { rewrite Hl. apply in_or_app. right. now left. }
    apply filter_In in Hin as [Hin Hen].
    split; [exact Hin|]. split; [exact Hen|]. now exists before, after.
  - intros x Hx. destruct (enabled x) eqn:Hen; [|reflexivity].
    assert (Hin : In x (filter enabled l)) by (apply filter_In; now split).
    rewrite H in Hin. contradiction.
Qed.

Lemma getActiveTarget_some (c : ConfigurationStore) (t : LLMTarget) :
  getActiveTarget c = Some t -> In t (targets c) /\ enabled t = true.
Proof.
  unfold getActiveTarget. pose proof (first_enabled (targets c)) as Hfirst.
  assert (Hrest : hd_error (sortByPriority (filter enabled (targets c))) = Some t ->
                  In t (targets c) /\ enabled t = true).
  { intros Hhd. rewrite Hhd in Hfirst. tauto. }
  destruct (truthyStr (defaultTarget (proxy c))); [|exact Hrest].
  destruct (getTarget c (orEmpty (defaultTarget (proxy c)))) as [d|] eqn:Hd;
    [|exact Hrest].
  destruct (enabled d) eqn:Hen; [|exact Hrest].
  intros [= <-]. split; [|exact Hen].
  unfold getTarget in Hd. now apply find_some in Hd as [Hin _].
Qed.

Lemma getActiveTarget_none (c : ConfigurationStore) :
  getActiveTarget c = None -> forall x, In x (targets c) -> enabled x = false.
Proof.
  unfold getActiveTarget. pose proof (first_enabled (targets c)) as Hfirst.
  assert (Hrest : hd_error (sortByPriority (filter enabled (targets c))) = None ->
                  forall x, In x (targets c) -> enabled x = false).
  { intros Hhd. now rewrite Hhd in Hfirst. }
  destruct (truthyStr (defaultTarget (proxy c))); [|exact Hrest].
  destruct (getTarget c (orEmpty (defaultTarget (proxy c)))) as [d|];
    [|exact Hrest].
  destruct (enabled d); [discriminate|exact Hrest].
Qed.


(** X26. [updateTarget] cannot change an id.  When some target has the id,
    the first such target is replaced by its update, which carries the id
    asked for and the instant of the call; every other target, the order,
    the ids, the proxy settings and the models stay as they were.  When no
    target has the id nothing changes and undefined is returned. *)
Theorem update_keeps_ids (c : ConfigurationStore) (wanted : jsstring)
        (updates : TargetUpdates) (now : N) :
  match updateTarget c wanted updates now with
  | (c', Some t') =>
      id t' = wanted /\ updatedAt t' = now
      /\ proxy c' = proxy c /\ models c' = models c
      /\ map id (targets c') = map id (targets c)
      /\ exists before t after,
           targets c = before ++ t :: after
           /\ targets c' = before ++ t' :: after
           /\ id t = wanted
           /\ t' = updated t updates wanted now
           /\ (forall x, In x before -> id x <> wanted)
  | (c', None) =>
      c' = c /\ forall x, In x (targets c) -> id x <> wanted
  end.
Proof.
  unfold updateTarget.
  destruct (findIndex (hasId wanted) (targets c)) as [index|] eqn:Hfind.
  - destruct (findIndex_some _ _ Hfind)
      as (before & t & after & Hl & Hlen & Ht & Hbefore).
    subst index. rewrite Hl, nth_error_middle, setAt_middle. simpl.
    apply string_eqb_eq in Ht.
    repeat split; auto.
    + rewrite !map_app. simpl. now rewrite Ht.
    + exists before, t, after. repeat split; auto.
      intros x Hx Hid. specialize (Hbefore x Hx). unfold hasId in Hbefore.
      rewrite Hid, string_eqb_refl in Hbefore. discriminate.
  - split; [reflexivity|]. intros x Hx Hid.
    pose proof (findIndex_none _ _ Hfind x Hx) as Hno. unfold hasId in Hno.
    rewrite Hid, string_eqb_refl in Hno. discriminate.
Qed.

(** X27. [deleteTarget] takes out the first target with the id and nothing
    else.  The default is cleared exactly when it is the id that was asked
    for; so, in a store whose target ids are distinct, the id is gone
    afterwards, and a default that named an existing target before still
    names one. *)
Theorem delete_keeps_default_valid (c : ConfigurationStore) (wanted : jsstring) :
  match deleteTarget c wanted with
  | (c', true) =>
      models c' = models c
      /\ (exists before t after,
             targets c = before ++ t :: after
             /\ targets c' = before ++ after
             /\ id t = wanted
             /\ (forall x, In x before -> id x <> wanted))
      /\ defaultTarget (proxy c')
         = (if isDefault (proxy c) wanted then None else defaultTarget (proxy c))
      /\ (NoDup (map id (targets c)) ->
          getTarget c' wanted = None
          /\ (forall d t, defaultTarget (proxy c') = Some d ->
                getTarget c d = Some t -> getTarget c' d = Some t))
  | (c', false) =>
      c' = c /\ forall x, In x (targets c) -> id x <> wanted
  end.
Proof.
  unfold deleteTarget.
  destruct (findIndex (hasId wanted) (targets c)) as [index|] eqn:Hfind.
  - destruct (findIndex_some _ _ Hfind)
      as (before & t & after & Hl & Hlen & Ht & Hbefore).
    subst index. simpl. rewrite Hl, removeAt_middle.
    apply string_eqb_eq in Ht.
    assert (Hb : forall x, In x before -> id x <> wanted).
    { intros x Hx Hid. specialize (Hbefore x Hx). unfold hasId in Hbefore.
      rewrite Hid, string_eqb_refl in Hbefore. discriminate. }
    split; [reflexivity|]. split; [now exists before, t, after|]. split.
    { destruct (isDefault (proxy c) wanted); reflexivity. }
    intros Hnodup. rewrite map_app in Hnodup. simpl in Hnodup.
    assert (Ha : forall x, In x after -> id x <> wanted).
    { intros x Hx Hid. apply NoDup_remove_2 in Hnodup. apply Hnodup.
      apply in_or_app. right. rewrite Ht, <- Hid. now apply in_map. }
    assert (Hgone : forall x, In x (before ++ after) -> hasId wanted x = false).
    { intros x Hx. unfold hasId.
      destruct (string_eqb (id x) wanted) eqn:Heq; [|reflexivity].
      apply string_eqb_eq in Heq.
      apply in_app_or in Hx as [Hx|Hx]; [now apply Hb in Hx|now apply Ha in Hx]. }
    split.
    + unfold getTarget. simpl.
      destruct (find (hasId wanted) (before ++ after)) as [x|] eqn:Hx;
        [|reflexivity].
      apply find_some in Hx as [Hin Hp]. rewrite (Hgone x Hin) in Hp. discriminate.
    + intros d t0 Hd Hget. unfold getTarget in *. simpl.
      assert (Hdw : d <> wanted).
      { intros ->. unfold isDefault in Hd.
        destruct (defaultTarget (proxy c)) as [d0|] eqn:Hd0.
        - destruct (string_eqb d0 wanted) eqn:Heq; simpl in Hd; [discriminate|].
          rewrite Hd0 in Hd. injection Hd as ->.
          now rewrite string_eqb_refl in Heq.
        - simpl in Hd. rewrite Hd0 in Hd. discriminate. }
      rewrite Hl in Hget. clear - Hget Hdw Ht.
      induction before as [|a before IH]; simpl in *.
      * destruct (hasId d t) eqn:Hp; [|exact Hget].
        unfold hasId in Hp. apply string_eqb_eq in Hp. congruence.
      * destruct (hasId d a); [exact Hget|now apply IH].
  - split; [reflexivity|]. intros x Hx Hid.
    pose proof (findIndex_none _ _ Hfind x Hx) as Hno. unfold hasId in Hno.
    rewrite Hid, string_eqb_refl in Hno. discriminate.
Qed.

End Store.

(** ** The model list and the models route *)

Section Models.
Import ConfigurationManager.
Import Server.

Lemma isModel_key (x m : Model) :
  isModel (m_id x) (m_provider x) m = true <-> modelKey m = modelKey x.
Proof.
  unfold isModel, modelKey. rewrite andb_true_iff, !string_eqb_eq. split.
  - intros [-> ->]. reflexivity.
  - intros [= -> ->]. now split.
Qed.

Lemma isModel_other (x m : Model) :
  modelKey m <> modelKey x -> isModel (m_id x) (m_provider x) m = false.
Proof.
  intros Hne. destruct (isModel (m_id x) (m_provider x) m) eqn:H; [|reflexivity].
  now apply isModel_key in H.
Qed.

Lemma everyOther_both {A} (l : list A) :
  (forall m, In m (everyOther l) -> In m l)
  /\ (forall a m, In m (everyOther (a :: l)) -> In m l).
Proof.
  induction l as [|b l [IH1 IH2]]; simpl; split; try tauto.
  - intros m Hm. right. exact (IH2 b m Hm).
  - intros a m [<- | Hm]; [now left|]. right. exact (IH1 m Hm).
Qed.

Lemma everyOther_In {A} (l : list A) (m : A) : In m (everyOther l) -> In m l.
Proof. apply everyOther_both. Qed.

Lemma everyOther_NoDup_both {A B} (f : A -> B) (l : list A) :
  (NoDup (map f l) -> NoDup (map f (everyOther l)))
  /\ (forall a, NoDup (map f (a :: l)) -> NoDup (map f (everyOther (a :: l)))).
Proof.
  induction l as [|b l [IH1 IH2]]; simpl; split; intros; try constructor.
  - exact (IH2 b H).
  - inversion H as [|? ? _ Hrest]; subst. inversion Hrest as [|? ? Hb _]; subst.
    intros Hin. apply Hb. apply in_map_iff in Hin as (m & <- & Hm).
    apply in_map. now apply everyOther_In.
  - apply IH1. inversion H as [|? ? _ Hrest]; subst. now inversion Hrest.
Qed.

Lemma NoDup_snoc {A} (l : list A) (a : A) :
  NoDup l -> ~ In a l -> NoDup (l ++ [a]).
Proof.
  induction l as [|b l IH]; simpl; intros Hl Ha.
  - constructor; [intros []|constructor].
  - inversion Hl as [|? ? Hb Hrest]; subst. constructor.
    + intros Hin. apply in_app_or in Hin as [Hin|[-> | []]]; [now apply Hb|].
      apply Ha. now left.
    + apply IH; [exact Hrest|]. intros Hin. apply Ha. now right.
Qed.

(** Past the end of the array the loop finds nothing to remove. *)
Lemma clearLoop_past (steps : nat) :
  forall index c, length (models c) <= index -> clearLoop steps index c = c.
Proof.
  induction steps as [|steps IH]; intros index c Hlen; [reflexivity|].
  simpl. apply nth_error_None in Hlen as Hnone. rewrite Hnone.
  apply IH. lia.
Qed.

(** With distinct keys the model that is visited is the one removed. *)
Lemma removeModel_visited (c : ConfigurationStore) (kept rest : list Model)
      (x : Model) :
  models c = kept ++ x :: rest ->
  NoDup (map modelKey (kept ++ x :: rest)) ->
  fst (removeModel c (m_id x) (m_provider x))
  = {| proxy := proxy c; targets := targets c; models := kept ++ rest |}.
Proof.
  intros Hm Hnodup. unfold removeModel. rewrite Hm.
  rewrite findIndex_first.
  - simpl. now rewrite removeAt_middle.
  - now apply isModel_key.
  - intros y Hy. apply isModel_other. intros Heq.
    rewrite map_app in Hnodup. simpl in Hnodup.
    apply NoDup_remove_2 in Hnodup. apply Hnodup.
    apply in_or_app. left. rewrite <- Heq. now apply in_map.
Qed.

(** The loop at index [length kept], with [rest] still ahead of it. *)
Lemma clearLoop_spec (n : nat) :
  forall rest kept c steps,
    length rest <= n ->
    models c = kept ++ rest ->
    NoDup (map modelKey (kept ++ rest)) ->
    length rest <= steps ->
    clearLoop steps (length kept) c
    = {| proxy := proxy c; targets := targets c;
         models := kept ++ everyOther rest |}.
Proof.
  induction n as [|n IH]; intros rest kept c steps Hn Hm Hnodup Hsteps.
  - destruct rest; [|simpl in Hn; lia].
    rewrite clearLoop_past by (rewrite Hm, app_nil_r; lia).
    destruct c; simpl in *. now rewrite Hm.
  - destruct rest as [|x [|y rest]].
    + rewrite clearLoop_past by (rewrite Hm, app_nil_r; lia).
      destruct c; simpl in *. now rewrite Hm.
    + destruct steps as [|steps]; [simpl in Hsteps; lia|].
      simpl clearLoop. rewrite Hm, nth_error_middle.
      rewrite (removeModel_visited c kept [] x Hm Hnodup).
      rewrite clearLoop_past by (simpl; rewrite app_nil_r; lia).
      reflexivity.
    + destruct steps as [|steps]; [simpl in Hsteps; lia|].
      simpl clearLoop. rewrite Hm, nth_error_middle.
      rewrite (removeModel_visited c kept (y :: rest) x Hm Hnodup).
      replace (S (length kept)) with (length (kept ++ [y]))
        by (rewrite length_app; simpl; lia).
      rewrite (IH rest (kept ++ [y])); simpl in *.
      * now rewrite <- app_assoc.
      * lia.
      * now rewrite <- app_assoc.
      * rewrite <- app_assoc. simpl.
        rewrite map_app in *. simpl in *. now apply NoDup_remove_1 in Hnodup.
      * lia.
Qed.

Lemma clearModels_spec (c : ConfigurationStore) :
  NoDup (map modelKey (models c)) ->
  clearModels c
  = {| proxy := proxy c; targets := targets c;
       models := everyOther (models c) |}.
Proof.
  intros Hnodup. unfold clearModels.
  exact (@clearLoop_spec (length (models c)) (models c) [] c
           (length (models c)) (le_n _) eq_refl Hnodup (le_n _)).
Qed.

(** What [addModel] does to the keys: a known key keeps its place, a new one
    goes to the end. *)
Lemma addModel_keys (c : ConfigurationStore) (m : Model) :
  map modelKey (models (addModel c m))
  = if existsb (isModel (m_id m) (m_provider m)) (models c)
    then map modelKey (models c)
    else map modelKey (models c) ++ [modelKey m].
Proof.
  unfold addModel. simpl.
  destruct (findIndex (isModel (m_id m) (m_provider m)) (models c))
    as [index|] eqn:Hfind.
  - destruct (findIndex_some _ _ Hfind)
      as (before & x & after & Hl & Hlen & Hx & Hbefore).
    subst index. rewrite Hl, setAt_middle.
    replace (existsb _ _) with true.
    + rewrite !map_app. simpl. apply isModel_key in Hx. now rewrite Hx.
    + symmetry. apply existsb_exists. exists x. split; [|exact Hx].
      apply in_or_app. right. now left.
  - replace (existsb _ _) with false; [now rewrite map_app|].
    symmetry. destruct (existsb _ _) eqn:He; [|reflexivity].
    apply existsb_exists in He as (x & Hin & Hx).
    now rewrite (findIndex_none _ _ Hfind x Hin) in Hx.
Qed.

Lemma addModel_NoDup (c : ConfigurationStore) (m : Model) :
  NoDup (map modelKey (models c)) ->
  NoDup (map modelKey (models (addModel c m))).
Proof.
  intros Hnodup. rewrite addModel_keys.
  destruct (existsb _ _) eqn:He; [exact Hnodup|].
  apply NoDup_snoc; [exact Hnodup|].
  intros Hin. apply in_map_iff in Hin as (x & Hkey & Hin).
  assert (Hx : existsb (isModel (m_id m) (m_provider m)) (models c) = true).
  { apply existsb_exists. exists x. split; [exact Hin|]. now apply isModel_key. }
  congruence.
Qed.

Lemma addModel_has_key (c : ConfigurationStore) (m : Model) :
  In (modelKey m) (map modelKey (models (addModel c m))).
Proof.
  rewrite addModel_keys. destruct (existsb _ _) eqn:He.
  - apply existsb_exists in He as (x & Hin & Hx). apply isModel_key in Hx.
    rewrite <- Hx. now apply in_map.
  - apply in_or_app. right. now left.
Qed.

Lemma addModel_keeps_keys (c : ConfigurationStore) (m : Model) (k : jsstring * jsstring) :
  In k (map modelKey (models c)) ->
  In k (map modelKey (models (addModel c m))).
Proof.
  intros Hin. rewrite addModel_keys. destruct (existsb _ _); [exact Hin|].
  apply in_or_app. now left.
Qed.

Lemma addModel_keeps_other (c : ConfigurationStore) (m other : Model) :
  In other (models c) -> modelKey m <> modelKey other ->
  In other (models (addModel c m)).
Proof.
  intros Hin Hne. unfold addModel. simpl.
  destruct (findIndex (isModel (m_id m) (m_provider m)) (models c))
    as [index|] eqn:Hfind.
  - destruct (findIndex_some _ _ Hfind)
      as (before & x & after & Hl & Hlen & Hx & Hbefore).
    subst index. rewrite Hl, setAt_middle. rewrite Hl in Hin.
    apply in_app_or in Hin as [Hin|[<- | Hin]].
    + apply in_or_app. now left.
    + apply isModel_key in Hx. congruence.
    + apply in_or_app. right. now right.
  - apply in_or_app. now left.
Qed.

Lemma addAll_spec (fresh : list Model) :
  forall c,
    NoDup (map modelKey (models c)) ->
    let c' := fold_left addModel fresh c in
    proxy c' = proxy c /\ targets c' = targets c
    /\ NoDup (map modelKey (models c'))
    /\ (forall k, In k (map modelKey (models c)) ->
                  In k (map modelKey (models c')))
    /\ (forall f, In f fresh -> In (modelKey f) (map modelKey (models c')))
    /\ (forall m, In m (models c) ->
                  (forall f, In f fresh -> modelKey f <> modelKey m) ->
                  In m (models c')).
Proof.
  induction fresh as [|f fresh IH]; intros c Hnodup; simpl.
  - repeat split; auto. intros f [].
  - destruct (IH (addModel c f) (addModel_NoDup c f Hnodup))
      as (Hp & Ht & Hn & Hk & Hf & Hm).
    repeat split; auto.
    + intros k Hin. apply Hk. now apply addModel_keeps_keys.
    + intros g [<- | Hg]; [|now apply Hf]. apply Hk. apply addModel_has_key.
    + intros m Hin Hfresh. apply Hm.
      * apply addModel_keeps_other; [exact Hin|]. apply Hfresh. now left.
      * intros g Hg. apply Hfresh. now right.
Qed.

(** X28. The models route does not clear the old models.  Its clearing loop
    walks the store's own array while removing from it, so, the model keys
    (id and provider) being distinct, every second model stays: the second,
    the fourth and so on.  After the fresh models are added the keys are
    still distinct and every fresh key is there, and so is every old model
    that stayed and whose key no fresh model has.  The proxy settings and
    the targets are left alone. *)
Theorem refresh_keeps_every_other_model (c : ConfigurationStore)
        (freshModels : list Model) :
  NoDup (map modelKey (models c)) ->
  freshModels <> [] ->
  let c' := refreshModels c freshModels in
  models (clearModels c) = everyOther (models c)
  /\ proxy c' = proxy c /\ targets c' = targets c
  /\ NoDup (map modelKey (models c'))
  /\ (forall f, In f freshModels -> In (modelKey f) (map modelKey (models c')))
  /\ (forall m, In m (everyOther (models c)) ->
                (forall f, In f freshModels -> modelKey f <> modelKey m) ->
                In m (models c')).
Proof.
  intros Hnodup Hfresh c'. unfold c', refreshModels.
  destruct freshModels as [|f0 fresh]; [congruence|].
  change (0 <? length (f0 :: fresh))%nat with true. cbv iota.
  rewrite (clearModels_spec c Hnodup). split; [reflexivity|].
  set (cleared := {| proxy := proxy c; targets := targets c;
                     models := everyOther (models c) |}).
  assert (Hcleared : NoDup (map modelKey (models cleared))).
  { simpl. now apply (everyOther_NoDup_both modelKey (models c)). }
  destruct (addAll_spec (f0 :: fresh) cleared Hcleared)
    as (Hp & Ht & Hn & _ & Hf & Hm).
  repeat split; auto.
Qed.

End Models.

(** ** The chat route: the key check and the handler cache *)

Section Route.
Import ConfigurationManager.
Import Server.

Lemma skipn_prefix {A} (p s : list A) : skipn (length p) (p ++ s) = s.
Proof. induction p; simpl; auto. Qed.

Lemma removeFirst_prefix (p s : jsstring) : removeFirst (p ++ s) p = s.
Proof.
  destruct (p ++ s) as [|c t] eqn:Heq.
  - apply app_eq_nil in Heq as [_ ->]. reflexivity.
  - cbn [removeFirst]. rewrite <- Heq, startsWith_app. apply skipn_prefix.
Qed.

Lemma removeFirst_absent (s p : jsstring) :
  includes s p = false -> removeFirst s p = s.
Proof.
  induction s as [|c t IH]; [reflexivity|].
  rewrite includes_unfold. intros H. apply orb_false_iff in H as [Hhere Hlater].
  cbn [removeFirst]. now rewrite Hhere, IH.
Qed.

(** X29. The key check of the chat route.  Without a configured key every
    request passes.  With one, a request passes exactly when it has an
    authorization header that is the key once its first "Bearer " is taken
    out, wherever that stands.  So the usual header passes, and so does the
    bare key with no scheme in front. *)
Theorem chat_key_check (c : ConfigurationStore) (authorization : option jsstring) :
  (chatAllowed c authorization = true <->
   truthyStr (chatApiKey (proxy c)) = false
   \/ exists a, authorization = Some a
                /\ Some (removeFirst a (lit "Bearer ")) = chatApiKey (proxy c))
  /\ (forall key, chatApiKey (proxy c) = Some key ->
        chatAllowed c (Some (lit "Bearer " ++ key)) = true
        /\ (includes key (lit "Bearer ") = false ->
            chatAllowed c (Some key) = true)).
Proof.
  assert (Hpass : forall a key,
             chatApiKey (proxy c) = Some key -> nonEmpty key = true ->
             removeFirst a (lit "Bearer ") = key ->
             chatAllowed c (Some a) = true).
  { intros a key Hkey Hne Ha. unfold chatAllowed, validateChatApiKey.
    rewrite Hkey. cbn [truthyStr orEmpty]. rewrite Hne, Ha, Hne.
    now rewrite string_eqb_refl. }
  split.
  - unfold chatAllowed, validateChatApiKey.
    destruct (chatApiKey (proxy c)) as [key|]; cbn [truthyStr orEmpty];
      [|split; auto].
    destruct (nonEmpty key) eqn:Hne; [|split; auto]. cbn [negb]. split.
    + destruct authorization as [a|]; [|discriminate].
      destruct (nonEmpty (removeFirst a (lit "Bearer "))); [|discriminate].
      cbn [negb orb].
      destruct (string_eqb (removeFirst a (lit "Bearer ")) key) eqn:Heq;
        [|discriminate].
      intros _. right. exists a. split; [reflexivity|].
      apply string_eqb_eq in Heq. now rewrite Heq.
    + intros [Hno | (a & -> & [= Ha])]; [discriminate|].
      now rewrite Ha, Hne, string_eqb_refl.
  - intros key Hkey.
    destruct (nonEmpty key) eqn:Hne.
    + split.
      * apply (Hpass _ key Hkey Hne). apply removeFirst_prefix.
      * intros Habsent. apply (Hpass _ key Hkey Hne).
        now apply removeFirst_absent.
    + unfold chatAllowed. rewrite Hkey. cbn [truthyStr]. rewrite Hne. now split.
Qed.

Lemma cached_snoc (cache : Cache) (key : jsstring) (h : ProxyHandler.ProxyHandler) :
  cached cache key = None -> cached (cache ++ [(key, h)]) key = Some h.
Proof.
  induction cache as [|[k h0] cache IH]; simpl.
  - now rewrite string_eqb_refl.
  - destruct (string_eqb k key); [discriminate|exact IH].
Qed.

Lemma getTargetForModel_some (c : ConfigurationStore) (modelName : jsstring)
      (t : LLMTarget) :
  getTargetForModel c modelName = Some t -> In t (targets c) /\ enabled t = true.
Proof.
  unfold getTargetForModel.
  destruct (find _ (models c)); intros H; apply find_some in H as [Hin Hp];
    apply andb_true_iff in Hp as [_ Hen]; now split.
Qed.

Lemma chooseTarget_some (c : ConfigurationStore) (modelName : jsstring)
      (t : LLMTarget) :
  chooseTarget c modelName = Some t -> In t (targets c) /\ enabled t = true.
Proof.
  unfold chooseTarget.
  destruct (getTargetForModel c modelName) as [t0|] eqn:Hmodel.
  - intros [= <-]. now apply getTargetForModel_some in Hmodel.
  - apply getActiveTarget_some.
Qed.

(** X30. The handler the chat route works with.  The route is refused a
    handler exactly when no target is enabled: any enabled target serves any
    model name.  Otherwise the handler belongs to an enabled target, the one
    that provides the model or else the active one; it is the cached one
    when the cache has the key, and a new one for the target's url and key
    and the requested model otherwise.  From then on the same handler comes
    back for that model as long as the chosen target has the same id,
    whatever has become of its url or key. *)
Theorem handler_for_model (e : Entropy) (c : ConfigurationStore) (cache : Cache)
        (modelName : jsstring) :
  match getProxyHandlerForModel e c cache modelName with
  | (cache', Throw err) =>
      cache' = cache /\ err = noTarget modelName
      /\ forall x, In x (targets c) -> enabled x = false
  | (cache', Normal h) =>
      exists t,
        chooseTarget c modelName = Some t
        /\ In t (targets c) /\ enabled t = true
        /\ match cached cache (cacheKey t modelName) with
           | Some h0 => h = h0 /\ cache' = cache
           | None => h = handlerFor e t modelName
                     /\ ProxyHandler.targetApiUrl (ProxyHandler.config h) = url t
                     /\ ProxyHandler.apiKey (ProxyHandler.config h) = apiKey t
                     /\ ProxyHandler.targetModel (ProxyHandler.config h) = modelName
                     /\ ProxyHandler.maxRounds (ProxyHandler.config h) = Some 10%Z
                     /\ cache' = cache ++ [(cacheKey t modelName, h)]
           end
        /\ forall e' c' t',
             chooseTarget c' modelName = Some t' -> id t' = id t ->
             getProxyHandlerForModel e' c' cache' modelName = (cache', Normal h)
  end.
Proof.
  unfold getProxyHandlerForModel.
  destruct (chooseTarget c modelName) as [t|] eqn:Hchoose.
  - destruct (chooseTarget_some c modelName Hchoose) as [Hin Hen].
    assert (Hagain : forall cache' h,
               cached cache' (cacheKey t modelName) = Some h ->
               forall e' c' t',
                 chooseTarget c' modelName = Some t' -> id t' = id t ->
                 match chooseTarget c' modelName with
                 | Some t0 =>
                     match cached cache' (cacheKey t0 modelName) with
                     | Some h0 => (cache', Normal h0)
                     | None =>
                         (cache' ++ [(cacheKey t0 modelName,
                                      handlerFor e' t0 modelName)],
                          Normal (handlerFor e' t0 modelName))
                     end
                 | None => (cache', Throw (noTarget modelName))
                 end = (cache', Normal h)).
    { intros cache' h Hhit e' c' t' Hc' Hid. rewrite Hc'.
      unfold cacheKey in *. now rewrite Hid, Hhit. }
    destruct (cached cache (cacheKey t modelName)) as [h0|] eqn:Hcached.
    + exists t. rewrite Hcached. repeat split; auto.
      now apply Hagain.
    + exists t. rewrite Hcached. repeat split; auto.
      apply Hagain. now apply cached_snoc.
  - split; [reflexivity|]. split; [reflexivity|].
    unfold chooseTarget in Hchoose.
    destruct (getTargetForModel c modelName); [discriminate|].
    now apply getActiveTarget_none.
Qed.

End Route.

(** ** The further theorems at concrete inputs *)

(** X1 on the one-tool list of the weather request. *)
Lemma prompt_lists_every_tool_witness :
  includes (ToolConverter.convertToolsToSystemPrompt (Some [Scenario.get_weather]))
    (lit "Function: get_weather" ++ LF
     ++ lit "Description: Current weather for a location" ++ LF) = true
  /\ ToolConverter.convertToolsToSystemPrompt (Some [Scenario.get_weather]) <> [].
Proof.
  destruct (@prompt_lists_every_tool [Scenario.get_weather] Scenario.get_weather
              (or_introl eq_refl)) as (_ & Hnames & _ & Hne).
  split; [exact Hnames|exact Hne].
Defined.

(** X3 on a request with a system message and one tool. *)
Lemma reused_request_gets_prompt_again_witness :
  exists o,
    handleRequest 1 Scenario.handler (Scenario.replying Scenario.sunny)
      Cases.askWithTools = Some o
    /\ request_after o <> messages Cases.askWithTools
    /\ request_after o
       = [plainMessage system
            (lit "Be brief." ++ LF ++ LF
             ++ ToolConverter.convertToolsToSystemPrompt (Some [Scenario.get_weather]));
          plainMessage user (lit "What is the weather in Paris?")].
Proof.
  destruct (@reused_request_gets_prompt_again Scenario.handler
              (Scenario.replying Scenario.sunny) Cases.askWithTools
              [Scenario.get_weather] []
              [plainMessage user (lit "What is the weather in Paris?")]
              (plainMessage system (lit "Be brief.")) 0
              eq_refl ltac:(discriminate) eq_refl eq_refl eq_refl eq_refl)
    as (Hne & (o & Hrun & Hafter) & _).
  exists o. split; [exact Hrun|]. split.
  - rewrite Hafter. exact Hne.
  - rewrite Hafter. reflexivity.
Defined.

(** X4 on the follow-up conversation. *)
Lemma payload_is_flat_witness :
  prepareMessagesForTarget Scenario.handler (messages Scenario.followUp)
  = Normal Scenario.followUpPayload
  /\ map msg_role Scenario.followUpPayload = [user; user]
  /\ Forall (fun m' => msg_role m' <> tool
                       /\ msg_tool_calls m' = None
                       /\ msg_tool_call_id m' = None
                       /\ msg_name m' = None
                       /\ msg_content m' <> None) Scenario.followUpPayload.
Proof.
  assert (H : prepareMessagesForTarget (new Scenario.defaults Scenario.entropy)
                (messages Scenario.followUp) = Normal Scenario.followUpPayload)
    by (vm_compute; reflexivity).
  destruct (payload_is_flat Scenario.defaults Scenario.entropy _ H)
    as (_ & Hroles & Hall & _).
  split; [exact H|]. split; [exact Hroles|exact Hall].
Defined.

(** X6 on a fenced list. *)
Lemma no_brace_no_call_witness :
  ~ In 123%N Cases.fencedList
  /\ ToolConverter.selectCandidate Cases.fencedList = Some (lit "[1, 2]")
  /\ ToolConverter.extractToolCallFromResponse Scenario.entropy Cases.fencedList
     = Normal None.
Proof.
  assert (Hno : ~ In 123%N Cases.fencedList).
  { vm_compute. intros H. repeat (destruct H as [H|H]; [discriminate|]). exact H. }
  split; [exact Hno|]. split; [vm_compute; reflexivity|].
  exact (proj1 (no_brace_no_call Scenario.entropy Cases.fencedList Hno)).
Defined.

(** X7 on the get_weather call for Paris. *)
Lemma returned_call_shape_witness :
  exists call,
    ToolConverter.extractToolCallFromResponse Scenario.entropy Scenario.weatherCall
    = Normal (Some call)
    /\ tc_type call = lit "function"
    /\ truthy (fn_name (tc_function call)) = true
    /\ In 123%N Scenario.weatherCall.
Proof.
  eexists. split; [vm_compute; reflexivity|].
  destruct (@returned_call_shape Scenario.entropy Scenario.weatherCall _
              ltac:(vm_compute; reflexivity))
    as (_ & Htype & Hname & _ & _ & _ & Hbrace).
  split; [exact Htype|]. split; [exact Hname|exact Hbrace].
Defined.

(** X9 on an ordinary answer. *)
Lemma plain_text_is_untouched_witness :
  ToolConverter.extractTextBeforeToolCall (lit "Sunny, 21 degrees.")
  = lit "Sunny, 21 degrees."
  /\ ToolConverter.extractTextAfterToolCall (lit "Sunny, 21 degrees.") = [].
Proof.
  destruct (@plain_text_is_untouched (lit "Sunny, 21 degrees.")) as (_ & _ & Hb & Ha).
  - vm_compute. intros H. repeat (destruct H as [H|H]; [discriminate|]). exact H.
  - vm_compute. intros H. repeat (destruct H as [H|H]; [discriminate|]). exact H.
  - split; [exact Hb|exact Ha].
Defined.

(** X10 on the same answer, in one piece and in two deltas. *)
Lemma plain_reply_is_forwarded_witness :
  (exists o r,
      handleRequest 1 Scenario.handler (Scenario.replying Scenario.sunny)
        Scenario.question = Some o
      /\ result o = Normal r
      /\ resp_content r = Some (lit "Sunny, 21 degrees.")
      /\ resp_tool_calls r = None
      /\ resp_finish_reason r = lit "stop")
  /\ (exists o,
         handleStreamingRequest 1 Scenario.handler (Scenario.replying Scenario.sunny)
           Scenario.question = Some o
         /\ contentText (yielded (result o)) = lit "Sunny, 21 degrees."
         /\ toolCallsOf (yielded (result o)) = []
         /\ lastFinish (yielded (result o)) = Some (lit "stop")).
Proof.
  destruct (@plain_reply_is_forwarded Scenario.defaults Scenario.entropy
              (Scenario.replying Scenario.sunny) Scenario.question 0
              (lit "Sunny, 21 degrees.")
              [plainMessage user (lit "What is the weather in Paris?")])
    as [Hplain Hstream].
  - vm_compute. intros H. repeat (destruct H as [H|H]; [discriminate|]). exact H.
  - reflexivity.
  - reflexivity.
  - split.
    + destruct (Hplain eq_refl) as (o & r & Hrun & _ & Hres & _ & _ & Hc & Ht & Hf).
      exists o, r. repeat split; assumption.
    + destruct (Hstream Scenario.sunny eq_refl eq_refl)
        as (o & Hrun & _ & _ & Hc & Ht & Hf).
      exists o. repeat split; assumption.
Defined.

(** X11 on the call split over three deltas. *)
Lemma modes_agree_witness :
  toolCallsOf
    (yielded (detect Scenario.handler
                (setup Scenario.handler (Scenario.replying Scenario.fragments)
                   Scenario.question)
                Scenario.question (Scenario.streamOf Scenario.fragments)))
  = [{| tc_id := ToolConverter.freshId Scenario.entropy;
        tc_type := lit "function";
        tc_function := {| fn_name := Val (JString (lit "x"));
                          fn_arguments := lit "{}" |} |}]
  /\ lastFinish
       (yielded (detect Scenario.handler
                   (setup Scenario.handler (Scenario.replying Scenario.fragments)
                      Scenario.question)
                   Scenario.question (Scenario.streamOf Scenario.fragments)))
     = Some (lit "tool_calls").
Proof.
  destruct (@modes_agree Scenario.handler
              (setup Scenario.handler (Scenario.replying Scenario.fragments)
                 Scenario.question)
              Scenario.question (Scenario.streamOf Scenario.fragments)
              (createToolCallResponse
                 (uuidv4 (Scenario.replying Scenario.fragments))
                 {| tc_id := ToolConverter.freshId Scenario.entropy;
                    tc_type := lit "function";
                    tc_function := {| fn_name := Val (JString (lit "x"));
                                      fn_arguments := lit "{}" |} |}
                 [] (lit "llama3")))
    as (_ & _ & Hcalls & Hfinish).
  - reflexivity.
  - vm_compute. reflexivity.
  - right. right. exists (jq "{'function"),
      [jq "_call':{'name':'x',"; jq "'arguments':{}}}"].
    split; [reflexivity|vm_compute; reflexivity].
  - split; [exact Hcalls|exact Hfinish].
Defined.

(** X16 on an echo tool registered over the empty registry. *)
Lemma registered_implementation_runs_witness :
  ToolExecutor.executeToolCall Cases.messageOf
    (ToolExecutor.registerTool [] (lit "echo") Cases.echo)
    Cases.echoCall [Cases.echoTool]
  = Val (JObject [(lit "text", JString (lit "hi"))]).
Proof.
  rewrite (proj1 (@registered_implementation_runs Cases.messageOf []
                    (lit "echo") Cases.echo Cases.echoCall [Cases.echoTool]
                    Cases.echoTool eq_refl (or_introl eq_refl) eq_refl)).
  vm_compute. reflexivity.
Defined.

(** X21 on the get_weather call for Paris, written with indentation. *)
Lemma call_round_trip_witness :
  ToolConverter.extractToolCallFromResponse Scenario.entropy
    (JSON.stringify2 (callObject (lit "get_weather") (lit "location") (lit "Paris")))
  = Normal (Some {| tc_id := ToolConverter.freshId Scenario.entropy;
                    tc_type := lit "function";
                    tc_function :=
                      {| fn_name := Val (JString (lit "get_weather"));
                         fn_arguments := jq "{'location':'Paris'}" |} |}).
Proof.
  assert (Hw : forall s : string, wide (lit s)).
  { intros s. unfold wide, lit. apply Forall_forall. intros c Hc.
    apply in_map_iff in Hc as (a & <- & _).
    pose proof (N_ascii_bounded a). lia. }
  destruct (@call_round_trip Scenario.entropy (lit "get_weather") (lit "location")
              (lit "Paris") _ (Hw _) (Hw _) (Hw _) ltac:(discriminate)
              (or_intror eq_refl)) as [_ H].
  exact H.
Defined.

(** X22 on two deltas and an empty one, the second with a degree sign, the
    stream cut in the middle of an event. *)
Lemma streamed_deltas_are_read_back_witness :
  StreamHandler.parseStream
    (map bufferFrom
       [firstn 30 (eventStream [lit "Sunny, "; []; lit "21 " ++ [176%N]]);
        skipn 30 (eventStream [lit "Sunny, "; []; lit "21 " ++ [176%N]])])
  = [Val (JString (lit "Sunny, ")); Val (JString (lit "21 " ++ [176%N]))].
Proof.
  assert (Hcheck : forall s : jsstring,
             forallb (fun c => N.ltb c 65536) s = true -> wide s).
  { intros s H. apply Forall_forall. intros c Hc.
    apply N.ltb_lt. revert c Hc. now apply forallb_forall. }
  destruct (@streamed_deltas_are_read_back
              (map bufferFrom
                 [firstn 30 (eventStream [lit "Sunny, "; []; lit "21 " ++ [176%N]]);
                  skipn 30 (eventStream [lit "Sunny, "; []; lit "21 " ++ [176%N]])])
              [lit "Sunny, "; []; lit "21 " ++ [176%N]])
    as (_ & _ & Hpieces).
  - repeat constructor; apply Hcheck; vm_compute; reflexivity.
  - apply (Hpieces _ eq_refl).
    + repeat constructor; try (apply Hcheck); vm_compute; reflexivity.
    + left. cbn [concat]. rewrite app_nil_r. apply firstn_skipn.
Defined.

(** X23 on prose around a fenced call. *)
Lemma fenced_block_is_cut_out_witness :
  ToolConverter.extractTextBeforeToolCall
    (lit "I will look it up. " ++ lit "```" ++ Scenario.callX ++ lit "```"
     ++ lit " One moment.")
  = lit "I will look it up."
  /\ ToolConverter.extractTextAfterToolCall
       (lit "I will look it up. " ++ lit "```" ++ Scenario.callX ++ lit "```"
        ++ lit " One moment.")
     = lit "One moment.".
Proof.
  destruct (@fenced_block_is_cut_out (lit "I will look it up. ") Scenario.callX
              (lit " One moment.") eq_refl eq_refl) as (_ & Hb & Ha).
  split; [rewrite Hb|rewrite Ha]; vm_compute; reflexivity.
Defined.

(** ** The models route on a store with two models *)

Lemma refresh_keeps_every_other_model_witness :
  ConfigurationManager.models (Server.clearModels Stores.store)
  = [Stores.aModel (lit "phi3")]
  /\ In (Stores.aModel (lit "phi3"))
        (ConfigurationManager.models
           (Server.refreshModels Stores.store [Stores.aModel (lit "mistral")])).
Proof.
  assert (Hkeys : NoDup (map modelKey (ConfigurationManager.models Stores.store))).
  { repeat constructor; vm_compute; intuition discriminate. }
  destruct (@refresh_keeps_every_other_model Stores.store
              [Stores.aModel (lit "mistral")] Hkeys ltac:(discriminate))
    as (Hclear & _ & _ & _ & _ & Hstay).
  split; [exact Hclear|].
  apply Hstay; [now left|].
  intros f [<- | []]. vm_compute. discriminate.
Defined.

(** The handler that was cached for a target keeps the url the target had
    then, also after [updateTarget] has given the target another one. *)
Example cached_handler_keeps_old_url :
  let first := Server.getProxyHandlerForModel Scenario.entropy Stores.store []
                 (lit "llama3") in
  let updatedStore := fst (ConfigurationManager.updateTarget Stores.store
                             (lit "t1") Stores.newUrl 1) in
  option_map ConfigurationManager.url
    (Server.chooseTarget updatedStore (lit "llama3"))
  = Some (lit "http://new/v1/chat/completions")
  /\ match Server.getProxyHandlerForModel Scenario.entropy updatedStore
             (fst first) (lit "llama3") with
     | (_, Normal h) =>
         ProxyHandler.targetApiUrl (ProxyHandler.config h)
         = lit "http://old/v1/chat/completions"
     | (_, Throw _) => False
     end.
Proof. vm_compute. split; reflexivity. Qed.
